(** * Monte-Carlo wave-function solver: qutip/mcsolve.py

    A shallow embedding of the trajectory engine [_mc_alg_evolve], of the
    orchestrator [_MC_class] and of the result assembly of [mcsolve].

    Conventions of the embedding.
    - Python floats are idealised as exact rationals ([Q]); rounding, inf and
      nan are outside the model.
    - Everything the module imports from elsewhere (the zvode integrator of
      scipy, BLAS [dznrm2], numpy's [log], the cython sparse kernels, the
      random generator, sparse-matrix arithmetic) is an operation of the
      interface [Externals]; the control flow around those calls is the
      source's.
    - A Python exception is [Raise]; a loop that never ends is [OutOfFuel].
    - Objects that the source shares by reference live in a [heap]. *)

From Stdlib Require Import QArith Qabs Lia.
From stdpp Require Import base option list gmap strings.

Local Open Scope Q_scope.

(** ** Exceptions and results *)

Inductive exn :=
| ZvodeFailed              (* Exception("ZVODE failed!") *)
| ZvodeFailedAdjust        (* Exception("ZVODE failed after adjusting step size!") *)
| NormToleranceNotReached  (* Exception("Norm tolerance not reached. ...") *)
| IndexError               (* indexing past the end, or an empty selection *)
| TypeError                (* subscripting None, item assignment on a scalar *)
| AttributeError           (* .data / .dims of something that is no Qobj *)
| ValueError.              (* ValueError('Error in ODE solver') *)

Inductive res (A : Type) :=
| Ret (a : A)
| Raise (e : exn)
| OutOfFuel.
Arguments Ret {A} a.
Arguments Raise {A} e.
Arguments OutOfFuel {A}.

#[global] Instance res_ret : MRet res := fun A a => Ret a.
#[global] Instance res_bind : MBind res := fun A B f m =>
  match m with
  | Ret a => f a
  | Raise e => Raise e
  | OutOfFuel => OutOfFuel
  end.

(** [str(e)].  The three messages of the engine's own [raise] statements
    are the source's; the others stand for the text that the interpreter or
    numpy produces, which the source does not fix. *)
Definition str_exn (e : exn) : string :=
  match e with
  | ZvodeFailed => "ZVODE failed!"
  | ZvodeFailedAdjust => "ZVODE failed after adjusting step size!"
  | NormToleranceNotReached =>
      "Norm tolerance not reached. Increase accuracy of ODE solver or Odeoptions.norm_steps."
  | IndexError => "index out of bounds"
  | TypeError => "object is not subscriptable"
  | AttributeError => "object has no attribute"
  | ValueError => "Error in ODE solver"
  end.

(** ** Float comparisons *)

Definition Qlt_bool (a b : Q) : bool := negb (Qle_bool b a).

(** ** External collaborators *)

Class Externals := {
  (* numpy complex vectors, sparse matrices, complex scalars, and the
     values of cy_expect_psi_csr for the e_ops *)
  vec : Type;
  mat : Type;
  cplx : Type;
  expv : Type;
  (* scipy.linalg.blas znrm2 *)
  dznrm2 : vec -> Q;
  (* np.log *)
  np_log : Q -> Q;
  (* array / float *)
  vdiv : vec -> Q -> vec;
  (* complex * array *)
  vscale : cplx -> vec -> vec;
  (* abs of a complex number *)
  cabs : cplx -> Q;
  (* out_psi * out_psi.conj().transpose() *)
  outer : vec -> mat;
  (* the .data of a ket Qobj: the column matrix of the vector *)
  ket_data : vec -> mat;
  (* sparse + sparse, sparse / float *)
  mat_add : mat -> mat -> mat;
  mat_div : mat -> Q -> mat;
  (* spmv_csr(c_ops_data[j], c_ops_ind[j], c_ops_ptr[j], y) *)
  c_spmv : nat -> vec -> vec;
  (* cy_expect_psi_csr(n_ops_data[i], n_ops_ind[i], n_ops_ptr[i], y, 1) *)
  n_expect : nat -> vec -> Q;
  (* odeconfig.c_funcs[i](t, odeconfig.c_func_args) *)
  c_funcs : nat -> Q -> cplx;
  (* the generated _cy_col_expect_func(i, t, n_ops[i], y, c_args...) and
     _cy_col_spmv_func(j, t, c_ops[j], y, c_args...) *)
  cy_col_expect : nat -> Q -> vec -> Q;
  cy_col_spmv : nat -> Q -> vec -> vec;
  (* cy_expect_psi_csr(e_ops_data[jj], e_ops_ind[jj], e_ops_ptr[jj], y,
     e_ops_isherm[jj]) *)
  e_expect : nat -> vec -> expv;
  (* the zero a float or complex array is preallocated with *)
  expv_zero : expv;
  (* numpy mean of a list of numbers, and np.real *)
  expv_mean : list expv -> expv;
  expv_real : expv -> expv;
  (* number / float *)
  expv_div : expv -> Q -> expv;
  (* scipy.integrate.ode with the zvode integrator *)
  ode : Type;
  ode_create : nat -> ode;          (* ode(rhs) for a tflag, set_integrator *)
  ode_t : ode -> Q;
  ode_y : ode -> vec;
  set_initial_value : ode -> vec -> Q -> ode;
  integrate : ode -> Q -> bool -> ode;   (* integrate(t, step=0 | step=1) *)
  successful : ode -> bool;
  (* numpy.random.RandomState(seed) and its rand(2) *)
  prng : Type;
  RandomState : nat -> prng;
  rand2 : prng -> (Q * Q) * prng;
  (* random_integers(1e8, size=n) on the global generator *)
  random_integers : nat -> list nat;
  (* qutip.settings.num_cpus *)
  settings_num_cpus : nat;
}.

(** ** numpy helpers used by the module *)

(** [x in array([...])] on integers. *)
Definition int_in (x : nat) (l : list nat) : bool := existsb (Nat.eqb x) l.

Definition arange (n : nat) : list nat := seq 0 n.

(** [setdiff1d(a, b)] for [a] sorted and without duplicates. *)
Definition setdiff1d (a b : list nat) : list nat :=
  List.filter (fun i => negb (int_in i b)) a.

(** [np.append(arr, x)] returns a new array; [arr] itself is not modified. *)
Definition np_append {A} (arr : list A) (x : A) : list A := arr ++ [x].

(** [sum(...)], from the left, starting at 0. *)
Definition Qsum (l : list Q) : Q := fold_left Qplus l 0.

Fixpoint cumsum_from (acc : Q) (l : list Q) : list Q :=
  match l with
  | [] => []
  | x :: l' => (acc + x) :: cumsum_from (acc + x) l'
  end.
Definition cumsum (l : list Q) : list Q := cumsum_from 0 l.

(** [cinds[mask][0]]: the first entry of [cinds] whose mask bit is set;
    an empty selection raises IndexError. *)
Fixpoint first_masked (cinds : list nat) (mask : list bool) : res nat :=
  match cinds, mask with
  | i :: cinds', b :: mask' => if b then Ret i else first_masked cinds' mask'
  | _, _ => Raise IndexError
  end.

(** [a[k] = v] and [a[k]]: IndexError past the end. *)
Definition setitem {A} (a : list A) (k : nat) (v : A) : res (list A) :=
  if (k <? length a)%nat then Ret (<[k := v]> a) else Raise IndexError.

Definition getitem {A} (a : list A) (k : nat) : res A :=
  match a !! k with
  | Some x => Ret x
  | None => Raise IndexError
  end.

(** The partition of the collapse operators in [_mc_data_config] for the
    formats with time-dependent collapse operators: [c_stuff[1]] (or
    [c_stuff[2]]) lists the positions of the operators given as
    [[C, coeff]]; the constant ones are [setdiff1d(C_inds, C_td_inds)]. *)
Definition c_partition (c_num : nat) (c_td : list nat) : list nat * list nat :=
  (setdiff1d (arange c_num) c_td, c_td).

(** ** Configuration: Odeoptions and odeconfig *)

Record Odeoptions := {
  average_states : bool;
  average_expect : bool;
  steady_state_average : bool;
  num_cpus : nat;                 (* 0 stands for "not set" *)
  seeds : option (list nat);
  opt_ntraj : nat;
  opt_norm_tol : Q;
  opt_norm_steps : nat;
}.

Definition set_average_states (b : bool) (o : Odeoptions) : Odeoptions :=
  {| average_states := b; average_expect := average_expect o;
     steady_state_average := steady_state_average o; num_cpus := num_cpus o;
     seeds := seeds o; opt_ntraj := opt_ntraj o;
     opt_norm_tol := opt_norm_tol o; opt_norm_steps := opt_norm_steps o |}.

Definition set_seeds_option (s : option (list nat)) (o : Odeoptions)
    : Odeoptions :=
  {| average_states := average_states o; average_expect := average_expect o;
     steady_state_average := steady_state_average o; num_cpus := num_cpus o;
     seeds := s; opt_ntraj := opt_ntraj o;
     opt_norm_tol := opt_norm_tol o; opt_norm_steps := opt_norm_steps o |}.

Definition set_num_cpus (n : nat) (o : Odeoptions) : Odeoptions :=
  {| average_states := average_states o; average_expect := average_expect o;
     steady_state_average := steady_state_average o; num_cpus := n;
     seeds := seeds o; opt_ntraj := opt_ntraj o;
     opt_norm_tol := opt_norm_tol o; opt_norm_steps := opt_norm_steps o |}.

Section Solver.
Context {E : Externals}.

Record odeconfig := {
  options : Odeoptions;
  tflag : nat;                    (* 0, 1, 10, 11, 2, 20, 22, 3 *)
  cflag : bool;
  c_num : nat;
  e_num : nat;
  e_ops_isherm : list bool;
  c_const_inds : list nat;
  c_td_inds : list nat;
  norm_tol : Q;
  norm_steps : nat;
  psi0 : vec;
  tlist : list Q;
  ntraj : nat;
}.

Definition set_ntraj (n : nat) (c : odeconfig) : odeconfig :=
  {| options := options c; tflag := tflag c; cflag := cflag c;
     c_num := c_num c; e_num := e_num c; e_ops_isherm := e_ops_isherm c;
     c_const_inds := c_const_inds c; c_td_inds := c_td_inds c;
     norm_tol := norm_tol c; norm_steps := norm_steps c;
     psi0 := psi0 c; tlist := tlist c; ntraj := n |}.

(** ** Output buffers *)

(** What an object array holds: the 0 it is preallocated with, a sparse
    matrix, or a Qobj (a ket, a density matrix, the empty [Qobj()], or one
    wrapped around a row of numbers). *)
Inductive out_item :=
| Zero
| Csr (m : mat)
| QobjKet (v : vec)
| QobjDm (m : mat)
| QobjRow (l : list expv)
| QobjEmpty.

(** [mc_alg_out]: an object array of states, or a list with one array of
    expectation values per operator. *)
Inductive buffer :=
| BufStates (a : list out_item)
| BufExpect (a : list (list expv)).

(** ** The trajectory engine: _mc_alg_evolve *)

(** The variables of the jump search. *)
Record bracket := {
  t_prev : Q;
  y_prev : vec;
  norm2_prev : Q;
  t_final : Q;
  norm2_psi : Q;
}.

Definition set_upper (t n2 : Q) (b : bracket) : bracket :=
  {| t_prev := t_prev b; y_prev := y_prev b; norm2_prev := norm2_prev b;
     t_final := t; norm2_psi := n2 |}.

Definition set_lower (t : Q) (y : vec) (n2 : Q) (b : bracket) : bracket :=
  {| t_prev := t; y_prev := y; norm2_prev := n2;
     t_final := t_final b; norm2_psi := norm2_psi b |}.

(** [dznrm2(y) ** 2]. *)
Definition norm2 (y : vec) : Q := dznrm2 y ^ 2.

Definition t_guess_of (r1 : Q) (b : bracket) : Q :=
  t_prev b + np_log (norm2_prev b / r1) / np_log (norm2_prev b / norm2_psi b)
             * (t_final b - t_prev b).

(** The loop [while ii < odeconfig.norm_steps] of the jump search. *)
Fixpoint jump_search (fuel : nat) (c : odeconfig) (r1 : Q)
    (ii : nat) (od : ode) (b : bracket) : res (nat * ode * bracket) :=
  if (ii <? norm_steps c)%nat then
    match fuel with
    | O => OutOfFuel
    | S fuel' =>
        let ii := S ii in
        let t_guess := t_guess_of r1 b in
        let od := set_initial_value od (y_prev b) (t_prev b) in
        let od := integrate od t_guess false in
        if negb (successful od) then Raise ZvodeFailedAdjust else
        let norm2_guess := norm2 (ode_y od) in
        if Qlt_bool (Qabs (r1 - norm2_guess)) (norm_tol c * r1) then
          Ret (ii, od, b)                                   (* break *)
        else if Qlt_bool norm2_guess r1 then
          jump_search fuel' c r1 ii od (set_upper t_guess norm2_guess b)
        else
          jump_search fuel' c r1 ii od
            (set_lower t_guess (ode_y od) norm2_guess b)
    end
  else Ret (ii, od, b).

(** Lines 829-856: the search and the test that follows it. *)
Definition find_jump (c : odeconfig) (r1 : Q) (od : ode)
    (tp : Q) (yp : vec) (n2p n2psi : Q) : res (ode * bracket) :=
  let b := {| t_prev := tp; y_prev := yp; norm2_prev := n2p;
              t_final := ode_t od; norm2_psi := n2psi |} in
  '(ii, od, b) ← jump_search (norm_steps c) c r1 0 od b;
  if (norm_steps c <? ii)%nat then Raise NormToleranceNotReached
  else Ret (od, b).

(** Lines 860-891: the decay weights [n_dp]. *)
Definition weights (c : odeconfig) (t : Q) (y : vec) : list Q :=
  if int_in (tflag c) [1; 11]%nat then
    map (fun i => n_expect i y) (c_const_inds c)
    ++ map (fun i => cy_col_expect i t y) (c_td_inds c)
  else if int_in (tflag c) [2; 20; 22]%nat then
    map (fun i => n_expect i y) (c_const_inds c)
    ++ map (fun i => cabs (c_funcs i t) ^ 2 * n_expect i y) (c_td_inds c)
  else
    map (fun i => n_expect i y) (arange (c_num c)).

(** Lines 894-895: [kk = cumsum(n_dp / sum(n_dp))] and
    [j = cinds[kk >= rand_vals[1]][0]] with [cinds = arange(c_num)].
    The weights are expectation values of the operators [C^+ C], so a zero
    total means that all of them are zero: [n_dp / 0] is nan throughout, no
    comparison with nan holds, and the empty selection raises.  In exact
    arithmetic the last entry of [kk] is 1; in doubles it can fall slightly
    short of 1, so no statement below relies on its value. *)
Definition cum_probs (n_dp : list Q) : list Q :=
  cumsum (map (fun w => w / Qsum n_dp) n_dp).

Definition select_channel (c : odeconfig) (n_dp : list Q) (r2 : Q) : res nat :=
  if Qeq_bool (Qsum n_dp) 0 then Raise IndexError else
  first_masked (arange (c_num c)) (map (fun x => Qle_bool r2 x) (cum_probs n_dp)).

(** Lines 897-914: the collapse operator applied to the state. *)
Definition collapse_state (c : odeconfig) (j : nat) (t : Q) (y : vec) : vec :=
  if int_in j (c_const_inds c) then c_spmv j y
  else if int_in (tflag c) [1; 11]%nat then cy_col_spmv j t y
  else vscale (c_funcs j t) (c_spmv j y).

(** The local variables of one trajectory.  [jumps] is a ghost trace (it is
    not a variable of the source): the time and the selected index of every
    jump that took place, in order. *)
Record traj := {
  ODE : ode;
  rand_vals : Q * Q;
  rng : prng;
  collapse_times : list Q;
  which_oper : list nat;
  mc_alg_out : buffer;
  jumps : list (Q * nat);
}.

Definition set_ODE (od : ode) (s : traj) : traj :=
  {| ODE := od; rand_vals := rand_vals s; rng := rng s;
     collapse_times := collapse_times s; which_oper := which_oper s;
     mc_alg_out := mc_alg_out s; jumps := jumps s |}.

Definition set_mc_alg_out (b : buffer) (s : traj) : traj :=
  {| ODE := ODE s; rand_vals := rand_vals s; rng := rng s;
     collapse_times := collapse_times s; which_oper := which_oper s;
     mc_alg_out := b; jumps := jumps s |}.

(** The two logs of a trajectory are unchanged between two states. *)
Definition same_logs (s s' : traj) : Prop :=
  collapse_times s' = collapse_times s /\ which_oper s' = which_oper s.

(** Lines 858-917: what happens at a jump, once the search has returned with
    the integrator [od] at the jump time. *)
Definition do_collapse (c : odeconfig) (od : ode) (s : traj) : res traj :=
  let _ := np_append (collapse_times s) (ode_t od) in
  let n_dp := weights c (ode_t od) (ode_y od) in
  j ← select_channel c n_dp (snd (rand_vals s));
  let _ := np_append (which_oper s) j in
  let state := collapse_state c j (ode_t od) (ode_y od) in
  let state := vdiv state (dznrm2 state) in
  let od := set_initial_value od state (ode_t od) in
  let '(rv, g) := rand2 (rng s) in
  Ret {| ODE := od; rand_vals := rv; rng := g;
         collapse_times := collapse_times s; which_oper := which_oper s;
         mc_alg_out := mc_alg_out s;
         jumps := jumps s ++ [(ode_t od, j)] |}.

(** Lines 811-917: the body of [while ODE.t < tlist[k]]. *)
Definition mc_step (c : odeconfig) (tk : Q) (s : traj) : res traj :=
  let tp := ode_t (ODE s) in
  let yp := ode_y (ODE s) in
  let n2p := norm2 (ode_y (ODE s)) in
  let od := integrate (ODE s) tk true in
  if negb (successful od) then Raise ZvodeFailed else
  od ← (if Qlt_bool tk (ode_t od) then
          let od := set_initial_value od yp tp in
          let od := integrate od tk false in
          if negb (successful od) then Raise ZvodeFailed else Ret od
        else Ret od);
  let n2psi := norm2 (ode_y od) in
  if Qle_bool n2psi (fst (rand_vals s)) then
    '(od, _) ← find_jump c (fst (rand_vals s)) od tp yp n2p n2psi;
    do_collapse c od s
  else Ret (set_ODE od s).

Fixpoint mc_while (fuel : nat) (c : odeconfig) (tk : Q) (s : traj) : res traj :=
  if Qlt_bool (ode_t (ODE s)) tk then
    match fuel with
    | O => OutOfFuel
    | S fuel' => s' ← mc_step c tk s; mc_while fuel' c tk s'
    end
  else Ret s.

(** [x + m] for the entry [x] of an object array and a sparse matrix [m]. *)
Definition item_add (x : out_item) (m : mat) : res out_item :=
  match x with
  | Csr m0 => Ret (Csr (mat_add m0 m))
  | Zero => Ret (Csr m)
  | _ => Raise TypeError
  end.

(** [for jj in range(e_num): mc_alg_out[jj][k] = cy_expect_psi_csr(...)]. *)
Fixpoint write_expect (jjs : list nat) (a : list (list expv)) (k : nat)
    (psi : vec) : res (list (list expv)) :=
  match jjs with
  | [] => Ret a
  | jj :: jjs' =>
      row ← getitem a jj;
      row' ← setitem row k (e_expect jj psi);
      a' ← setitem a jj row';
      write_expect jjs' a' k psi
  end.

(** Lines 921-944: the output written once [tlist[k]] is reached. *)
Definition mc_output (c : odeconfig) (k : nat) (s : traj) : res traj :=
  let out_psi := vdiv (ode_y (ODE s)) (dznrm2 (ode_y (ODE s))) in
  if (e_num c =? 0)%nat then
    match mc_alg_out s with
    | BufStates a =>
        if average_states (options c) && negb (steady_state_average (options c))
        then a' ← setitem a k (QobjDm (outer out_psi));
             Ret (set_mc_alg_out (BufStates a') s)
        else if steady_state_average (options c)
        then x ← getitem a 0;
             x' ← item_add x (outer out_psi);
             a' ← setitem a 0 x';
             Ret (set_mc_alg_out (BufStates a') s)
        else a' ← setitem a k (QobjKet out_psi);
             Ret (set_mc_alg_out (BufStates a') s)
    | BufExpect _ => Raise TypeError
    end
  else
    match mc_alg_out s with
    | BufExpect a =>
        a' ← write_expect (arange (e_num c)) a k out_psi;
        Ret (set_mc_alg_out (BufExpect a') s)
    | BufStates _ => Raise TypeError
    end.

(** [for k in range(1, num_times)]. *)
Fixpoint mc_for (fuel : nat) (c : odeconfig) (tl : list Q) (ks : list nat)
    (s : traj) : res traj :=
  match ks with
  | [] => Ret s
  | k :: ks' =>
      tk ← getitem tl k;
      s ← mc_while fuel c tk s;
      s ← mc_output c k s;
      mc_for fuel c tl ks' s
  end.

(** The tuple [args = (mc_alg_out, opt, tlist, num_times, seeds)]; [opt]
    only feeds [set_integrator].  [a_out] is the current content of the
    object [mc_alg_out] refers to. *)
Record mc_args := {
  a_out : buffer;
  a_tlist : list Q;
  a_num_times : nat;
  a_seeds : list nat;
}.

(** What the engine returns as [mc_alg_out]: the object it was given, or (in
    steady-state mode) a new array. *)
Inductive out_ref :=
| SameObject
| Fresh (b : buffer).

(** The returned tuple [(nt, mc_alg_out, collapse_times, which_oper)],
    together with the final content of the object passed in and the ghost
    trace. *)
Record traj_result := {
  r_nt : nat;
  r_out : out_ref;
  r_collapse_times : list Q;
  r_which_oper : list nat;
  r_shared : buffer;
  r_jumps : list (Q * nat);
}.

(** Lines 947-953: [Qobj(mc_alg_out[0] / float(len(tlist)), ...)]. *)
Definition steady_result (b : buffer) (len : nat) : res buffer :=
  match b with
  | BufStates a =>
      x ← getitem a 0;
      match x with
      | Csr m => Ret (BufStates [QobjDm (mat_div m (inject_Z (Z.of_nat len)))])
      | _ => Raise TypeError
      end
  | BufExpect a =>
      row ← getitem a 0;
      Ret (BufStates [QobjRow (map (fun x => expv_div x (inject_Z (Z.of_nat len))) row)])
  end.

(** Lines 759-955: the body of the [try]. *)
Definition mc_alg_evolve_body (fuel : nat) (nt : nat) (args : mc_args)
    (c : odeconfig) : res traj_result :=
  let collapse_times0 : list Q := [] in      (* np.array([], dtype=float) *)
  let which_oper0 : list nat := [] in        (* array([], dtype=float) *)
  seed ← getitem (a_seeds args) nt;
  let g := RandomState seed in
  let '(rv, g) := rand2 g in
  let od := ode_create (tflag c) in
  t0 ← getitem (a_tlist args) 0;
  let od := set_initial_value od (psi0 c) t0 in
  s ← mc_for fuel c (a_tlist args) (seq 1 (a_num_times args - 1))
        {| ODE := od; rand_vals := rv; rng := g;
           collapse_times := collapse_times0; which_oper := which_oper0;
           mc_alg_out := a_out args; jumps := [] |};
  out ← (if steady_state_average (options c)
         then b ← steady_result (mc_alg_out s) (length (a_tlist args));
              Ret (Fresh b)
         else Ret SameObject);
  Ret {| r_nt := nt; r_out := out;
         r_collapse_times := collapse_times s;
         r_which_oper := which_oper s;
         r_shared := mc_alg_out s; r_jumps := jumps s |}.

(** ** Printing *)

(** A computation that prints: the lines written to stdout, and the result. *)
Definition io (A : Type) : Type := list string * res A.

Definition io_ret {A} (a : A) : io A := ([], Ret a).

Definition io_bind {A B} (m : io A) (f : A -> io B) : io B :=
  match m with
  | (out, Ret a) => let '(out', r) := f a in (out ++ out', r)
  | (out, Raise e) => (out, Raise e)
  | (out, OutOfFuel) => (out, OutOfFuel)
  end.

Definition print (s : string) : io unit := ([s], Ret tt).

Definition lift {A} (r : res A) : io A := ([], r).

(** [_mc_alg_evolve]: the [try] and its [except Exception as e], which
    prints and falls off the end of the function (the call returns None).
    After a failure the content of the buffer passed in is not tracked. *)
Definition _mc_alg_evolve (fuel : nat) (nt : nat) (args : mc_args)
    (c : odeconfig) : io (option traj_result) :=
  match mc_alg_evolve_body fuel nt args c with
  | Ret r => io_ret (Some r)
  | Raise e =>
      io_bind (print (String.append "failed to run _mc_alg_evolve: " (str_exn e)))
              (fun _ => io_ret None)
  | OutOfFuel => ([], OutOfFuel)
  end.

#[global] Instance io_mret : MRet io := @io_ret.
#[global] Instance io_mbind : MBind io := fun A B f m => io_bind m f.

(** ** The heap of shared output buffers *)

Definition loc := nat.

Record heap := {
  cells : gmap loc buffer;
  next : loc;
}.

Definition heap_empty : heap := {| cells := ∅; next := 0%nat |}.

Definition alloc (h : heap) (b : buffer) : loc * heap :=
  (next h, {| cells := <[next h := b]> (cells h); next := S (next h) |}).

Definition store (h : heap) (l : loc) (b : buffer) : heap :=
  {| cells := <[l := b]> (cells h); next := next h |}.

Definition load (h : heap) (l : loc) : res buffer :=
  match cells h !! l with
  | Some b => Ret b
  | None => Raise TypeError
  end.

(** ** The orchestrator: _MC_class *)

(** [psi_out]: a 1-D array of Qobj (no collapse operators) or a 2-D object
    array with one row per trajectory. *)
Inductive psi_store :=
| Psi1D (a : list out_item)
| Psi2D (a : list (list out_item)).

(** An entry of [expect_out] when there are collapse operators: the [[]] it
    is created with, or a reference to the list a trajectory returned. *)
Inductive expect_slot :=
| EmptyList
| Ref (l : loc).

(** [expect_out]: a list of arrays (no collapse operators), or one entry per
    trajectory. *)
Inductive expect_store :=
| ExpArrays (a : list (list expv))
| ExpPerTraj (a : list expect_slot).

(** [collapse_times_out] and [which_op_out] are None or object arrays whose
    entries are the 0 of [zeros] ([None] here) or an array. *)
Record MC := {
  mc_config : odeconfig;        (* self.odeconfig, the global odeconfig *)
  count : nat;
  num_times : nat;
  mc_seeds : option (list nat);
  cpus : nat;
  psi_out : option psi_store;
  expect_out : expect_store;
  collapse_times_out : option (list (option (list Q)));
  which_op_out : option (list (option (list nat)));
}.

(** Lines 353-371 and 489-504: one preallocated array per operator, with the
    expectation value of [psi0] at index 0. *)
Fixpoint expect_arrays (ops : list nat) (num_times : nat) (psi : vec)
    : res (list (list expv)) :=
  match ops with
  | [] => Ret []
  | i :: ops' =>
      row ← setitem (replicate num_times expv_zero) 0 (e_expect i psi);
      rest ← expect_arrays ops' num_times psi;
      Ret (row :: rest)
  end.

(** [__init__]. *)
Definition MC_init (c : odeconfig) : res MC :=
  let num_times := length (tlist c) in
  let base psi ex ct wo :=
    {| mc_config := c; count := 0; num_times := num_times;
       mc_seeds := seeds (options c); cpus := num_cpus (options c);
       psi_out := psi; expect_out := ex;
       collapse_times_out := ct; which_op_out := wo |} in
  if (c_num c =? 0)%nat then
    if (e_num c =? 0)%nat then
      Ret (base (Some (Psi1D (replicate num_times QobjEmpty))) (ExpArrays [])
                None None)
    else
      a ← expect_arrays (arange (e_num c)) num_times (psi0 c);
      Ret (base None (ExpArrays a) None None)
  else
    let ct := Some (replicate (ntraj c) None) in
    let wo := Some (replicate (ntraj c) None) in
    if (e_num c =? 0)%nat then
      if steady_state_average (options c) then
        Ret (base (Some (Psi2D (replicate (ntraj c) (replicate 1 Zero))))
                  (ExpArrays []) ct wo)
      else
        Ret (base (Some (Psi2D (replicate (ntraj c) (replicate num_times Zero))))
                  (ExpArrays []) ct wo)
    else
      Ret (base None (ExpPerTraj (replicate (ntraj c) EmptyList)) ct wo).

(** The tuple a callback receives, with [results[1]] as a reference. *)
Record py_result := {
  p_nt : nat;
  p_out : loc;
  p_collapse_times : list Q;
  p_which_oper : list nat;
}.

(** [callback(results)].  [None[0]] is a TypeError.  [psi_out[r] = ...]
    copies the entries of the returned array into row [r] (both have the same
    length); [expect_out[r] = ...] stores the reference. *)
Definition callback (results : option py_result) (mc : MC) (h : heap)
    : res MC :=
  match results with
  | None => Raise TypeError
  | Some p =>
      let r := p_nt p in
      '(psi, ex) ←
        (if (e_num (mc_config mc) =? 0)%nat then
           match psi_out mc with
           | Some (Psi2D a) =>
               b ← load h (p_out p);
               match b with
               | BufStates row => a' ← setitem a r row; Ret (Some (Psi2D a'), expect_out mc)
               | BufExpect _ => Raise ValueError
               end
           | _ => Raise TypeError
           end
         else
           match expect_out mc with
           | ExpPerTraj a =>
               a' ← setitem a r (Ref (p_out p)); Ret (psi_out mc, ExpPerTraj a')
           | ExpArrays _ => Raise TypeError
           end);
      ct ← match collapse_times_out mc with
           | Some a => a' ← setitem a r (Some (p_collapse_times p)); Ret (Some a')
           | None => Raise TypeError
           end;
      wo ← match which_op_out mc with
           | Some a => a' ← setitem a r (Some (p_which_oper p)); Ret (Some a')
           | None => Raise TypeError
           end;
      Ret {| mc_config := mc_config mc; count := count mc + 1;
             num_times := num_times mc; mc_seeds := mc_seeds mc;
             cpus := cpus mc; psi_out := psi; expect_out := ex;
             collapse_times_out := ct; which_op_out := wo |}
  end.

(** [_no_collapse_psi_out]: one deterministic integration, no random
    numbers. *)
Fixpoint no_collapse_psi_loop (c : odeconfig) (ks : list nat) (od : ode)
    (psi_out : list out_item) : res (list out_item) :=
  match ks with
  | [] => Ret psi_out
  | k :: ks' =>
      tk ← getitem (tlist c) k;
      let od := integrate od tk false in
      if successful od then
        a ← setitem psi_out k (QobjKet (vdiv (ode_y od) (dznrm2 (ode_y od))));
        no_collapse_psi_loop c ks' od a
      else Raise ValueError
  end.

Definition _no_collapse_psi_out (num_times : nat) (psi_out : list out_item)
    (c : odeconfig) : res (list out_item) :=
  let od := ode_create (tflag c) in
  t0 ← getitem (tlist c) 0;
  let od := set_initial_value od (psi0 c) t0 in
  a ← setitem psi_out 0 (QobjKet (psi0 c));
  no_collapse_psi_loop c (seq 1 (num_times - 1)) od a.

(** [_no_collapse_expect_out]. *)
Fixpoint no_collapse_expect_loop (c : odeconfig) (ks : list nat) (od : ode)
    (expect_out : list (list expv)) : res (list (list expv)) :=
  match ks with
  | [] => Ret expect_out
  | k :: ks' =>
      tk ← getitem (tlist c) k;
      let od := integrate od tk false in
      if successful od then
        let state := vdiv (ode_y od) (dznrm2 (ode_y od)) in
        a ← write_expect (arange (e_num c)) expect_out k state;
        no_collapse_expect_loop c ks' od a
      else Raise ValueError
  end.

Definition _no_collapse_expect_out (num_times : nat)
    (expect_out : list (list expv)) (c : odeconfig)
    : res (list (list expv)) :=
  let od := ode_create (tflag c) in
  t0 ← getitem (tlist c) 0;
  let od := set_initial_value od (psi0 c) t0 in
  a ← write_expect (arange (e_num c)) expect_out 0 (psi0 c);
  no_collapse_expect_loop c (seq 1 (num_times - 1)) od a.

Definition set_results (psi : option psi_store) (ex : expect_store) (mc : MC)
    : MC :=
  {| mc_config := mc_config mc; count := count mc;
     num_times := num_times mc; mc_seeds := mc_seeds mc; cpus := cpus mc;
     psi_out := psi; expect_out := ex;
     collapse_times_out := collapse_times_out mc;
     which_op_out := which_op_out mc |}.

Definition set_config (c : odeconfig) (mc : MC) : MC :=
  {| mc_config := c; count := count mc;
     num_times := num_times mc; mc_seeds := mc_seeds mc; cpus := cpus mc;
     psi_out := psi_out mc; expect_out := expect_out mc;
     collapse_times_out := collapse_times_out mc;
     which_op_out := which_op_out mc |}.

Definition set_seeds (s : option (list nat)) (mc : MC) : MC :=
  {| mc_config := mc_config mc; count := count mc;
     num_times := num_times mc; mc_seeds := s; cpus := cpus mc;
     psi_out := psi_out mc; expect_out := expect_out mc;
     collapse_times_out := collapse_times_out mc;
     which_op_out := which_op_out mc |}.

(** The arguments of a run, with [mc_alg_out] as a reference into the
    heap. *)
Record run_args := {
  ra_out : loc;
  ra_tlist : list Q;
  ra_num_times : nat;
  ra_seeds : list nat;
}.

Definition args_with (ra : run_args) (b : buffer) : mc_args :=
  {| a_out := b; a_tlist := ra_tlist ra; a_num_times := ra_num_times ra;
     a_seeds := ra_seeds ra |}.

(** [serial]: every call receives the same tuple [args], hence the same
    object [mc_alg_out]; what a call writes into it stays there for the next
    one, and a result that is this object is stored as a reference to it. *)
Fixpoint serial_loop (fuel : nat) (nts : list nat) (ra : run_args)
    (mc : MC) (h : heap) : io (MC * heap) :=
  match nts with
  | [] => mret (mc, h)
  | nt :: nts' =>
      b ← lift (load h (ra_out ra));
      r ← _mc_alg_evolve fuel nt (args_with ra b) (mc_config mc);
      match r with
      | None => lift (callback None mc h)
                ≫= fun mc => serial_loop fuel nts' ra mc h
      | Some r =>
          let h := store h (ra_out ra) (r_shared r) in
          let '(l, h) := match r_out r with
                         | SameObject => (ra_out ra, h)
                         | Fresh b' => alloc h b'
                         end in
          mc ← lift (callback (Some {| p_nt := r_nt r; p_out := l;
                                       p_collapse_times := r_collapse_times r;
                                       p_which_oper := r_which_oper r |}) mc h);
          serial_loop fuel nts' ra mc h
      end
  end.

Definition serial (fuel : nat) (ra : run_args) (mc : MC) (h : heap)
    : io (MC * heap) :=
  serial_loop fuel (arange (ntraj (mc_config mc))) ra mc h.

(** The process pool: [apply_async] pickles [args] for every task, so each
    task works on a copy of [mc_alg_out] as it was when the tasks were
    submitted, and its result comes back as a new object.  The callbacks run
    one at a time in the order [sched] in which the tasks complete.  An
    exception of a callback is modelled as ending the collection. *)
Fixpoint pool_loop (fuel : nat) (sched : list nat) (ra : run_args)
    (b0 : buffer) (mc : MC) (h : heap) : io (MC * heap) :=
  match sched with
  | [] => mret (mc, h)
  | nt :: sched' =>
      r ← _mc_alg_evolve fuel nt (args_with ra b0) (mc_config mc);
      match r with
      | None => lift (callback None mc h)
                ≫= fun mc => pool_loop fuel sched' ra b0 mc h
      | Some r =>
          let '(l, h) := alloc h match r_out r with
                                 | SameObject => r_shared r
                                 | Fresh b' => b'
                                 end in
          mc ← lift (callback (Some {| p_nt := r_nt r; p_out := l;
                                       p_collapse_times := r_collapse_times r;
                                       p_which_oper := r_which_oper r |}) mc h);
          pool_loop fuel sched' ra b0 mc h
      end
  end.

(** [parallel]. *)
Definition parallel (fuel : nat) (sched : list nat) (ra : run_args)
    (mc : MC) (h : heap) : io (MC * heap) :=
  if (cpus mc =? 1)%nat || (ntraj (mc_config mc) =? 1)%nat then
    serial fuel ra mc h
  else
    b0 ← lift (load h (ra_out ra));
    pool_loop fuel sched ra b0 mc h.

(** Lines 466-504: the buffer [mc_alg_out] that [run] allocates. *)
Definition initial_buffer (c : odeconfig) (num_times : nat) : res buffer :=
  let o := options c in
  if (e_num c =? 0)%nat then
    let a := if steady_state_average o then replicate 1 Zero
             else replicate num_times Zero in
    a ← (if average_states o && negb (steady_state_average o)
         then setitem a 0 (QobjDm (outer (psi0 c)))
         else if negb (average_states o) && negb (steady_state_average o)
         then setitem a 0 (QobjKet (psi0 c))
         else if steady_state_average o
         then setitem a 0 (Csr (outer (psi0 c)))
         else Ret a);
    Ret (BufStates a)
  else
    a ← expect_arrays (arange (e_num c)) num_times (psi0 c);
    Ret (BufExpect a).

(** The lines [print] writes for
    ['No collapse operators specified.\n' + 'Running a single trajectory only.\n']. *)
Definition no_collapse_notice : list string :=
  ["No collapse operators specified.";
   "Running a single trajectory only."; ""].

(** [run]. *)
Definition run (fuel : nat) (sched : list nat) (mc : MC) (h : heap)
    : io (MC * heap) :=
  if (c_num (mc_config mc) =? 0)%nat then
    mc ← (if negb (ntraj (mc_config mc) =? 1)%nat
          then ((no_collapse_notice,
                 Ret (set_config (set_ntraj 1 (mc_config mc)) mc)) : io MC)
          else mret mc);
    if (e_num (mc_config mc) =? 0)%nat then
      match psi_out mc with
      | Some (Psi1D a) =>
          a' ← lift (_no_collapse_psi_out (num_times mc) a (mc_config mc));
          mret (set_results (Some (Psi1D a')) (expect_out mc) mc, h)
      | _ => lift (Raise TypeError)
      end
    else
      match expect_out mc with
      | ExpArrays a =>
          a' ← lift (_no_collapse_expect_out (num_times mc) a (mc_config mc));
          mret (set_results (psi_out mc) (ExpArrays a') mc, h)
      | ExpPerTraj _ => lift (Raise TypeError)
      end
  else
    let sds := match mc_seeds mc with
               | None => random_integers (ntraj (mc_config mc))
               | Some s => s
               end in
    let mc := set_seeds (Some sds) mc in
    b ← lift (initial_buffer (mc_config mc) (num_times mc));
    let '(l, h) := alloc h b in
    let ra := {| ra_out := l; ra_tlist := tlist (mc_config mc);
                 ra_num_times := num_times mc; ra_seeds := sds |} in
    parallel fuel sched ra mc h.

(** ** mcsolve: the result assembly *)

(** The argument [ntraj]: an int or a list of ints. *)
Inductive ntraj_arg :=
| NInt (n : nat)
| NList (l : list nat).

Inductive states_t :=
| StatesAvg (l : list out_item)        (* parfor(_mc_dm_avg, psi_out.T) *)
| StatesRaw (p : psi_store).           (* mc.psi_out *)

(** An entry of [expect_out] as the caller reads it. *)
Inductive expect_entry :=
| EntEmpty
| EntBuf (b : buffer).

Inductive expect_elem :=
| ElRow (r : list expv)
| ElRows (r : list (list expv))
| ElEntry (e : expect_entry).

Inductive expect_t :=
| ExpectUnset
| ExpectAvg (a : list (list expv))             (* [op][time] *)
| ExpectAvgList (a : list (list (list expv)))  (* [num][op][time] *)
| ExpectArrays (a : list (list expv))          (* expect_out, no collapse *)
| ExpectPerTraj (a : list expect_entry)        (* expect_out, per trajectory *)
| ExpectDict (d : list (string * expect_elem)).

Record Odedata := {
  states : option states_t;
  expect : expect_t;
  times : list Q;
  num_expect : nat;
  num_collapse : nat;
  out_ntraj : nat;
  col_times : option (list (option (list Q)));
  col_which : option (list (option (list nat)));
}.

(** [psi.data] for an entry of [psi_out] (rows of averaged runs hold
    density matrices). *)
Definition item_data (x : out_item) : res mat :=
  match x with
  | QobjDm m => Ret m
  | QobjKet v => Ret (ket_data v)
  | QobjRow _ | QobjEmpty => Raise TypeError
  | Zero | Csr _ => Raise AttributeError
  end.

(** numpy's [mean] of a list of matrices: their sum over their number. *)
Definition mat_mean (l : list mat) : res mat :=
  match l with
  | [] => Raise IndexError
  | m :: l' =>
      Ret (mat_div (fold_left mat_add l' m) (inject_Z (Z.of_nat (length l))))
  end.

(** [_mc_dm_avg]. *)
Definition _mc_dm_avg (psi_list : list out_item) : res out_item :=
  datas ← mapM item_data psi_list;
  m ← mat_mean datas;
  Ret (QobjDm m).

(** [parfor(_mc_dm_avg, mc.psi_out.T)]: one call per column of [psi_out]. *)
Definition dm_avg_all (p : psi_store) : res (list out_item) :=
  match p with
  | Psi2D a =>
      mapM (fun t => col ← mapM (fun row => getitem row t) a; _mc_dm_avg col)
           (arange (length (hd [] a)))
  | Psi1D _ => Raise TypeError
  end.

(** [mean(rows, axis=0)] for a list of equally long arrays. *)
Definition mean_axis0 (rows : list (list expv)) : list expv :=
  map (fun t => expv_mean (omap (fun r : list expv => r !! t) rows))
      (arange (length (hd [] rows))).

(** [mc.expect_out[nt]] as a list of arrays. *)
Definition traj_rows (h : heap) (ex : expect_store) (nt : nat)
    : res (list (list expv)) :=
  match ex with
  | ExpPerTraj a =>
      s ← getitem a nt;
      match s with
      | EmptyList => Ret []
      | Ref l =>
          b ← load h l;
          match b with
          | BufExpect rows => Ret rows
          | BufStates _ => Raise TypeError
          end
      end
  | ExpArrays _ => Raise TypeError
  end.

(** Lines 271-273. *)
Definition expect_avg_int (h : heap) (mc : MC) (n : nat)
    : res (list (list expv)) :=
  mapM (fun op =>
          rows ← mapM (fun nt => r ← traj_rows h (expect_out mc) nt;
                                 getitem r op) (arange n);
          Ret (mean_axis0 rows))
       (arange (e_num (mc_config mc))).

(** Lines 275-287. *)
Definition expect_avg_list (h : heap) (mc : MC) (nums : list nat)
    : res (list (list (list expv))) :=
  let c := mc_config mc in
  mapM (fun num =>
          trajs ← mapM (traj_rows h (expect_out mc))
                       (take num (arange (length match expect_out mc with
                                                 | ExpPerTraj a => a
                                                 | ExpArrays _ => []
                                                 end)));
          expt_data ← mapM (fun op => rows ← mapM (fun r => getitem r op) trajs;
                                      Ret (mean_axis0 rows))
                           (arange (length (hd [] trajs)));
          if existsb negb (e_ops_isherm c) then
            mapM (fun k => row ← getitem expt_data k;
                           isherm ← getitem (e_ops_isherm c) k;
                           Ret (if isherm : bool then map expv_real row else row))
                 (arange (length (e_ops_isherm c)))
          else Ret expt_data)
       nums.

Definition read_slot (h : heap) (s : expect_slot) : expect_entry :=
  match s with
  | EmptyList => EntEmpty
  | Ref l => match cells h !! l with
             | Some b => EntBuf b
             | None => EntEmpty
             end
  end.

(** [mc.expect_out] as the caller reads it. *)
Definition read_expect (h : heap) (ex : expect_store) : expect_t :=
  match ex with
  | ExpArrays a => ExpectArrays a
  | ExpPerTraj a => ExpectPerTraj (map (read_slot h) a)
  end.

(** [output.expect[n]]. *)
Definition expect_nth (e : expect_t) (n : nat) : res expect_elem :=
  match e with
  | ExpectUnset => Raise IndexError
  | ExpectAvg a | ExpectArrays a => r ← getitem a n; Ret (ElRow r)
  | ExpectAvgList a => r ← getitem a n; Ret (ElRows r)
  | ExpectPerTraj a => r ← getitem a n; Ret (ElEntry r)
  | ExpectDict _ => Raise TypeError
  end.

(** [ntraj != 1] for the argument. *)
Definition ntraj_is_1 (n : ntraj_arg) : bool :=
  match n with
  | NInt n => (n =? 1)%nat
  | NList _ => false
  end.

(** Lines 258-292: the branch that fills [output.states] or
    [output.expect]. *)
Definition collect (ntraj_in : ntraj_arg) (mc : MC) (h : heap)
    : res (option states_t * expect_t) :=
  let c := mc_config mc in
  match psi_out mc with
  | Some p =>
      if average_states (options c) && cflag c && negb (ntraj_is_1 ntraj_in)
      then l ← dm_avg_all p; Ret (Some (StatesAvg l), ExpectUnset)
      else Ret (Some (StatesRaw p), ExpectUnset)
  | None =>
      if cflag c && average_expect (options c) then
        match ntraj_in with
        | NInt n => a ← expect_avg_int h mc n; Ret (None, ExpectAvg a)
        | NList l => a ← expect_avg_list h mc l; Ret (None, ExpectAvgList a)
        end
      else
        (* no averaging for single trajectory or if average_states flag
           (Odeoptions) is off *)
        Ret (None, read_expect h (expect_out mc))
  end.

(** Lines 302-304: [{e: output.expect[n] for n, e in enumerate(keys)}]. *)
Definition rekey (e_ops_dict : option (list string)) (ex : expect_t)
    : res expect_t :=
  match e_ops_dict with
  | None | Some [] => Ret ex
  | Some keys =>
      d ← mapM (fun '(n, e) => x ← expect_nth ex n; Ret (e, x))
               (imap (fun n e => (n, e)) keys);
      Ret (ExpectDict d)
  end.

(** Lines 154-155 and 194-197: the local [ntraj] and [odeconfig.ntraj]
    ([max] of an empty list is a ValueError). *)
Definition local_ntraj (ntraj_in : option ntraj_arg) (opts : Odeoptions)
    : ntraj_arg :=
  match ntraj_in with
  | None => NInt (opt_ntraj opts)
  | Some n => n
  end.

Definition config_ntraj (n : ntraj_arg) : res nat :=
  match n with
  | NInt n => Ret n
  | NList [] => Raise ValueError
  | NList l => Ret (max_list l)
  end.

(** Lines 178-180 and 190-191: the defaults written into the options. *)
Definition effective_options (opts : Odeoptions) : Odeoptions :=
  let opts := if (num_cpus opts =? 0)%nat
              then set_num_cpus settings_num_cpus opts else opts in
  if steady_state_average opts then set_average_states true opts else opts.

(** Lines 172-200: the fields [mcsolve] writes into [odeconfig].  [c0]
    carries what [_ode_checks] and [_mc_data_config] compute from [H],
    [c_ops] and [e_ops] (tflag, cflag, c_num, e_num, the index partition),
    together with [psi0] and [tlist]. *)
Definition configure (c0 : odeconfig) (opts : Odeoptions) (n : nat)
    : odeconfig :=
  let opts := effective_options opts in
  {| options := opts; tflag := tflag c0; cflag := cflag c0;
     c_num := c_num c0; e_num := e_num c0;
     e_ops_isherm := e_ops_isherm c0;
     c_const_inds := c_const_inds c0; c_td_inds := c_td_inds c0;
     norm_tol := opt_norm_tol opts; norm_steps := opt_norm_steps opts;
     psi0 := psi0 c0; tlist := tlist c0; ntraj := n |}.

(** Lines 294-300: the Odedata object. *)
Definition make_output (st : option states_t) (ex : expect_t) (mc : MC)
    : Odedata :=
  {| states := st; expect := ex;
     times := tlist (mc_config mc);
     num_expect := e_num (mc_config mc);
     num_collapse := c_num (mc_config mc);
     out_ntraj := ntraj (mc_config mc);
     col_times := collapse_times_out mc;
     col_which := which_op_out mc |}.

(** [mcsolve], from the point where the problem has been classified;
    [e_ops_dict] is the list of keys when [e_ops] is a dict. *)
Definition mcsolve (fuel : nat) (sched : list nat) (c0 : odeconfig)
    (ntraj_in : option ntraj_arg) (opts : Odeoptions)
    (e_ops_dict : option (list string)) : io Odedata :=
  let ntraj_in := local_ntraj ntraj_in opts in
  n ← lift (config_ntraj ntraj_in);
  mc ← lift (MC_init (configure c0 opts n));
  '(mc, h) ← run fuel sched mc heap_empty;
  '(st, ex) ← lift (collect ntraj_in mc h);
  ex ← lift (rekey e_ops_dict ex);
  mret (make_output st ex mc).

(** [results[1]] of a returned tuple, as a value. *)
Definition result_buffer (r : traj_result) : buffer :=
  match r_out r with
  | SameObject => r_shared r
  | Fresh b => b
  end.

Definition is_states (b : buffer) : bool :=
  match b with
  | BufStates _ => true
  | BufExpect _ => false
  end.

(** The entries of an object array of states. *)
Definition states_of (b : buffer) : list out_item :=
  match b with
  | BufStates a => a
  | BufExpect _ => []
  end.

End Solver.

(** ** A two-level test double for the external collaborators

    States are real vectors [(a, b)] (amplitudes of the ground and of the
    excited level).  The integrator damps the excited amplitude by
    [1 / (1 + dt)] over a time [dt]; a single internal step advances by
    [tp_step] and may pass the target; beyond [tp_limit] it reports failure.
    [dznrm2] is the taxicab norm, which is the Euclidean norm on the
    basis-aligned states the examples visit; [np_log] is the first term
    [2 (x - 1) / (x + 1)] of the logarithm's series.  A division by zero
    yields 0 here, where numpy yields nan: a state [(0, 0)] that follows a
    collapse onto the zero vector stands for the nan vector of the
    source. *)
Module Toy.

Record params := {
  tp_step : Q;
  tp_limit : option Q;
  tp_draws : nat -> nat -> Q * Q;     (* seed, call number: rand(2) *)
  tp_ops : nat -> Q * Q -> Q * Q;     (* the collapse operators *)
  tp_coef : nat -> Q -> Q;            (* their coefficient functions *)
}.

Record ode_state := {
  ot : Q;
  oy : Q * Q;
  ok : bool;
}.

Definition damp (y : Q * Q) (dt : Q) : Q * Q :=
  (fst y, Qred (snd y / (1 + dt))).

Definition advance (p : params) (od : ode_state) (t : Q) (step : bool)
    : ode_state :=
  let t' := if step then ot od + tp_step p else t in
  {| ot := t'; oy := damp (oy od) (t' - ot od);
     ok := match tp_limit p with
           | Some lim => Qle_bool t' lim
           | None => true
           end |}.

Definition sqnorm (y : Q * Q) : Q := fst y * fst y + snd y * snd y.

Definition ext (p : params) : Externals := {|
  vec := Q * Q;
  mat := list Q;
  cplx := Q;
  expv := Q;
  dznrm2 := fun y => Qabs (fst y) + Qabs (snd y);
  np_log := fun x => 2 * (x - 1) / (x + 1);
  vdiv := fun y q => (Qred (fst y / q), Qred (snd y / q));
  vscale := fun z y => (z * fst y, z * snd y);
  cabs := Qabs;
  outer := fun y => map Qred [fst y * fst y; fst y * snd y; snd y * fst y; snd y * snd y];
  ket_data := fun y => [fst y; snd y];
  mat_add := zip_with (fun x y => Qred (x + y));
  mat_div := fun m q => map (fun x => Qred (x / q)) m;
  c_spmv := tp_ops p;
  n_expect := fun i y => sqnorm (tp_ops p i y);
  c_funcs := tp_coef p;
  cy_col_expect := fun i t y => Qabs (tp_coef p i t) ^ 2 * sqnorm (tp_ops p i y);
  cy_col_spmv := fun j t y =>
    (tp_coef p j t * fst (tp_ops p j y), tp_coef p j t * snd (tp_ops p j y));
  e_expect := fun jj y =>
    match jj with
    | O => Qred (snd y * snd y)
    | S _ => Qred (fst y * fst y)
    end;
  expv_zero := 0;
  expv_mean := fun l => Qred (Qsum l / inject_Z (Z.of_nat (length l)));
  expv_real := fun x => x;
  expv_div := fun x q => Qred (x / q);
  ode := ode_state;
  ode_create := fun _ => {| ot := 0; oy := (0, 0); ok := true |};
  ode_t := ot;
  ode_y := oy;
  set_initial_value := fun _ y t => {| ot := t; oy := y; ok := true |};
  integrate := advance p;
  successful := ok;
  prng := nat * nat;
  RandomState := fun seed => (seed, O);
  rand2 := fun g => (tp_draws p (fst g) (snd g), (fst g, S (snd g)));
  random_integers := fun n => seq 1 n;
  settings_num_cpus := 2;
|}.

(** The lowering operator [|0><1|] on channel 0 and the projector on the
    excited level on channel 1. *)
Definition decay_ops (j : nat) (y : Q * Q) : Q * Q :=
  match j with
  | O => (snd y, 0)
  | S _ => (0, snd y)
  end.

(** The raising operator [|1><0|] on channel 0 and the lowering operator
    on channel 1. *)
Definition pump_ops (j : nat) (y : Q * Q) : Q * Q :=
  match j with
  | O => (0, fst y)
  | S _ => (snd y, 0)
  end.

End Toy.

(** ** The contract of the externals behind the post-jump state

    [array / float] scales the norm, and [set_initial_value] installs the
    state and the time it is given. *)
Class NormLaws (E : Externals) : Prop := {
  dznrm2_vdiv : forall v q, 0 < q -> dznrm2 (vdiv v q) == dznrm2 v / q;
  dznrm2_nonneg : forall v, 0 <= dznrm2 v;
  ode_y_set : forall od y t, ode_y (set_initial_value od y t) = y;
  ode_t_set : forall od y t, ode_t (set_initial_value od y t) = t;
}.

(** ** The selection rule in the words of the specification

    The weight of channel [k] is the expectation value of its rate operator,
    times [|coefficient_k(t)|^2] for a time-dependent channel; the selected
    channel is the lowest index whose cumulative normalized weight reaches
    [r2]. *)
Section SpecSelection.
Context {E : Externals}.

Definition spec_weight (c : odeconfig) (t : Q) (y : vec) (k : nat) : Q :=
  if int_in k (c_td_inds c) then cabs (c_funcs k t) ^ 2 * n_expect k y
  else n_expect k y.

Definition spec_select (c : odeconfig) (t : Q) (y : vec) (r2 : Q)
    : option nat :=
  let w := map (spec_weight c t y) (arange (c_num c)) in
  List.find (fun k => match cum_probs w !! k with
                      | Some p => Qle_bool r2 p
                      | None => false
                      end)
            (arange (c_num c)).

(** The unweighted mean of all per-trajectory, per-time density matrices:
    their sum over (number of trajectories x number of output times). *)
Definition spec_steady_state (rhos : list (list mat)) : res mat :=
  mat_mean (concat rhos).

(** The density matrix of an entry of [psi_out]. *)
Definition item_rho (x : out_item) : option mat :=
  match x with
  | QobjKet v => Some (outer v)
  | QobjDm m => Some m
  | _ => None
  end.

End SpecSelection.

(** ** Concrete runs on the two-level test double *)
Module Examples.

(** Trajectory [seed] draws [r1 = 1 / (seed + 2)] and [r2 = 1/2]. *)
Definition draws (seed call : nat) : Q * Q :=
  (1 # Pos.of_nat (seed + 2), 1 # 2).

(** Spontaneous decay, integrated in steps of 1. *)
Definition decay : Toy.params :=
  {| Toy.tp_step := 1; Toy.tp_limit := None; Toy.tp_draws := draws;
     Toy.tp_ops := Toy.decay_ops; Toy.tp_coef := fun _ _ => 1 |}.

(** The same system with an integrator that fails beyond t = 1. *)
Definition stiff : Toy.params :=
  {| Toy.tp_step := 1; Toy.tp_limit := Some 1; Toy.tp_draws := draws;
     Toy.tp_ops := Toy.decay_ops; Toy.tp_coef := fun _ _ => 1 |}.

(** A pump (channel 0, with a coefficient function) and the decay
    (channel 1, constant). *)
Definition pumped : Toy.params :=
  {| Toy.tp_step := 1; Toy.tp_limit := None; Toy.tp_draws := draws;
     Toy.tp_ops := Toy.pump_ops; Toy.tp_coef := fun _ _ => 1 |}.

(** The pumped system with [r2 = 0] drawn. *)
Definition pumped0 : Toy.params :=
  {| Toy.tp_step := 1; Toy.tp_limit := None;
     Toy.tp_draws := fun seed _ => (1 # Pos.of_nat (seed + 2), 0);
     Toy.tp_ops := Toy.pump_ops; Toy.tp_coef := fun _ _ => 1 |}.

Definition opts (cpus : nat) (avg_states avg_expect steady : bool)
    (tol : Q) (steps : nat) : Odeoptions :=
  {| average_states := avg_states; average_expect := avg_expect;
     steady_state_average := steady; num_cpus := cpus;
     seeds := Some [0; 3]%nat; opt_ntraj := 2;
     opt_norm_tol := tol; opt_norm_steps := steps |}.

(** What the configuration step leaves in [odeconfig] for a problem with
    [c_num] collapse operators, of which those at the positions [td] carry a
    coefficient function, and [e_num] operators; the excited level as the
    initial state. *)
Definition problem (p : Toy.params) (tflag c_num : nat) (td : list nat)
    (e_num : nat) (tlist : list Q) : @odeconfig (Toy.ext p) :=
  @Build_odeconfig (Toy.ext p)
    (opts 0 false false false 0 0) tflag (negb (c_num =? 0)%nat) c_num e_num
    (replicate e_num true)
    (c_partition c_num td).1 (c_partition c_num td).2
    0 0 (0, 1) tlist 0.

(** A problem without collapse operators that starts in the state
    [(1/2, 1/2)], on which the damping of the integrator is visible after
    the renormalisation. *)
Definition superposed (p : Toy.params) (e_num : nat) (tlist : list Q)
    : @odeconfig (Toy.ext p) :=
  @Build_odeconfig (Toy.ext p)
    (opts 0 false false false 0 0) 0 false 0 e_num
    (replicate e_num true) [] []
    0 0 (1 # 2, 1 # 2) tlist 0.

(** The state of the decaying system one step after the start. *)
Definition after_one_step : Toy.ode_state :=
  {| Toy.ot := 1; Toy.oy := (0, 1 # 2); Toy.ok := true |}.

(** The variables of a trajectory that reaches a jump in that state with
    the random numbers [(r1, r2)]. *)
Definition at_jump (p : Toy.params) (r1 r2 : Q) : @traj (Toy.ext p) :=
  @Build_traj (Toy.ext p) after_one_step (r1, r2) (O, 1%nat) [] []
    (@BufStates (Toy.ext p) []) [].

(** Trajectory [nt] of a run, on a buffer of its own. *)
Definition trajectory (p : Toy.params) (c : @odeconfig (Toy.ext p))
    (fuel nt : nat) : res (@traj_result (Toy.ext p)) :=
  b ← initial_buffer c (length (tlist c));
  mc_alg_evolve_body fuel nt
    {| a_out := b; a_tlist := tlist c; a_num_times := length (tlist c);
       a_seeds := default [] (seeds (options c)) |} c.

Definition times4 : list Q := [0; 1; 2; 3].

(** States, buffers and entries over the test double. *)
Definition state (p : Toy.params) (a b : Q) : @vec (Toy.ext p) := (a, b).

Definition rows (p : Toy.params) (a : list (list Q)) : @buffer (Toy.ext p) :=
  @BufExpect (Toy.ext p) a.

Definition ket (p : Toy.params) (a b : Q) : @out_item (Toy.ext p) :=
  @QobjKet (Toy.ext p) (a, b).

Definition dm (p : Toy.params) (m : list Q) : @out_item (Toy.ext p) :=
  @QobjDm (Toy.ext p) m.

End Examples.

(** ** The contract of the integrator behind the output times

    A successful [integrate(t, step=0)] stands at the time [t] it was asked
    for. *)
Class OdeLaws (E : Externals) : Prop := {
  integrate_exact : forall od t,
    successful (integrate od t false) = true ->
    ode_t (integrate od t false) == t;
}.

(** * Properties *)

Lemma Qlt_bool_iff a b : Qlt_bool a b = true <-> a < b.
Proof.
  unfold Qlt_bool. rewrite negb_true_iff. split.
  - intros H. apply Qnot_le_lt. intros Hle.
    apply Qle_bool_iff in Hle. congruence.
  - intros H. destruct (Qle_bool b a) eqn:E; [|reflexivity].
    apply Qle_bool_iff in E. exfalso. exact (Qlt_not_le _ _ H E).
Qed.

Lemma bind_Ret {A B} (m : res A) (f : A -> res B) (b : B) :
  m ≫= f = Ret b -> exists a, m = Ret a /\ f a = Ret b.
Proof. destruct m as [a| |]; simpl; [eauto | discriminate..]. Qed.

Lemma setitem_Ret {A} (a : list A) k v a' :
  setitem a k v = Ret a' -> (k < length a)%nat /\ a' = <[k := v]> a.
Proof.
  unfold setitem. destruct (Nat.ltb_spec k (length a)); [|discriminate].
  intros [= <-]. auto.
Qed.

Lemma getitem_Ret {A} (a : list A) k x :
  getitem a k = Ret x -> a !! k = Some x.
Proof. unfold getitem. destruct (a !! k); congruence. Qed.

(** Splits a hypothesis [m ≫= f = Ret b]. *)
Ltac inv_bind H :=
  let a := fresh "a" in
  let Ha := fresh "Ha" in
  apply bind_Ret in H; destruct H as (a & Ha & H).

(** Case analysis on the first test of the goal. *)
Ltac case_if :=
  match goal with
  | |- context [if ?b then _ else _] => destruct b eqn:?
  | H : context [if ?b then _ else _] |- _ => destruct b eqn:?
  end.

Section EngineFacts.
Context {E : Externals}.

(** ** The jump search *)

(** The counter never passes the cap. *)
Lemma jump_search_counter fuel c r1 ii od b ii' od' b' :
  jump_search fuel c r1 ii od b = Ret (ii', od', b') ->
  (ii' <= Nat.max ii (norm_steps c))%nat.
Proof.
  revert ii od b. induction fuel as [|fuel IH]; intros ii od b; simpl.
  - destruct (Nat.ltb_spec ii (norm_steps c)); [discriminate|].
    intros [= <- _ _]. lia.
  - destruct (Nat.ltb_spec ii (norm_steps c)) as [Hlt|Hge].
    + repeat case_if; try discriminate.
      * intros [= <- _ _]. lia.
      * intros H; apply IH in H; lia.
      * intros H; apply IH in H; lia.
    + intros [= <- _ _]. lia.
Qed.

(** [norm_steps] units of fuel are enough for the search. *)
Lemma jump_search_total fuel c r1 ii od b :
  (norm_steps c <= fuel + ii)%nat ->
  jump_search fuel c r1 ii od b <> OutOfFuel.
Proof.
  revert ii od b. induction fuel as [|fuel IH]; intros ii od b Hf; simpl.
  - destruct (Nat.ltb_spec ii (norm_steps c)); [lia | discriminate].
  - destruct (Nat.ltb_spec ii (norm_steps c)); [|discriminate].
    repeat case_if; try discriminate; apply IH; lia.
Qed.

(** The search raises nothing but the integrator's failure. *)
Lemma jump_search_raises fuel c r1 ii od b e :
  jump_search fuel c r1 ii od b = Raise e -> e = ZvodeFailedAdjust.
Proof.
  revert ii od b. induction fuel as [|fuel IH]; intros ii od b; simpl.
  - case_if; discriminate.
  - repeat case_if; try discriminate; try apply IH. congruence.
Qed.

(** Whatever the integrator does, the search never signals that the
    tolerance was not reached. *)
Lemma find_jump_no_tolerance_error c r1 od tp yp n2p n2psi :
  find_jump c r1 od tp yp n2p n2psi <> Raise NormToleranceNotReached.
Proof.
  unfold find_jump.
  destruct (jump_search _ _ _ _ _ _) as [[[ii od'] b']|e|] eqn:Hs; simpl.
  - apply jump_search_counter in Hs.
    destruct (Nat.ltb_spec (norm_steps c) ii); [lia | discriminate].
  - apply jump_search_raises in Hs. subst e. discriminate.
  - discriminate.
Qed.

(** ** The collapse log *)

Lemma same_logs_refl s : same_logs s s.
Proof. split; reflexivity. Qed.

Lemma same_logs_trans s1 s2 s3 :
  same_logs s1 s2 -> same_logs s2 s3 -> same_logs s1 s3.
Proof. intros [? ?] [? ?]. split; congruence. Qed.

Lemma do_collapse_logs c od s s' :
  do_collapse c od s = Ret s' -> same_logs s s'.
Proof.
  unfold do_collapse. cbv zeta. intros H. inv_bind H.
  destruct (rand2 (rng s)) as [rv g]. injection H as <-.
  split; reflexivity.
Qed.

Lemma mc_step_logs c tk s s' :
  mc_step c tk s = Ret s' -> same_logs s s'.
Proof.
  unfold mc_step. cbv zeta. case_if; [discriminate|].
  intros H. inv_bind H. case_if.
  - inv_bind H. destruct a0 as [od' b']. eapply do_collapse_logs, H.
  - injection H as <-. split; reflexivity.
Qed.

Lemma mc_while_logs fuel c tk s s' :
  mc_while fuel c tk s = Ret s' -> same_logs s s'.
Proof.
  revert s. induction fuel as [|fuel IH]; intros s; simpl.
  - case_if; [discriminate|]. intros [= <-]. apply same_logs_refl.
  - case_if.
    + intros H. inv_bind H. apply mc_step_logs in Ha.
      eapply same_logs_trans; eauto.
    + intros [= <-]. apply same_logs_refl.
Qed.

Lemma mc_output_logs c k s s' :
  mc_output c k s = Ret s' -> same_logs s s'.
Proof.
  unfold mc_output. cbv zeta. intros H.
  repeat case_if; destruct (mc_alg_out s); try discriminate;
    repeat inv_bind H; injection H as <-; split; reflexivity.
Qed.

Lemma mc_for_logs fuel c tl ks s s' :
  mc_for fuel c tl ks s = Ret s' -> same_logs s s'.
Proof.
  revert s. induction ks as [|k ks IH]; intros s; simpl.
  - intros [= <-]. apply same_logs_refl.
  - intros H. do 3 inv_bind H.
    apply mc_while_logs in Ha0. apply mc_output_logs in Ha1. apply IH in H.
    eauto using same_logs_trans.
Qed.

(** C3: whatever jumps a trajectory makes, the collapse-time log and the
    channel log it returns are empty: [np.append] returns a new array that
    the engine drops, so nothing is ever recorded. *)
Theorem returned_collapse_logs_empty fuel nt args c r :
  mc_alg_evolve_body fuel nt args c = Ret r ->
  r_collapse_times r = [] /\ r_which_oper r = [].
Proof.
  unfold mc_alg_evolve_body. cbv zeta. intros H. inv_bind H.
  destruct (rand2 _) as [rv g]. do 3 inv_bind H.
  injection H as <-. simpl. apply mc_for_logs in Ha1. exact Ha1.
Qed.

(** ** One iteration of the jump search *)

(** C5: an iteration that starts below the cap interpolates the guess
    log-linearly between the bracket endpoints, integrates exactly (step=0)
    from the lower endpoint to the guess, stops on a converged guess, and
    otherwise replaces the upper endpoint (time and squared norm) when the
    squared norm at the guess is below [r1], the lower endpoint (time,
    state and squared norm) when it is not. *)
Theorem jump_search_iteration fuel c r1 ii od b :
  (ii < norm_steps c)%nat ->
  let t_guess :=
    t_prev b + np_log (norm2_prev b / r1)
               / np_log (norm2_prev b / norm2_psi b) * (t_final b - t_prev b) in
  let od' := integrate (set_initial_value od (y_prev b) (t_prev b))
                       t_guess false in
  let norm2_guess := dznrm2 (ode_y od') ^ 2 in
  successful od' = true ->
  jump_search (S fuel) c r1 ii od b =
    if Qlt_bool (Qabs (r1 - norm2_guess)) (norm_tol c * r1) then
      Ret (S ii, od', b)
    else if Qlt_bool norm2_guess r1 then
      jump_search fuel c r1 (S ii) od'
        {| t_prev := t_prev b; y_prev := y_prev b;
           norm2_prev := norm2_prev b;
           t_final := t_guess; norm2_psi := norm2_guess |}
    else
      jump_search fuel c r1 (S ii) od'
        {| t_prev := t_guess; y_prev := ode_y od';
           norm2_prev := norm2_guess;
           t_final := t_final b; norm2_psi := norm2_psi b |}.
Proof.
  intros Hlt t_guess od' norm2_guess Hok.
  cbn [jump_search].
  apply Nat.ltb_lt in Hlt. rewrite Hlt.
  fold (t_guess_of r1 b). change (t_guess_of r1 b) with t_guess.
  fold od'. rewrite Hok. reflexivity.
Qed.


(** ** The state after a jump *)

(** X24: at a jump the selected operator is applied to the state at the
    jump time, the result is divided by its norm and handed to the
    integrator together with the jump time, and the next two numbers of the
    trajectory's generator become [(r1, r2)]; the new state has unit norm
    whenever the collapsed vector is not the zero vector. *)
Theorem post_jump_state `{!NormLaws E} c od s s' :
  do_collapse c od s = Ret s' ->
  exists j,
    select_channel c (weights c (ode_t od) (ode_y od)) (snd (rand_vals s))
      = Ret j /\
    let Cpsi := collapse_state c j (ode_t od) (ode_y od) in
    ODE s' = set_initial_value od (vdiv Cpsi (dznrm2 Cpsi)) (ode_t od) /\
    ode_t (ODE s') = ode_t od /\
    ode_y (ODE s') = vdiv Cpsi (dznrm2 Cpsi) /\
    (~ dznrm2 Cpsi == 0 -> dznrm2 (ode_y (ODE s')) == 1) /\
    (rand_vals s', rng s') = rand2 (rng s).
Proof.
  unfold do_collapse. cbv zeta. intros H. inv_bind H.
  exists a. split; [exact Ha|].
  destruct (rand2 (rng s)) as [rv g] eqn:Hr. injection H as <-. simpl.
  rewrite ode_t_set, ode_y_set.
  repeat split; try reflexivity.
  intros Hnz.
  set (Cpsi := collapse_state c a (ode_t od) (ode_y od)) in *.
  assert (Hpos : 0 < dznrm2 Cpsi).
  { destruct (Qle_lt_or_eq _ _ (dznrm2_nonneg Cpsi)) as [Hlt|Heq];
      [exact Hlt | exfalso; apply Hnz; symmetry; exact Heq]. }
  rewrite (dznrm2_vdiv _ _ Hpos). field. exact Hnz.
Qed.

(** ** The kind of the output buffer *)

Lemma mc_step_out c tk s s' :
  mc_step c tk s = Ret s' -> mc_alg_out s' = mc_alg_out s.
Proof.
  unfold mc_step. cbv zeta. case_if; [discriminate|].
  intros H. inv_bind H. case_if.
  - inv_bind H. destruct a0 as [od' b']. revert H.
    unfold do_collapse. cbv zeta. intros H. inv_bind H.
    destruct (rand2 (rng s)) as [rv g]. injection H as <-. reflexivity.
  - injection H as <-. reflexivity.
Qed.

Lemma mc_while_out fuel c tk s s' :
  mc_while fuel c tk s = Ret s' -> mc_alg_out s' = mc_alg_out s.
Proof.
  revert s. induction fuel as [|fuel IH]; intros s; simpl.
  - case_if; [discriminate|]. intros [= <-]. reflexivity.
  - case_if.
    + intros H. inv_bind H. apply mc_step_out in Ha. apply IH in H.
      congruence.
    + intros [= <-]. reflexivity.
Qed.

Lemma mc_output_kind c k s s' :
  mc_output c k s = Ret s' ->
  is_states (mc_alg_out s') = is_states (mc_alg_out s).
Proof.
  unfold mc_output. cbv zeta. intros H.
  repeat case_if; destruct (mc_alg_out s); try discriminate;
    repeat inv_bind H; injection H as <-; reflexivity.
Qed.

Lemma mc_for_kind fuel c tl ks s s' :
  mc_for fuel c tl ks s = Ret s' ->
  is_states (mc_alg_out s') = is_states (mc_alg_out s).
Proof.
  revert s. induction ks as [|k ks IH]; intros s; simpl.
  - intros [= <-]. reflexivity.
  - intros H. do 3 inv_bind H.
    apply mc_while_out in Ha0. apply mc_output_kind in Ha1. apply IH in H.
    congruence.
Qed.

Lemma steady_result_states b n b' :
  steady_result b n = Ret b' -> is_states b' = true.
Proof.
  unfold steady_result. destruct b; intros H; inv_bind H.
  - destruct a0; try discriminate. injection H as <-. reflexivity.
  - injection H as <-. reflexivity.
Qed.

(** A trajectory that is given an array of states returns one. *)
Lemma mc_alg_evolve_body_states fuel nt args c r :
  mc_alg_evolve_body fuel nt args c = Ret r ->
  is_states (a_out args) = true ->
  is_states (result_buffer r) = true.
Proof.
  unfold mc_alg_evolve_body. cbv zeta. intros H Hk. inv_bind H.
  destruct (rand2 _) as [rv g]. do 3 inv_bind H.
  injection H as <-. unfold result_buffer. simpl.
  apply mc_for_kind in Ha1. simpl in Ha1.
  destruct (steady_state_average (options c)).
  - inv_bind Ha2. injection Ha2 as <-. eapply steady_result_states; eauto.
  - injection Ha2 as <-. congruence.
Qed.
End EngineFacts.

(** ** The orchestrator *)

Section OrchestratorFacts.
Context {E : Externals}.

Lemma io_bind_lift_Ret {A B} (a : A) (f : A -> io B) :
  lift (Ret a) ≫= f = f a.
Proof.
  unfold mbind, io_mbind, io_bind, lift. destruct (f a). reflexivity.
Qed.

Lemma io_bind_lift_Raise {A B} (e : exn) (f : A -> io B) :
  lift (Raise e) ≫= f = lift (Raise e).
Proof. reflexivity. Qed.

Lemma io_bind_ret {A B} (a : A) (f : A -> io B) :
  mret a ≫= f = f a.
Proof. apply io_bind_lift_Ret. Qed.

Lemma io_bind_out {A B} out (a : A) (f : A -> io B) :
  ((out, Ret a) : io A) ≫= f = (out ++ fst (f a), snd (f a)).
Proof.
  unfold mbind, io_mbind, io_bind. destruct (f a). reflexivity.
Qed.

(** The engine returns the index it was called with. *)
Lemma mc_alg_evolve_body_nt fuel nt args c r :
  mc_alg_evolve_body fuel nt args c = Ret r -> r_nt r = nt.
Proof.
  unfold mc_alg_evolve_body. cbv zeta. intros H. inv_bind H.
  destruct (rand2 _) as [rv g]. do 3 inv_bind H.
  injection H as <-. reflexivity.
Qed.

(** What the [except] clause does with an exception of the body. *)
Lemma _mc_alg_evolve_caught fuel nt args c e :
  mc_alg_evolve_body fuel nt args c = Raise e ->
  _mc_alg_evolve fuel nt args c =
    ([String.append "failed to run _mc_alg_evolve: " (str_exn e)], Ret None).
Proof. unfold _mc_alg_evolve. intros ->. reflexivity. Qed.

(** C7: an exception inside a trajectory (an integrator step failure is
    [ZvodeFailed]) is caught and its message printed, but the engine then
    returns None, on which the callback raises TypeError: in the serial path
    the run ends there, before any of the remaining trajectories [nts] is
    started. *)
Theorem failed_trajectory_aborts_serial_run fuel nt nts ra mc h b e :
  load h (ra_out ra) = Ret b ->
  mc_alg_evolve_body fuel nt (args_with ra b) (mc_config mc) = Raise e ->
  serial_loop fuel (nt :: nts) ra mc h =
    ([String.append "failed to run _mc_alg_evolve: " (str_exn e)],
     Raise TypeError).
Proof.
  intros Hb He. cbn [serial_loop].
  rewrite Hb, io_bind_lift_Ret.
  rewrite (_mc_alg_evolve_caught _ _ _ _ _ He).
  rewrite io_bind_out. reflexivity.
Qed.


Lemma initial_buffer_states c n b :
  (e_num c =? 0)%nat = true -> initial_buffer c n = Ret b ->
  is_states b = true.
Proof.
  unfold initial_buffer. cbv zeta. intros ->. intros H. inv_bind H.
  injection H as <-. reflexivity.
Qed.

Lemma initial_buffer_expect c n b :
  (e_num c =? 0)%nat = false -> initial_buffer c n = Ret b ->
  is_states b = false.
Proof.
  unfold initial_buffer. cbv zeta. intros ->. intros H. inv_bind H.
  injection H as <-. reflexivity.
Qed.

Lemma load_insert m n l b :
  load {| cells := <[l := b]> m; next := n |} l = Ret b.
Proof. unfold load. cbn. rewrite lookup_insert_eq. reflexivity. Qed.

Lemma single_collapse fuel sched c0 opts b0 r :
   (c_num c0 =? 0)%nat = false ->
   average_expect opts = false ->
   let c := configure c0 opts 1 in
   let sds := match seeds opts with
              | Some s => s
              | None => random_integers 1
              end in
   initial_buffer c (length (tlist c0)) = Ret b0 ->
   mc_alg_evolve_body fuel 0
     {| a_out := b0; a_tlist := tlist c0;
        a_num_times := length (tlist c0); a_seeds := sds |} c = Ret r ->
   mcsolve fuel sched c0 (Some (NInt 1)) opts None =
     ([], Ret {| states := if (e_num c0 =? 0)%nat
                           then Some (StatesRaw (Psi2D [states_of (result_buffer r)]))
                           else None;
                 expect := if (e_num c0 =? 0)%nat then ExpectUnset
                           else ExpectPerTraj [EntBuf (result_buffer r)];
                 times := tlist c0;
                 num_expect := e_num c0;
                 num_collapse := c_num c0;
                 out_ntraj := 1;
                 col_times := Some [Some (r_collapse_times r)];
                 col_which := Some [Some (r_which_oper r)] |}).
Proof.
  intros Hc Hav c sds Hb Hr.
  assert (Hseeds : seeds (options c) = seeds opts).
  { unfold c, configure, effective_options. cbn.
    repeat case_if; reflexivity. }
  assert (Hav' : average_expect (options c) = false).
  { unfold c, configure, effective_options. cbn.
    repeat case_if; exact Hav. }
  pose proof (mc_alg_evolve_body_nt _ _ _ _ _ Hr) as Hnt.
  unfold mcsolve. cbn [local_ntraj config_ntraj].
  rewrite io_bind_lift_Ret. fold c.
  unfold MC_init. cbv zeta. cbn [c_num c configure]. rewrite Hc.
  destruct (e_num c0 =? 0)%nat eqn:Hen.
  - assert (Hen' : (e_num c =? 0)%nat = true) by exact Hen.
    rewrite Hen'.
    pose proof (initial_buffer_states _ _ _ Hen' Hb) as Hk.
    pose proof (mc_alg_evolve_body_states _ _ _ _ _ Hr Hk) as Hk'.
    destruct (result_buffer r) as [row|] eqn:Hrb; [|discriminate].
    unfold result_buffer in Hrb.
    destruct (steady_state_average (options c)) eqn:Hst;
      rewrite io_bind_lift_Ret;
      unfold run;
      cbn [mc_config c_num c configure num_times ntraj mc_seeds set_seeds];
      rewrite Hc; fold c;
      change (length (tlist c)) with (length (tlist c0));
      rewrite Hb, io_bind_lift_Ret;
      unfold parallel; cbn [mc_config set_seeds ntraj c configure cpus];
      rewrite Nat.eqb_refl, orb_true_r;
      unfold serial;
      cbn [mc_config set_seeds ntraj c configure arange seq serial_loop ra_out];
      fold c; unfold alloc, store; cbn [heap_empty cells next];
      rewrite load_insert, io_bind_lift_Ret;
      unfold _mc_alg_evolve, args_with;
      cbn [ra_tlist ra_num_times ra_seeds ra_out];
      rewrite Hseeds; change (tlist c) with (tlist c0); fold sds; rewrite Hr;
      change (@io_ret (option traj_result)) with (@mret io _ (option traj_result));
      rewrite io_bind_ret;
      destruct (r_out r) as [|bf] eqn:Hout;
      unfold callback;
      cbn [set_seeds mc_config p_nt p_out p_collapse_times p_which_oper
           psi_out expect_out collapse_times_out which_op_out count
           num_times mc_seeds cpus];
      rewrite Hen', Hnt; unfold alloc, store; cbn [cells next];
      rewrite load_insert, Hrb;
      cbn; rewrite andb_false_r; reflexivity.
  - assert (Hen' : (e_num c =? 0)%nat = false) by exact Hen.
    rewrite Hen'.
    rewrite io_bind_lift_Ret.
    unfold run.
    cbn [mc_config c_num c configure num_times ntraj mc_seeds set_seeds].
    rewrite Hc. fold c.
    change (length (tlist c)) with (length (tlist c0)).
    rewrite Hb, io_bind_lift_Ret.
    unfold parallel. cbn [mc_config set_seeds ntraj c configure cpus].
    rewrite Nat.eqb_refl, orb_true_r.
    unfold serial.
    cbn [mc_config set_seeds ntraj c configure arange seq serial_loop ra_out].
    fold c. unfold alloc, store. cbn [heap_empty cells next].
    rewrite load_insert, io_bind_lift_Ret.
    unfold _mc_alg_evolve, args_with.
    cbn [ra_tlist ra_num_times ra_seeds ra_out].
    rewrite Hseeds. change (tlist c) with (tlist c0). fold sds. rewrite Hr.
    change (@io_ret (option traj_result)) with (@mret io _ (option traj_result)).
    rewrite io_bind_ret.
    unfold result_buffer.
    destruct (r_out r) as [|bf] eqn:Hout;
      unfold callback;
      cbn [set_seeds mc_config p_nt p_out p_collapse_times p_which_oper
           psi_out expect_out collapse_times_out which_op_out count
           num_times mc_seeds cpus];
      rewrite Hen', Hnt; cbn;
      change (average_expect (effective_options opts))
        with (average_expect (options c));
      rewrite Hav', andb_false_r, lookup_insert_eq; reflexivity.
Qed.

(** Without collapse operators [mcsolve] is one deterministic integration:
    its result does not depend on the fuel, the schedule, the seeds or the
    requested trajectory count. *)
Lemma mcsolve_no_collapse fuel sched c0 ntraj_in opts dict n :
  (c_num c0 =? 0)%nat = true ->
  config_ntraj (local_ntraj ntraj_in opts) = Ret n ->
  average_states (effective_options opts) && cflag c0
    && negb (ntraj_is_1 (local_ntraj ntraj_in opts)) = false ->
  cflag c0 && average_expect opts = false ->
  let T := length (tlist c0) in
  let c1 := configure c0 opts 1 in
  let data st ex :=
    {| states := st; expect := ex; times := tlist c0;
       num_expect := e_num c0; num_collapse := c_num c0; out_ntraj := 1;
       col_times := None; col_which := None |} in
  let notice := if (n =? 1)%nat then [] else no_collapse_notice in
  mcsolve fuel sched c0 ntraj_in opts dict =
    if (e_num c0 =? 0)%nat then
      (notice,
       a ← _no_collapse_psi_out T (replicate T QobjEmpty) c1;
       ex ← rekey dict ExpectUnset;
       Ret (data (Some (StatesRaw (Psi1D a))) ex))
    else
      match expect_arrays (arange (e_num c0)) T (psi0 c0) with
      | Ret a0 =>
          (notice,
           a ← _no_collapse_expect_out T a0 c1;
           ex ← rekey dict (ExpectArrays a);
           Ret (data None ex))
      | Raise e => ([], Raise e)
      | OutOfFuel => ([], OutOfFuel)
      end.
Proof.
  intros Hc Hn Hst Hex T c1 data notice.
  assert (Hex' : cflag c0 && average_expect (effective_options opts) = false).
  { unfold effective_options. repeat case_if; exact Hex. }
  unfold mcsolve. rewrite Hn, io_bind_lift_Ret.
  unfold MC_init. cbv zeta. cbn [c_num configure]. rewrite Hc.
  cbn [e_num tlist psi0 configure].
  destruct (e_num c0 =? 0)%nat eqn:Hen.
  - rewrite io_bind_lift_Ret. unfold run.
    cbn [mc_config c_num configure ntraj e_num set_config set_ntraj
         psi_out expect_out num_times tlist].
    rewrite Hc. fold T. subst notice.
    change (set_ntraj 1 (configure c0 opts n)) with c1.
    destruct (n =? 1)%nat eqn:Hn1.
    + apply Nat.eqb_eq in Hn1. subst n. cbn [negb]. rewrite io_bind_ret.
      cbn [psi_out mc_config num_times e_num configure]. fold c1;
      change (e_num c1) with (e_num c0); rewrite Hen;
      cbn [psi_out expect_out mc_config num_times set_config].
      destruct (_no_collapse_psi_out T (replicate T QobjEmpty) c1)
        as [a|e|] eqn:Hp; cbn; [|reflexivity..].
      rewrite Hst.
      destruct (rekey dict ExpectUnset); reflexivity.
    + cbn [negb]. rewrite io_bind_out.
      cbn [psi_out mc_config num_times set_config e_num configure].
      fold c1;
      change (e_num c1) with (e_num c0); rewrite Hen;
      cbn [psi_out expect_out mc_config num_times set_config].
      destruct (_no_collapse_psi_out T (replicate T QobjEmpty) c1)
        as [a|e|] eqn:Hp; cbn; [|rewrite ?app_nil_r; reflexivity..].
      rewrite Hst.
      destruct (rekey dict ExpectUnset); reflexivity.
  - change (length (tlist c0)) with T.
    destruct (expect_arrays (arange (e_num c0)) T (psi0 c0))
      as [a0|e|] eqn:Ha0; [|reflexivity..].
    cbn [mbind res_bind]. rewrite io_bind_lift_Ret. unfold run.
    cbn [mc_config c_num configure ntraj e_num set_config set_ntraj
         psi_out expect_out num_times tlist].
    rewrite Hc. subst notice.
    change (set_ntraj 1 (configure c0 opts n)) with c1.
    destruct (n =? 1)%nat eqn:Hn1.
    + apply Nat.eqb_eq in Hn1. subst n. cbn [negb]. rewrite io_bind_ret.
      cbn [expect_out mc_config num_times e_num configure]. fold c1;
      change (e_num c1) with (e_num c0); rewrite Hen;
      cbn [psi_out expect_out mc_config num_times set_config].
      destruct (_no_collapse_expect_out T a0 c1)
        as [a|e|] eqn:Hp; cbn; [|reflexivity..].
      rewrite Hex'. cbn.
      destruct (rekey dict (ExpectArrays a)); reflexivity.
    + cbn [negb]. rewrite io_bind_out.
      cbn [expect_out mc_config num_times set_config e_num configure].
      fold c1;
      change (e_num c1) with (e_num c0); rewrite Hen;
      cbn [psi_out expect_out mc_config num_times set_config].
      destruct (_no_collapse_expect_out T a0 c1)
        as [a|e|] eqn:Hp; cbn; [|rewrite ?app_nil_r; reflexivity..].
      rewrite Hex'. cbn.
      destruct (rekey dict (ExpectArrays a)); reflexivity.
Qed.

(** The computations without loops of unknown length always end. *)
Lemma write_expect_ends jjs a k psi : write_expect jjs a k psi <> OutOfFuel.
Proof.
  revert a. induction jjs as [|jj jjs IH]; intros a; simpl; [discriminate|].
  unfold getitem, setitem. destruct (a !! jj); simpl; [|discriminate].
  repeat (case_if; simpl; try discriminate). apply IH.
Qed.

Lemma expect_arrays_ends ops n psi : expect_arrays ops n psi <> OutOfFuel.
Proof.
  induction ops as [|i ops IH]; simpl; [discriminate|].
  unfold setitem. case_if; simpl; [|discriminate].
  destruct (expect_arrays ops n psi); simpl; congruence.
Qed.

Lemma no_collapse_psi_loop_ends c ks od a :
  no_collapse_psi_loop c ks od a <> OutOfFuel.
Proof.
  revert od a. induction ks as [|k ks IH]; intros od a; simpl; [discriminate|].
  unfold getitem, setitem. destruct (tlist c !! k); simpl; [|discriminate].
  repeat (case_if; simpl; try discriminate). apply IH.
Qed.

Lemma _no_collapse_psi_out_ends n a c : _no_collapse_psi_out n a c <> OutOfFuel.
Proof.
  unfold _no_collapse_psi_out, getitem, setitem. cbv zeta.
  destruct (tlist c !! 0%nat); simpl; [|discriminate].
  case_if; simpl; [|discriminate]. apply no_collapse_psi_loop_ends.
Qed.

Lemma no_collapse_expect_loop_ends c ks od a :
  no_collapse_expect_loop c ks od a <> OutOfFuel.
Proof.
  revert od a. induction ks as [|k ks IH]; intros od a; simpl; [discriminate|].
  unfold getitem. destruct (tlist c !! k); simpl; [|discriminate].
  case_if; [|discriminate].
  destruct (write_expect _ a k _) eqn:Hw; simpl;
    [apply IH | discriminate | destruct (write_expect_ends _ _ _ _ Hw)].
Qed.

Lemma _no_collapse_expect_out_ends n a c :
  _no_collapse_expect_out n a c <> OutOfFuel.
Proof.
  unfold _no_collapse_expect_out, getitem. cbv zeta.
  destruct (tlist c !! 0%nat); simpl; [|discriminate].
  destruct (write_expect _ a 0 _) eqn:Hw; simpl;
    [apply no_collapse_expect_loop_ends | discriminate
    | destruct (write_expect_ends _ _ _ _ Hw)].
Qed.

Lemma mapM_ends {A B} (f : A -> res B) l :
  (forall x, f x <> OutOfFuel) -> mapM f l <> OutOfFuel.
Proof.
  intros Hf. induction l as [|x l IH]; simpl; [discriminate|].
  destruct (f x) eqn:Hx; simpl; [|discriminate|destruct (Hf _ Hx)].
  destruct (mapM f l); [discriminate | discriminate | destruct IH; reflexivity].
Qed.

Lemma rekey_ends dict ex : rekey dict ex <> OutOfFuel.
Proof.
  unfold rekey. destruct dict as [[|k ks]|]; try discriminate.
  destruct (mapM _ _) eqn:Hm; simpl; try discriminate.
  revert Hm. generalize (imap (fun (n : nat) (e : string) => (n, e)) (k :: ks)).
  intros l Hm _. eapply mapM_ends; [|exact Hm]. intros [n e].
  unfold expect_nth, getitem.
  destruct ex; simpl; try discriminate;
    destruct (_ !! n); simpl; discriminate.
Qed.

(** The integration without collapse operators reads the flag of the
    time-dependence, the output times, the initial state and the number of
    operators, and nothing else of the configuration. *)
Lemma no_collapse_psi_loop_ext c c' ks od a :
  tlist c = tlist c' ->
  no_collapse_psi_loop c ks od a = no_collapse_psi_loop c' ks od a.
Proof.
  intros Ht. revert od a. induction ks as [|k ks IH]; intros od a; simpl;
    [reflexivity|].
  rewrite Ht. destruct (getitem (tlist c') k); simpl; try reflexivity.
  case_if; [|reflexivity].
  destruct (setitem a k _); simpl; auto.
Qed.

Lemma no_collapse_expect_loop_ext c c' ks od a :
  tlist c = tlist c' -> e_num c = e_num c' ->
  no_collapse_expect_loop c ks od a = no_collapse_expect_loop c' ks od a.
Proof.
  intros Ht He. revert od a. induction ks as [|k ks IH]; intros od a; simpl;
    [reflexivity|].
  rewrite Ht, He. destruct (getitem (tlist c') k); simpl; try reflexivity.
  case_if; [|reflexivity].
  destruct (write_expect _ a k _); simpl; auto.
Qed.

Lemma _no_collapse_psi_out_ext n a c c' :
  tflag c = tflag c' -> tlist c = tlist c' -> psi0 c = psi0 c' ->
  _no_collapse_psi_out n a c = _no_collapse_psi_out n a c'.
Proof.
  intros Hf Ht Hp. unfold _no_collapse_psi_out. cbv zeta.
  rewrite Hf, Ht, Hp.
  destruct (getitem (tlist c') 0); simpl; try reflexivity.
  destruct (setitem a 0 _); simpl; try reflexivity.
  apply no_collapse_psi_loop_ext, Ht.
Qed.

Lemma _no_collapse_expect_out_ext n a c c' :
  tflag c = tflag c' -> tlist c = tlist c' -> psi0 c = psi0 c' ->
  e_num c = e_num c' ->
  _no_collapse_expect_out n a c = _no_collapse_expect_out n a c'.
Proof.
  intros Hf Ht Hp He. unfold _no_collapse_expect_out. cbv zeta.
  rewrite Hf, Ht, Hp, He.
  destruct (getitem (tlist c') 0); simpl; try reflexivity.
  destruct (write_expect _ a 0 _); simpl; try reflexivity.
  apply no_collapse_expect_loop_ext; assumption.
Qed.

(** C10: without collapse operators a requested trajectory count other than
    1 is replaced by 1 and the notice is printed; what [mcsolve] returns is
    the outcome of the single call of [_no_collapse_psi_out] (no operators
    in [e_ops]) or of [_no_collapse_expect_out] on the problem with
    [ntraj = 1], re-keyed when [e_ops] is a dict, with the metadata
    [ntraj = 1] and no collapse logs.  The run uses no random numbers (its
    result is that of a run with count 1, whatever the seeds, the schedule
    and the fuel) and always terminates. *)
Theorem no_collapse_single_trajectory fuel sched c0 ntraj_in opts dict n :
  c_num c0 = 0%nat -> cflag c0 = false ->
  config_ntraj (local_ntraj ntraj_in opts) = Ret n -> n <> 1%nat ->
  let T := length (tlist c0) in
  let c1 := configure c0 opts 1 in
  let data st ex :=
    {| states := st; expect := ex; times := tlist c0;
       num_expect := e_num c0; num_collapse := c_num c0; out_ntraj := 1;
       col_times := None; col_which := None |} in
  let result := mcsolve fuel sched c0 ntraj_in opts dict in
  result =
    (if (e_num c0 =? 0)%nat then
       (no_collapse_notice,
        a ← _no_collapse_psi_out T (replicate T QobjEmpty) c1;
        ex ← rekey dict ExpectUnset;
        Ret (data (Some (StatesRaw (Psi1D a))) ex))
     else
       match expect_arrays (arange (e_num c0)) T (psi0 c0) with
       | Ret a0 =>
           (no_collapse_notice,
            a ← _no_collapse_expect_out T a0 c1;
            ex ← rekey dict (ExpectArrays a);
            Ret (data None ex))
       | Raise e => ([], Raise e)
       | OutOfFuel => ([], OutOfFuel)
       end) /\
  snd result <> OutOfFuel /\
  (forall fuel' sched' seeds',
     snd result = snd (mcsolve fuel' sched' c0 (Some (NInt 1))
                               (set_seeds_option seeds' opts) dict)) /\
  (forall d, snd result = Ret d ->
     fst result = no_collapse_notice /\ out_ntraj d = 1%nat).
Proof.
  intros Hc Hcf Hn Hn1 T c1 data result.
  assert (Hc' : (c_num c0 =? 0)%nat = true) by (apply Nat.eqb_eq; exact Hc).
  assert (Hne : (n =? 1)%nat = false) by (apply Nat.eqb_neq; exact Hn1).
  assert (Hres : result = mcsolve fuel sched c0 ntraj_in opts dict)
    by reflexivity.
  rewrite (mcsolve_no_collapse _ _ _ _ _ _ n Hc' Hn) in Hres;
    [|rewrite Hcf, andb_false_r; reflexivity | rewrite Hcf; reflexivity].
  rewrite Hne in Hres. cbv zeta in Hres. fold T c1 in Hres.
  split; [exact Hres|].
  split; [|split].
  - rewrite Hres. destruct (e_num c0 =? 0)%nat.
    + cbn [snd].
      destruct (_no_collapse_psi_out T _ _) eqn:H1; simpl;
        [|discriminate|destruct (_no_collapse_psi_out_ends _ _ _ H1)].
      destruct (rekey dict ExpectUnset) eqn:H2; simpl;
        [discriminate|discriminate|destruct (rekey_ends _ _ H2)].
    + destruct (expect_arrays _ T _) eqn:H0;
        [|discriminate|destruct (expect_arrays_ends _ _ _ H0)].
      cbn [snd].
      destruct (_no_collapse_expect_out T _ _) eqn:H1; simpl;
        [|discriminate|destruct (_no_collapse_expect_out_ends _ _ _ H1)].
      destruct (rekey dict _) eqn:H2; simpl;
        [discriminate|discriminate|destruct (rekey_ends _ _ H2)].
  - intros fuel' sched' seeds'.
    rewrite (mcsolve_no_collapse fuel' sched' c0 (Some (NInt 1))
               (set_seeds_option seeds' opts) dict 1 Hc' eq_refl);
      [|cbn [local_ntraj ntraj_is_1]; rewrite Nat.eqb_refl;
        apply andb_false_r
       |rewrite Hcf; reflexivity].
    rewrite Hres. cbv zeta. fold T.
    destruct (e_num c0 =? 0)%nat.
    + cbn [snd].
      rewrite (_no_collapse_psi_out_ext T _ (configure c0 opts 1)
                 (configure c0 (set_seeds_option seeds' opts) 1));
        reflexivity.
    + destruct (expect_arrays _ T _); try reflexivity. cbn [snd].
      rewrite (_no_collapse_expect_out_ext T _ (configure c0 opts 1)
                 (configure c0 (set_seeds_option seeds' opts) 1));
        reflexivity.
  - intros d. rewrite Hres. destruct (e_num c0 =? 0)%nat.
    + cbn [fst snd]. intros H. split; [reflexivity|].
      do 2 inv_bind H. injection H as <-. reflexivity.
    + destruct (expect_arrays _ T _); cbn [fst snd]; try discriminate.
      intros H. split; [reflexivity|].
      do 2 inv_bind H. injection H as <-. reflexivity.
Qed.

(** X25: with ntraj = 1, no averaging of expectation values and [e_ops]
    given as a list, [mcsolve] returns what the engine produced for
    trajectory 0, untouched: with
    collapse operators the array (or list of arrays) that [_mc_alg_evolve]
    returned, as the only row of [states] or the only entry of [expect];
    without collapse operators the array that [_no_collapse_psi_out] or
    [_no_collapse_expect_out] returned. *)
Theorem single_trajectory_returned_raw fuel sched c0 opts :
  let T := length (tlist c0) in
  let c := configure c0 opts 1 in
  let sds := match seeds opts with
             | Some s => s
             | None => random_integers 1
             end in
  let run1 := mcsolve fuel sched c0 (Some (NInt 1)) opts None in
  (forall b0 r,
     c_num c0 <> 0%nat -> average_expect opts = false ->
     initial_buffer c T = Ret b0 ->
     mc_alg_evolve_body fuel 0
       {| a_out := b0; a_tlist := tlist c0; a_num_times := T;
          a_seeds := sds |} c = Ret r ->
     run1 =
       ([], Ret {| states := if (e_num c0 =? 0)%nat
                             then Some (StatesRaw
                                          (Psi2D [states_of (result_buffer r)]))
                             else None;
                   expect := if (e_num c0 =? 0)%nat then ExpectUnset
                             else ExpectPerTraj [EntBuf (result_buffer r)];
                   times := tlist c0;
                   num_expect := e_num c0;
                   num_collapse := c_num c0;
                   out_ntraj := 1;
                   col_times := Some [Some (r_collapse_times r)];
                   col_which := Some [Some (r_which_oper r)] |})) /\
  (forall a,
     c_num c0 = 0%nat -> e_num c0 = 0%nat -> average_expect opts = false ->
     _no_collapse_psi_out T (replicate T QobjEmpty) c = Ret a ->
     run1 =
       ([], Ret {| states := Some (StatesRaw (Psi1D a));
                   expect := ExpectUnset;
                   times := tlist c0;
                   num_expect := e_num c0;
                   num_collapse := c_num c0;
                   out_ntraj := 1;
                   col_times := None;
                   col_which := None |})) /\
  (forall a0 a,
     c_num c0 = 0%nat -> e_num c0 <> 0%nat -> average_expect opts = false ->
     expect_arrays (arange (e_num c0)) T (psi0 c0) = Ret a0 ->
     _no_collapse_expect_out T a0 c = Ret a ->
     run1 =
       ([], Ret {| states := None;
                   expect := ExpectArrays a;
                   times := tlist c0;
                   num_expect := e_num c0;
                   num_collapse := c_num c0;
                   out_ntraj := 1;
                   col_times := None;
                   col_which := None |})).
Proof.
  intros T c sds run1. split; [|split].
  - intros b0 r Hc Hav Hb Hr. apply Nat.eqb_neq in Hc.
    exact (single_collapse fuel sched c0 opts b0 r Hc Hav Hb Hr).
  - intros a Hc He Hav Ha. apply Nat.eqb_eq in Hc. apply Nat.eqb_eq in He.
    unfold run1.
    rewrite (mcsolve_no_collapse fuel sched c0 (Some (NInt 1)) opts None 1
               Hc eq_refl).
    + rewrite He. cbv zeta. fold T c. rewrite Ha. reflexivity.
    + cbn [local_ntraj ntraj_is_1]. rewrite Nat.eqb_refl. apply andb_false_r.
    + rewrite Hav. apply andb_false_r.
  - intros a0 a Hc He Hav Ha0 Ha. apply Nat.eqb_eq in Hc.
    apply Nat.eqb_neq in He. unfold run1.
    rewrite (mcsolve_no_collapse fuel sched c0 (Some (NInt 1)) opts None 1
               Hc eq_refl).
    + rewrite He. cbv zeta. fold T c. rewrite Ha0, Ha. reflexivity.
    + cbn [local_ntraj ntraj_is_1]. rewrite Nat.eqb_refl. apply andb_false_r.
    + rewrite Hav. apply andb_false_r.
Qed.
End OrchestratorFacts.

(** ** The test double honours the contract *)

Lemma Qabs_div_pos a q : 0 < q -> Qabs (a / q) == Qabs a / q.
Proof.
  intros Hq. unfold Qdiv. rewrite Qabs_Qmult.
  rewrite (Qabs_pos (/ q)); [reflexivity|].
  apply Qlt_le_weak, Qinv_lt_0_compat, Hq.
Qed.

Lemma Toy_norm_laws p : NormLaws (Toy.ext p).
Proof.
  split; cbn.
  - intros [a b] q Hq. cbn. rewrite !Qred_correct, !Qabs_div_pos by exact Hq.
    field. intros H. rewrite H in Hq. exact (Qlt_irrefl _ Hq).
  - intros [a b]. cbn.
    rewrite <- (Qplus_0_l 0). apply Qplus_le_compat; apply Qabs_nonneg.
  - reflexivity.
  - reflexivity.
Qed.

(** ** Runs on the test double *)

Import Examples.

(** C1: two trajectories (seeds 0 and 3) that record the population of the
    excited level at four output times.  Through the pool, whatever the
    order of completion, trajectory 0 reports [1; 0; 0; 0] and trajectory 1
    reports [1; 1; 0; 0].  With one worker both entries of the result are
    the one list that every call wrote into, and both read [1; 1; 0; 0]. *)
Theorem serial_path_differs_from_pool :
  let run cpus sched :=
    mcsolve (E := Toy.ext decay) 10 sched (problem decay 0 1 [] 1 times4)
            (Some (NInt 2)) (opts cpus false false false (1 # 10) 5) None in
  let data (ex : expect_t (E := Toy.ext decay)) : Odedata (E := Toy.ext decay) :=
    {| states := None; expect := ex; times := times4;
       num_expect := 1; num_collapse := 1; out_ntraj := 2;
       col_times := Some [Some []; Some []];
       col_which := Some [Some []; Some []] |} in
  run 2%nat [0; 1]%nat =
    ([], Ret (data (ExpectPerTraj [EntBuf (rows decay [[1; 0; 0; 0]]);
                                   EntBuf (rows decay [[1; 1; 0; 0]])]))) /\
  run 2%nat [1; 0]%nat = run 2%nat [0; 1]%nat /\
  run 1%nat [0; 1]%nat =
    ([], Ret (data (ExpectPerTraj [EntBuf (rows decay [[1; 1; 0; 0]]);
                                   EntBuf (rows decay [[1; 1; 0; 0]])]))) /\
  run 1%nat [0; 1]%nat <> run 2%nat [0; 1]%nat.
Proof.
  intros run data.
  assert (Hpool : run 2%nat [0; 1]%nat =
    ([], Ret (data (ExpectPerTraj [EntBuf (rows decay [[1; 0; 0; 0]]);
                                   EntBuf (rows decay [[1; 1; 0; 0]])]))))
    by reflexivity.
  assert (Hpool' : run 2%nat [1; 0]%nat =
    ([], Ret (data (ExpectPerTraj [EntBuf (rows decay [[1; 0; 0; 0]]);
                                   EntBuf (rows decay [[1; 1; 0; 0]])]))))
    by reflexivity.
  assert (Hserial : run 1%nat [0; 1]%nat =
    ([], Ret (data (ExpectPerTraj [EntBuf (rows decay [[1; 1; 0; 0]]);
                                   EntBuf (rows decay [[1; 1; 0; 0]])]))))
    by reflexivity.
  rewrite Hpool', Hserial, Hpool.
  repeat split; try reflexivity.
  intros [= H].
Qed.

(** C2: the test after the search can never fire, because the loop leaves
    the counter at most at the cap.  For every configuration, integrator and
    bracket the search ends without the tolerance error; and in the run
    below (cap 1, tolerance 1/1000, r1 = 1/2) the only guess, at t = 5/9,
    has squared norm 81/196, which misses the tolerance, yet the search
    returns it and the trajectory jumps at that time. *)
Theorem unconverged_jump_time_accepted :
  (forall (E : Externals) c r1 od tp yp n2p n2psi,
     find_jump c r1 od tp yp n2p n2psi <> Raise NormToleranceNotReached /\
     find_jump c r1 od tp yp n2p n2psi <> OutOfFuel) /\
  let c := configure (E := Toy.ext decay) (problem decay 0 1 [] 1 times4)
                     (opts 1 false false false (1 # 1000) 1) 2 in
  let guess : ode (Externals := Toy.ext decay) :=
    {| Toy.ot := 10 # 18; Toy.oy := (0, 9 # 14); Toy.ok := true |} in
  find_jump (E := Toy.ext decay) c (1 # 2) after_one_step 0 (state decay 0 1) 1 (1 # 4)
    = Ret (guess,
           {| t_prev := 0; y_prev := state decay 0 1; norm2_prev := 1;
              t_final := 10 # 18; norm2_psi := 81 # 196 |}) /\
  Qlt_bool (Qabs ((1 # 2) - norm2 (E := Toy.ext decay) (ode_y guess)))
           (norm_tol c * (1 # 2)) = false /\
  trajectory decay c 10 0
    = Ret {| r_nt := 0; r_out := SameObject;
             r_collapse_times := []; r_which_oper := [];
             r_shared := rows decay [[1; 0; 0; 0]];
             r_jumps := [(10 # 18, 0%nat)] |}.
Proof.
  split.
  - intros E c r1 od tp yp n2p n2psi. split.
    + apply find_jump_no_tolerance_error.
    + unfold find_jump.
      destruct (jump_search _ _ _ _ _ _) as [[[ii od'] b']| |] eqn:Hs;
        simpl; [case_if; discriminate | discriminate |].
      exfalso. revert Hs. apply jump_search_total. lia.
  - intros c guess. split; [reflexivity|]. split; reflexivity.
Qed.

(** C4: two collapse operators given as [[[C0, f], C1]]: the pump C0 carries
    a coefficient function, the decay C1 is constant, so the configuration
    has c_td_inds = [0] and c_const_inds = [1].  In the excited state
    [(0, 1/2)] the pump has weight 0 and the decay weight 1/4.  The engine
    lists the weights as [n_dp = [1/4; 0]] (constant operators first) and
    indexes that list with the channel numbers: with r2 = 1/2 it selects
    index 0 and applies the pump, which annihilates the state, whereas the
    lowest channel whose cumulative normalized weight reaches r2 is 1. *)
Theorem weights_listed_out_of_channel_order :
  let c := configure (E := Toy.ext pumped) (problem pumped 2 2 [0%nat] 0 times4)
                     (opts 1 false false false (1 # 10) 5) 1 in
  let y := state pumped 0 (1 # 2) in
  c_td_inds c = [0%nat] /\ c_const_inds c = [1%nat] /\
  map (spec_weight c 1 y) (arange (c_num c)) = [0; 1 # 4] /\
  weights c 1 y = [spec_weight c 1 y 1; spec_weight c 1 y 0] /\
  spec_select c 1 y (1 # 2) = Some 1%nat /\
  select_channel c (weights c 1 y) (1 # 2) = Ret 0%nat /\
  collapse_state c 0 1 y = state pumped 0 0 /\
  do_collapse c after_one_step (at_jump pumped (1 # 2) (1 # 2))
    = Ret (@Build_traj (Toy.ext pumped)
             {| Toy.ot := 1; Toy.oy := (0, 0); Toy.ok := true |}
             (1 # 2, 1 # 2) (O, 2%nat) [] [] (@BufStates (Toy.ext pumped) [])
             [(1, 0%nat)]).
Proof.
  intros c y. repeat split; reflexivity.
Qed.

(** C8: steady-state mode, two trajectories (seeds 0 and 3), four output
    times.  The eight per-trajectory, per-time density matrices are those of
    the states a plain run returns; their unweighted mean is
    [[5/8, 0], [0, 3/8]], and the pool path returns exactly that.  With one
    worker the accumulator of trajectory 0 is still in [mc_alg_out[0]] when
    trajectory 1 starts, and the returned matrix is [[1, 0], [0, 3/8]]. *)
Theorem steady_state_serial_accumulator_carries_over :
  let run cpus steady :=
    mcsolve (E := Toy.ext decay) 10 [0; 1]%nat
            (problem decay 0 1 [] 0 times4) (Some (NInt 2))
            (opts cpus false false steady (1 # 10) 5) None in
  let data (st : states_t (E := Toy.ext decay)) : Odedata (E := Toy.ext decay) :=
    {| states := Some st; expect := ExpectUnset; times := times4;
       num_expect := 0; num_collapse := 1; out_ntraj := 2;
       col_times := Some [Some []; Some []];
       col_which := Some [Some []; Some []] |} in
  let kets :=
    [[ket decay 0 1; ket decay 1 0; ket decay 1 0; ket decay 1 0];
     [ket decay 0 1; ket decay 0 1; ket decay 1 0; ket decay 1 0]] in
  run 2%nat false = ([], Ret (data (StatesRaw (Psi2D kets)))) /\
  spec_steady_state (E := Toy.ext decay) (map (omap item_rho) kets)
    = Ret [5 # 8; 0; 0; 3 # 8] /\
  run 2%nat true = ([], Ret (data (StatesAvg [dm decay [5 # 8; 0; 0; 3 # 8]]))) /\
  run 1%nat true = ([], Ret (data (StatesAvg [dm decay [1; 0; 0; 3 # 8]]))).
Proof.
  intros run data kets. repeat split; reflexivity.
Qed.

(** ** Instances of the general statements *)

(** A trajectory with one jump whose returned logs are empty. *)
Lemma returned_collapse_logs_empty_witness :
  let c := configure (E := Toy.ext decay) (problem decay 0 1 [] 1 times4)
                     (opts 1 false false false (1 # 1000) 1) 2 in
  let r := {| r_nt := 0; r_out := SameObject;
              r_collapse_times := []; r_which_oper := [];
              r_shared := rows decay [[1; 0; 0; 0]];
              r_jumps := [(10 # 18, 0%nat)] |} in
  r_jumps r = [(10 # 18, 0%nat)] /\
  r_collapse_times r = [] /\ r_which_oper r = [].
Proof.
  intros c r. split; [reflexivity|].
  apply (returned_collapse_logs_empty (E := Toy.ext decay) 10 0
           {| a_out := rows decay [[1; 0; 0; 0]]; a_tlist := times4;
              a_num_times := 4; a_seeds := [0; 3]%nat |} c r).
  reflexivity.
Defined.

(** The only iteration of a search with cap 1: the guess at t = 5/9 lies
    below r1 = 1/2 and replaces the upper end of the bracket. *)
Lemma jump_search_iteration_witness :
  let c := configure (E := Toy.ext decay) (problem decay 0 1 [] 1 times4)
                     (opts 1 false false false (1 # 1000) 1) 2 in
  let b := {| t_prev := 0; y_prev := state decay 0 1; norm2_prev := 1;
              t_final := 1; norm2_psi := 1 # 4 |} in
  jump_search (E := Toy.ext decay) 1 c (1 # 2) 0 after_one_step b =
    Ret (1%nat,
         {| Toy.ot := 10 # 18; Toy.oy := (0, 9 # 14); Toy.ok := true |},
         {| t_prev := 0; y_prev := state decay 0 1; norm2_prev := 1;
            t_final := 10 # 18; norm2_psi := 81 # 196 |}).
Proof.
  intros c b.
  eapply eq_trans.
  - apply (jump_search_iteration (E := Toy.ext decay) 0 c (1 # 2) 0
             after_one_step b); [exact (le_n 1) | reflexivity].
  - reflexivity.
Defined.

(** A jump of the decaying system: the lowering operator maps [(0, 1/2)] to
    [(1/2, 0)], which is handed over as [(1, 0)]. *)
Lemma post_jump_state_witness :
  let c := configure (E := Toy.ext decay) (problem decay 0 1 [] 1 times4)
                     (opts 1 false false false (1 # 1000) 1) 2 in
  let s' := @Build_traj (Toy.ext decay)
              {| Toy.ot := 1; Toy.oy := (1, 0); Toy.ok := true |}
              (1 # 2, 1 # 2) (O, 2%nat) [] [] (@BufStates (Toy.ext decay) [])
              [(1, 0%nat)] in
  do_collapse c after_one_step (at_jump decay (1 # 2) (1 # 2)) = Ret s' /\
  dznrm2 (ode_y (ODE s')) == 1.
Proof.
  intros c s'. split; [reflexivity|].
  destruct (post_jump_state (NormLaws0 := Toy_norm_laws decay) c after_one_step
              (at_jump decay (1 # 2) (1 # 2)) s' eq_refl)
    as (j & Hj & _ & _ & _ & Hn & _).
  apply Hn.
  change (Ret 0%nat = Ret j) in Hj. injection Hj as <-.
  intros H. discriminate H.
Defined.

(** Two trajectories with an integrator that fails beyond t = 1: the first
    one fails on its way to t = 2, its message is printed, and the serial
    run ends with TypeError before the second one is started. *)
Lemma failed_trajectory_aborts_serial_run_witness :
  let c := configure (E := Toy.ext stiff) (problem stiff 0 1 [] 1 [0; 1; 2])
                     (opts 1 false false false (1 # 10) 5) 2 in
  let mc := {| mc_config := c; count := 0; num_times := 3;
               mc_seeds := Some [0; 3]%nat; cpus := 1; psi_out := None;
               expect_out := ExpPerTraj [EmptyList; EmptyList];
               collapse_times_out := Some [None; None];
               which_op_out := Some [None; None] |} in
  let h := (alloc heap_empty (rows stiff [[1; 0; 0]])).2 in
  let ra := {| ra_out := 0%nat; ra_tlist := [0; 1; 2]; ra_num_times := 3;
               ra_seeds := [0; 3]%nat |} in
  serial_loop 10 [0; 1]%nat ra mc h =
    ([String.append "failed to run _mc_alg_evolve: " (str_exn ZvodeFailed)],
     Raise TypeError) /\
  mcsolve (E := Toy.ext stiff) 10 [0; 1]%nat (problem stiff 0 1 [] 1 [0; 1; 2])
          (Some (NInt 2)) (opts 1 false false false (1 # 10) 5) None =
    (["failed to run _mc_alg_evolve: ZVODE failed!"], Raise TypeError).
Proof.
  intros c mc h ra. split; [|reflexivity].
  apply (failed_trajectory_aborts_serial_run (E := Toy.ext stiff) 10 0 [1%nat]
           ra mc h (rows stiff [[1; 0; 0]]) ZvodeFailed);
    reflexivity.
Defined.

(** A single trajectory of the decaying system that records its states,
    returned as it is: the jump takes the state from [(0, 1)] to [(1, 0)]
    before the second output time. *)
Lemma single_trajectory_returned_raw_witness :
  mcsolve (E := Toy.ext decay) 10 [0%nat] (problem decay 0 1 [] 0 times4)
          (Some (NInt 1)) (opts 1 false false false (1 # 10) 5) None =
    ([], Ret {| states := Some (StatesRaw
                                  (Psi2D [[ket decay 0 1; ket decay 1 0;
                                           ket decay 1 0; ket decay 1 0]]));
                expect := ExpectUnset;
                times := times4; num_expect := 0; num_collapse := 1;
                out_ntraj := 1;
                col_times := Some [Some []];
                col_which := Some [Some []] |}).
Proof.
  exact (proj1 (single_trajectory_returned_raw (E := Toy.ext decay) 10 [0%nat]
                  (problem decay 0 1 [] 0 times4)
                  (opts 1 false false false (1 # 10) 5))
           (@BufStates (Toy.ext decay)
              [ket decay 0 1; Zero; Zero; Zero])
           {| r_nt := 0; r_out := SameObject;
              r_collapse_times := []; r_which_oper := [];
              r_shared := @BufStates (Toy.ext decay)
                            [ket decay 0 1; ket decay 1 0; ket decay 1 0;
                             ket decay 1 0];
              r_jumps := [(448740 # 1006020, 0%nat)] |}
           ltac:(discriminate) eq_refl eq_refl eq_refl).
Defined.

(** Five trajectories requested for a system without collapse operators
    that starts in [(1/2, 1/2)]: one integration, whose damping of the
    excited amplitude shows in the states returned. *)
Lemma no_collapse_single_trajectory_witness :
  let c0 := superposed decay 0 [0; 1; 3] in
  let o := opts 1 false false false (1 # 10) 5 in
  let result := mcsolve (E := Toy.ext decay) 10 [0%nat] c0 (Some (NInt 5)) o
                        None in
  result =
    (no_collapse_notice,
     Ret {| states := Some (StatesRaw
                              (Psi1D [ket decay (1 # 2) (1 # 2);
                                      ket decay (2 # 3) (1 # 3);
                                      ket decay (6 # 7) (1 # 7)]));
            expect := ExpectUnset; times := [0; 1; 3];
            num_expect := 0; num_collapse := 0; out_ntraj := 1;
            col_times := None; col_which := None |}) /\
  _no_collapse_psi_out 3 (replicate 3 QobjEmpty) (configure c0 o 1) =
    Ret [ket decay (1 # 2) (1 # 2); ket decay (2 # 3) (1 # 3);
         ket decay (6 # 7) (1 # 7)] /\
  snd result <> OutOfFuel /\
  (forall fuel' sched' seeds',
     snd result =
       snd (mcsolve (E := Toy.ext decay) fuel' sched' c0 (Some (NInt 1))
              (set_seeds_option seeds' o) None)) /\
  (forall d, snd result = Ret d ->
     fst result = no_collapse_notice /\ out_ntraj d = 1%nat).
Proof.
  intros c0 o result.
  pose proof (no_collapse_single_trajectory (E := Toy.ext decay) 10 [0%nat]
                c0 (Some (NInt 5)) o None 5
                eq_refl eq_refl eq_refl ltac:(discriminate)) as H.
  cbv zeta in H. destruct H as (Heq & Hrest).
  split; [|split; [reflexivity|exact Hrest]].
  unfold result. rewrite Heq. reflexivity.
Defined.

(** * Further properties of the engine *)

(** ** The channel selection *)

Lemma fold_left_Qplus (l : list Q) (acc : Q) :
  fold_left Qplus l acc == acc + Qsum l.
Proof.
  unfold Qsum. revert acc. induction l as [|x l IH]; intros acc; simpl.
  - ring.
  - rewrite (IH (acc + x)), (IH (0 + x)). ring.
Qed.

Lemma Qsum_cons (x : Q) (l : list Q) : Qsum (x :: l) == x + Qsum l.
Proof. unfold Qsum at 1. simpl. rewrite fold_left_Qplus. ring. Qed.

Lemma cumsum_from_length (l : list Q) (acc : Q) :
  length (cumsum_from acc l) = length l.
Proof.
  revert acc. induction l as [|x l IH]; intros acc; simpl; [|rewrite IH];
    reflexivity.
Qed.

Lemma cum_probs_length (n_dp : list Q) :
  length (cum_probs n_dp) = length n_dp.
Proof.
  unfold cum_probs, cumsum. rewrite cumsum_from_length, length_map.
  reflexivity.
Qed.

(** Cumulative sums of nonnegative terms do not decrease. *)
Lemma cumsum_from_ge (l : list Q) (acc : Q) (i : nat) (q : Q) :
  Forall (fun w => 0 <= w) l ->
  cumsum_from acc l !! i = Some q -> acc <= q.
Proof.
  intros Hl. revert acc i. induction Hl as [|x l Hx Hl IH]; intros acc i;
    simpl; [discriminate|].
  assert (Hacc : acc <= acc + x).
  { rewrite <- (Qplus_0_r acc) at 1. apply Qplus_le_r. exact Hx. }
  destruct i as [|i]; simpl.
  - intros [= <-]. exact Hacc.
  - intros H. apply IH in H. exact (Qle_trans _ _ _ Hacc H).
Qed.

Lemma cumsum_from_le_last (l : list Q) (acc : Q) (i : nat) (q p : Q) :
  Forall (fun w => 0 <= w) l ->
  cumsum_from acc l !! i = Some q ->
  last (cumsum_from acc l) = Some p -> q <= p.
Proof.
  intros Hl. revert acc i. induction Hl as [|x l Hx Hl IH]; intros acc i;
    simpl; [discriminate|].
  destruct l as [|z l].
  - simpl. destruct i as [|i]; simpl; [|discriminate].
    intros [= <-] [= <-]. apply Qle_refl.
  - change (last (acc + x :: cumsum_from (acc + x) (z :: l)))
      with (last (cumsum_from (acc + x) (z :: l))).
    destruct i as [|i]; simpl.
    + intros [= <-] Hp. rewrite last_lookup in Hp.
      exact (cumsum_from_ge _ _ _ _ Hl Hp).
    + intros Hq Hp. exact (IH _ _ Hq Hp).
Qed.

(** An empty selection raises. *)
Lemma first_masked_none (cinds : list nat) (mask : list bool) :
  Forall (fun b => b = false) mask ->
  first_masked cinds mask = Raise IndexError.
Proof.
  intros Hm. revert cinds. induction Hm as [|b mask -> Hm IH];
    intros [|i cinds]; simpl; auto.
Qed.

(** [cinds[mask][0]] is the position of the first bit that is set. *)
Lemma first_masked_seq_Ret (mask : list bool) (a j : nat) :
  first_masked (seq a (length mask)) mask = Ret j <->
  (a <= j)%nat /\ mask !! (j - a)%nat = Some true /\
  forall i, (i < j - a)%nat -> mask !! i = Some false.
Proof.
  revert a. induction mask as [|b mask IH]; intros a; simpl.
  - split; [discriminate|]. intros (_ & H & _). discriminate.
  - destruct b.
    + split.
      * intros [= <-]. rewrite Nat.sub_diag.
        split; [lia|]. split; [reflexivity|]. intros i Hi. lia.
      * intros (Hle & _ & Hlow).
        destruct (decide (j = a)) as [->|Hne]; [reflexivity|].
        specialize (Hlow 0%nat ltac:(lia)). discriminate.
    + rewrite IH. split.
      * intros (Hle & Hj & Hlow).
        replace (j - a)%nat with (S (j - S a)) by lia.
        split; [lia|]. split; [exact Hj|].
        intros [|i] Hi; [reflexivity|]. apply Hlow. lia.
      * intros (Hle & Hj & Hlow).
        destruct (decide (j = a)) as [->|Hne].
        { rewrite Nat.sub_diag in Hj. discriminate. }
        replace (j - a)%nat with (S (j - S a)) in Hj, Hlow by lia.
        split; [lia|]. split; [exact Hj|].
        intros i Hi. apply (Hlow (S i)). lia.
Qed.

Lemma first_masked_seq_some (mask : list bool) (a i : nat) :
  mask !! i = Some true ->
  exists j, first_masked (seq a (length mask)) mask = Ret j /\
            (a <= j <= a + i)%nat.
Proof.
  revert a i. induction mask as [|b mask IH]; intros a i; simpl.
  - discriminate.
  - destruct b.
    + intros _. exists a. split; [reflexivity|lia].
    + destruct i as [|i]; [discriminate|]. simpl. intros H.
      destruct (IH (S a) i H) as (j & Hj & Hr). exists j. split; [exact Hj|lia].
Qed.

Section SelectionFacts.
Context {E : Externals}.

(** X1: the selected index is the lowest position whose cumulative
    normalised weight reaches [r2]; nothing is selected when the total
    weight is zero. *)
Theorem select_channel_lowest (c : odeconfig) (n_dp : list Q) (r2 : Q)
    (j : nat) :
  length n_dp = c_num c ->
  select_channel c n_dp r2 = Ret j <->
    ~ Qsum n_dp == 0 /\
    (exists p, cum_probs n_dp !! j = Some p /\ r2 <= p) /\
    (forall i p, (i < j)%nat -> cum_probs n_dp !! i = Some p -> p < r2).
Proof.
  intros Hlen. unfold select_channel.
  set (cp := cum_probs n_dp).
  assert (Hcl : c_num c = length (map (fun x => Qle_bool r2 x) cp)).
  { rewrite length_map. subst cp. rewrite cum_probs_length. congruence. }
  destruct (Qeq_bool (Qsum n_dp) 0) eqn:Hz.
  - apply Qeq_bool_iff in Hz. split; [discriminate|]. intros (Hnz & _).
    contradiction.
  - assert (Hnz : ~ Qsum n_dp == 0).
    { intros Heq. apply Qeq_bool_iff in Heq. congruence. }
    unfold arange. rewrite Hcl, first_masked_seq_Ret, Nat.sub_0_r.
    rewrite list_lookup_fmap. split.
    + intros (_ & Hj & Hlow). split; [exact Hnz|]. split.
      * destruct (cp !! j) as [p|]; [|discriminate]. simpl in Hj.
        exists p. split; [reflexivity|]. apply Qle_bool_iff. congruence.
      * intros i p Hi Hp. specialize (Hlow i Hi).
        rewrite list_lookup_fmap, Hp in Hlow. simpl in Hlow.
        apply Qnot_le_lt. intros Hle. apply Qle_bool_iff in Hle. congruence.
    + intros (_ & (p & Hp & Hle) & Hlow). split; [lia|]. split.
      * rewrite Hp. simpl. f_equal. apply Qle_bool_iff. exact Hle.
      * intros i Hi. rewrite list_lookup_fmap.
        destruct (cp !! i) as [q|] eqn:Hq.
        -- simpl. f_equal. destruct (Qle_bool r2 q) eqn:Hb; [|reflexivity].
           apply Qle_bool_iff in Hb. specialize (Hlow i q Hi Hq).
           exfalso. exact (Qlt_not_le _ _ Hlow Hb).
        -- apply lookup_lt_Some in Hp. apply lookup_ge_None in Hq. lia.
Qed.

(** X2: with nonnegative weights of positive total, the last cumulative
    normalised weight [kk[-1]] decides the selection: when it reaches [r2]
    an index below [c_num] is returned, and when it lies below [r2] the
    selection is empty and IndexError is raised.  (In doubles [kk[-1]] can
    fall short of 1, so a number close to 1 can end a trajectory with
    IndexError.) *)
Theorem select_channel_decided_by_last (c : odeconfig) (n_dp : list Q)
    (r2 p : Q) :
  length n_dp = c_num c ->
  Forall (fun w => 0 <= w) n_dp -> 0 < Qsum n_dp ->
  last (cum_probs n_dp) = Some p ->
  (r2 <= p ->
     exists j, select_channel c n_dp r2 = Ret j /\ (j < c_num c)%nat) /\
  (p < r2 -> select_channel c n_dp r2 = Raise IndexError).
Proof.
  intros Hlen Hnn Hpos Hlast. unfold select_channel.
  destruct (Qeq_bool (Qsum n_dp) 0) eqn:Hz.
  { apply Qeq_bool_iff in Hz. rewrite Hz in Hpos.
    exfalso. exact (Qlt_irrefl _ Hpos). }
  set (cp := cum_probs n_dp) in *.
  assert (Hcp : length cp = c_num c).
  { subst cp. rewrite cum_probs_length. exact Hlen. }
  set (mask := map (fun x => Qle_bool r2 x) cp).
  split.
  - intros Hr. rewrite last_lookup in Hlast.
    assert (Hm : mask !! pred (length cp) = Some true).
    { subst mask. rewrite list_lookup_fmap, Hlast. simpl. f_equal.
      apply Qle_bool_iff. exact Hr. }
    destruct (first_masked_seq_some mask 0 _ Hm) as (j & Hj & Hrange).
    assert (0 < length cp)%nat.
    { destruct cp; [discriminate|simpl; lia]. }
    exists j. unfold arange.
    replace (c_num c) with (length mask) at 1
      by (subst mask; rewrite length_map; exact Hcp).
    split; [exact Hj|]. lia.
  - intros Hr. apply first_masked_none. subst mask.
    apply Forall_forall. intros b Hb.
    apply list_elem_of_fmap in Hb as (q & -> & Hq).
    apply list_elem_of_lookup in Hq as (i & Hq).
    assert (Hle : q <= p).
    { subst cp. unfold cum_probs, cumsum in Hq, Hlast.
      refine (cumsum_from_le_last _ _ _ _ _ _ Hq Hlast).
      apply Forall_forall. intros w Hw.
      apply list_elem_of_fmap in Hw as (w0 & -> & Hw0).
      rewrite Forall_forall in Hnn. specialize (Hnn w0 Hw0).
      unfold Qdiv. apply Qmult_le_0_compat; [exact Hnn|].
      apply Qlt_le_weak, Qinv_lt_0_compat, Hpos. }
    destruct (Qle_bool r2 q) eqn:Hb; [|reflexivity].
    apply Qle_bool_iff in Hb. exfalso.
    exact (Qlt_not_le _ _ Hr (Qle_trans _ _ _ Hb Hle)).
Qed.

End SelectionFacts.

(** ** The partition of the collapse operators *)

Lemma int_in_spec (x : nat) (l : list nat) : int_in x l = true <-> x ∈ l.
Proof.
  unfold int_in. rewrite existsb_exists, list_elem_of_In. split.
  - intros (y & Hy & Heq). apply Nat.eqb_eq in Heq. congruence.
  - intros H. exists x. split; [exact H|apply Nat.eqb_refl].
Qed.

Lemma elem_of_setdiff1d (a b : list nat) (x : nat) :
  x ∈ setdiff1d a b <-> x ∈ a /\ x ∉ b.
Proof.
  unfold setdiff1d. rewrite list_elem_of_In, filter_In, <- list_elem_of_In.
  rewrite negb_true_iff, <- not_true_iff_false, int_in_spec. reflexivity.
Qed.

Lemma NoDup_setdiff1d (a b : list nat) : NoDup a -> NoDup (setdiff1d a b).
Proof.
  rewrite !NoDup_ListNoDup. apply List.NoDup_filter.
Qed.

Lemma filter_all {A} (f : A -> bool) (l : list A) :
  (forall x, x ∈ l -> f x = true) -> List.filter f l = l.
Proof.
  induction l as [|x l IH]; intros H; simpl; [reflexivity|].
  rewrite (H x) by apply list_elem_of_here. f_equal. apply IH.
  intros z Hz. apply H, list_elem_of_further, Hz.
Qed.

Lemma filter_none {A} (f : A -> bool) (l : list A) :
  (forall x, x ∈ l -> f x = false) -> List.filter f l = [].
Proof.
  induction l as [|x l IH]; intros H; simpl; [reflexivity|].
  rewrite (H x) by apply list_elem_of_here. apply IH.
  intros z Hz. apply H, list_elem_of_further, Hz.
Qed.

(** X3: the two index arrays that the configuration stores split the
    collapse operators: no index is in both, and together they hold every
    index below [c_num] exactly once. *)
Theorem c_partition_covers (c_num : nat) (c_td : list nat) :
  NoDup c_td -> Forall (fun i => (i < c_num)%nat) c_td ->
  (forall i, i ∈ (c_partition c_num c_td).1 -> i ∉ (c_partition c_num c_td).2)
  /\ (c_partition c_num c_td).1 ++ (c_partition c_num c_td).2
       ≡ₚ arange c_num.
Proof.
  intros Hnd Hlt. unfold c_partition, arange. cbn [fst snd].
  assert (Hdisj : forall i, i ∈ setdiff1d (seq 0 c_num) c_td -> i ∉ c_td).
  { intros i Hi. apply elem_of_setdiff1d in Hi. tauto. }
  split; [exact Hdisj|].
  apply NoDup_Permutation.
  - apply NoDup_app. split; [|split].
    + apply NoDup_setdiff1d, NoDup_seq.
    + exact Hdisj.
    + exact Hnd.
  - apply NoDup_seq.
  - intros x. rewrite elem_of_app, elem_of_setdiff1d, elem_of_seq.
    rewrite Forall_forall in Hlt. split.
    + intros [[Hx _]|Hx]; [exact Hx|]. specialize (Hlt x Hx). lia.
    + intros Hx. destruct (decide (x ∈ c_td)); [right|left]; tauto.
Qed.

(** When the operators with a coefficient are the last ones, the constant
    ones are the first ones. *)
Lemma c_partition_td_last (c_num m : nat) :
  (m <= c_num)%nat ->
  c_partition c_num (seq m (c_num - m)) = (seq 0 m, seq m (c_num - m)).
Proof.
  intros Hm. unfold c_partition, arange, setdiff1d. f_equal.
  replace c_num with (m + (c_num - m))%nat at 1 by lia.
  rewrite seq_app, List.filter_app, filter_all, filter_none.
  - apply app_nil_r.
  - intros x Hx. apply negb_false_iff, int_in_spec. exact Hx.
  - intros x Hx. apply negb_true_iff, not_true_iff_false.
    rewrite int_in_spec, elem_of_seq. apply elem_of_seq in Hx. lia.
Qed.

Section WeightFacts.
Context {E : Externals}.

(** X4: for a problem whose collapse operators with a coefficient are
    listed after the constant ones, position [k] of the weights [n_dp] holds
    the weight of operator [k]: its rate expectation value, times the
    squared modulus of its coefficient (or the value of the generated
    routine) when the operator has one. *)
Theorem weights_in_channel_order (c : odeconfig) (t : Q) (y : vec)
    (m k : nat) :
  int_in (tflag c) [1; 11; 2; 20; 22]%nat = true ->
  (m <= c_num c)%nat ->
  (c_const_inds c, c_td_inds c)
    = c_partition (c_num c) (seq m (c_num c - m)) ->
  (k < c_num c)%nat ->
  weights c t y !! k =
    Some (if int_in k (c_td_inds c) then
            if int_in (tflag c) [1; 11]%nat then cy_col_expect k t y
            else cabs (c_funcs k t) ^ 2 * n_expect k y
          else n_expect k y).
Proof.
  intros Hflag Hm Hpart Hk. rewrite c_partition_td_last in Hpart by exact Hm.
  injection Hpart as Hconst Htd. unfold weights. rewrite Hconst, Htd.
  assert (Hin : int_in k (seq m (c_num c - m)) = negb (k <? m)%nat).
  { destruct (Nat.ltb_spec k m); simpl.
    - apply not_true_iff_false. rewrite int_in_spec, elem_of_seq. lia.
    - apply int_in_spec, elem_of_seq. lia. }
  rewrite Hin.
  assert (Hsel : forall f g : nat -> Q,
    (map f (seq 0 m) ++ map g (seq m (c_num c - m))) !! k =
    Some (if negb (k <? m)%nat then g k else f k)).
  { intros f g. destruct (Nat.ltb_spec k m) as [Hlt|Hge]; simpl.
    - rewrite lookup_app_l by (rewrite length_map, length_seq; exact Hlt).
      rewrite list_lookup_fmap, lookup_seq_lt by exact Hlt. reflexivity.
    - rewrite lookup_app_r by (rewrite length_map, length_seq; exact Hge).
      rewrite length_map, length_seq, list_lookup_fmap.
      rewrite lookup_seq_lt by lia. simpl. do 2 f_equal. lia. }
  destruct (int_in (tflag c) [1; 11]%nat) eqn:H1.
  - rewrite Hsel. destruct (k <? m)%nat; reflexivity.
  - destruct (int_in (tflag c) [2; 20; 22]%nat) eqn:H2.
    + rewrite Hsel. destruct (k <? m)%nat; reflexivity.
    + exfalso. revert Hflag H1 H2. unfold int_in. simpl.
      destruct (tflag c =? 1)%nat, (tflag c =? 11)%nat, (tflag c =? 2)%nat,
        (tflag c =? 20)%nat, (tflag c =? 22)%nat; simpl; congruence.
Qed.

End WeightFacts.

(** ** The jump search: how it stops and what it keeps *)

Section SearchFacts.
Context {E : Externals}.

(** X5: a search that starts below the cap makes at least one guess and
    stops either on a guess whose squared norm is within the tolerance of
    [r1] or after exactly [norm_steps] guesses; the integrator it returns has
    not failed. *)
Theorem jump_search_stops_converged_or_capped (fuel : nat) (c : odeconfig)
    (r1 : Q) (ii : nat) (od : ode) (b : bracket) (ii' : nat) (od' : ode)
    (b' : bracket) :
  (ii < norm_steps c)%nat ->
  jump_search fuel c r1 ii od b = Ret (ii', od', b') ->
  (ii < ii' <= norm_steps c)%nat /\ successful od' = true /\
  (Qabs (r1 - norm2 (ode_y od')) < norm_tol c * r1 \/ ii' = norm_steps c).
Proof.
  revert ii od b.
  induction fuel as [|fuel IH]; intros ii od b Hlt; cbn [jump_search].
  - destruct (Nat.ltb_spec ii (norm_steps c)); [discriminate|lia].
  - destruct (Nat.ltb_spec ii (norm_steps c)) as [_|Hge]; [|lia].
    set (od1 := integrate (set_initial_value od (y_prev b) (t_prev b))
                          (t_guess_of r1 b) false).
    destruct (successful od1) eqn:Hok; cbn [negb]; [|discriminate].
    destruct (Qlt_bool (Qabs (r1 - norm2 (ode_y od1))) (norm_tol c * r1))
      eqn:Hconv.
    { intros [= <- <- <-]. apply Qlt_bool_iff in Hconv.
      split; [lia|]. split; [exact Hok|]. left. exact Hconv. }
    assert (Hnext : forall b1,
      jump_search fuel c r1 (S ii) od1 b1 = Ret (ii', od', b') ->
      (ii < ii' <= norm_steps c)%nat /\ successful od' = true /\
      (Qabs (r1 - norm2 (ode_y od')) < norm_tol c * r1
       \/ ii' = norm_steps c)).
    { intros b1 H.
      destruct (Nat.lt_ge_cases (S ii) (norm_steps c)) as [Hlt'|Hge'].
      - destruct (IH _ _ _ Hlt' H) as (Hr & Hs & Hc).
        split; [lia|]. split; [exact Hs|exact Hc].
      - assert (Hret : jump_search fuel c r1 (S ii) od1 b1
                       = Ret (S ii, od1, b1)).
        { destruct fuel; cbn [jump_search];
            destruct (Nat.ltb_spec (S ii) (norm_steps c)); try lia;
            reflexivity. }
        rewrite Hret in H. injection H as <- <- <-.
        split; [lia|]. split; [exact Hok|]. right. lia. }
    destruct (Qlt_bool (norm2 (ode_y od1)) r1); apply Hnext.
Qed.

(** X6: the search keeps its bracket: the squared norm stored for the upper
    endpoint stays at or below [r1], the one stored for the lower endpoint
    stays at or above [r1], and the state stored for the lower endpoint is
    the one whose squared norm is stored. *)
Theorem jump_search_keeps_bracket (fuel : nat) (c : odeconfig) (r1 : Q)
    (ii : nat) (od : ode) (b : bracket) (ii' : nat) (od' : ode)
    (b' : bracket) :
  jump_search fuel c r1 ii od b = Ret (ii', od', b') ->
  norm2_psi b <= r1 -> r1 <= norm2_prev b ->
  norm2 (y_prev b) = norm2_prev b ->
  norm2_psi b' <= r1 /\ r1 <= norm2_prev b' /\
  norm2 (y_prev b') = norm2_prev b'.
Proof.
  revert ii od b.
  induction fuel as [|fuel IH]; intros ii od b; cbn [jump_search].
  - destruct (ii <? norm_steps c)%nat; [discriminate|].
    intros [= _ _ <-]. auto.
  - destruct (ii <? norm_steps c)%nat; [|intros [= _ _ <-]; auto].
    set (od1 := integrate (set_initial_value od (y_prev b) (t_prev b))
                          (t_guess_of r1 b) false).
    destruct (successful od1); cbn [negb]; [|discriminate].
    destruct (Qlt_bool (Qabs (r1 - norm2 (ode_y od1))) (norm_tol c * r1)).
    { intros [= _ _ <-]. auto. }
    destruct (Qlt_bool (norm2 (ode_y od1)) r1) eqn:Hlow;
      intros H Hup Hlo Hy; apply IH in H; try exact H;
      cbn [norm2_psi norm2_prev y_prev set_upper set_lower].
    + apply Qlt_bool_iff in Hlow. apply Qlt_le_weak. exact Hlow.
    + exact Hlo.
    + exact Hy.
    + exact Hup.
    + apply Qnot_lt_le. intros Hlt. apply Qlt_bool_iff in Hlt. congruence.
    + reflexivity.
Qed.

(** ** The integration up to an output time *)

Lemma do_collapse_jumps c od s s' :
  do_collapse c od s = Ret s' -> exists e, jumps s' = jumps s ++ [e].
Proof.
  unfold do_collapse. cbv zeta. intros H. inv_bind H.
  destruct (rand2 (rng s)) as [rv g]. injection H as <-. simpl. eauto.
Qed.

(** A step either records a jump or leaves the integrator at or before the
    requested time. *)
Lemma mc_step_jumps `{!OdeLaws E} c tk s s' :
  mc_step c tk s = Ret s' ->
  (jumps s' = jumps s /\ ode_t (ODE s') <= tk)
  \/ exists e, jumps s' = jumps s ++ [e].
Proof.
  unfold mc_step. cbv zeta.
  destruct (successful (integrate (ODE s) tk true)); simpl; [|discriminate].
  intros H. inv_bind H.
  destruct (Qle_bool (norm2 (ode_y a)) (fst (rand_vals s))).
  - inv_bind H. destruct a0 as [od' b']. right.
    eapply do_collapse_jumps, H.
  - injection H as <-. left. split; [reflexivity|]. simpl.
    destruct (Qlt_bool tk (ode_t (integrate (ODE s) tk true))) eqn:Hover.
    + set (od1 := integrate (set_initial_value (integrate (ODE s) tk true)
                               (ode_y (ODE s)) (ode_t (ODE s))) tk false)
        in Ha.
      destruct (successful od1) eqn:Hok; simpl in Ha; [|discriminate].
      injection Ha as <-. subst od1. rewrite integrate_exact by exact Hok.
      apply Qle_refl.
    + injection Ha as <-. apply Qnot_lt_le. intros Hlt.
      apply Qlt_bool_iff in Hlt. congruence.
Qed.

Lemma mc_while_jumps `{!OdeLaws E} fuel c tk s s' :
  mc_while fuel c tk s = Ret s' -> exists l, jumps s' = jumps s ++ l.
Proof.
  revert s. induction fuel as [|fuel IH]; intros s; simpl.
  - case_if; [discriminate|]. intros [= <-]. exists []. symmetry.
    apply app_nil_r.
  - case_if.
    + intros H. inv_bind H. apply IH in H. destruct H as (l & Hl).
      apply mc_step_jumps in Ha. destruct Ha as [[Ha _]|(e & Ha)].
      * exists l. congruence.
      * exists ([e] ++ l). rewrite Hl, Ha, app_assoc. reflexivity.
    + intros [= <-]. exists []. symmetry. apply app_nil_r.
Qed.

(** X7: when the loop [while ODE.t < tlist[k]] ends, the integrator is not
    before [tlist[k]]; if it started at or before [tlist[k]] and no jump took
    place on the way, it stands exactly at [tlist[k]]: a step that passes the
    output time is redone as an exact integration to it. *)
Theorem mc_while_reaches_output_time `{!OdeLaws E} (fuel : nat)
    (c : odeconfig) (tk : Q) (s s' : traj) :
  mc_while fuel c tk s = Ret s' ->
  tk <= ode_t (ODE s') /\
  (ode_t (ODE s) <= tk -> jumps s' = jumps s -> ode_t (ODE s') == tk).
Proof.
  assert (Hexit : forall s0 : traj,
    Qlt_bool (ode_t (ODE s0)) tk = false -> tk <= ode_t (ODE s0)).
  { intros s0 Hb. apply Qnot_lt_le. intros Hlt. apply Qlt_bool_iff in Hlt.
    congruence. }
  revert s. induction fuel as [|fuel IH]; intros s; simpl.
  - destruct (Qlt_bool (ode_t (ODE s)) tk) eqn:Hb; [discriminate|].
    intros [= <-]. split; [auto|]. intros Hle _. apply Qle_antisym; auto.
  - destruct (Qlt_bool (ode_t (ODE s)) tk) eqn:Hb.
    + intros H. inv_bind H. destruct (IH _ H) as (Hge & Heq).
      split; [exact Hge|]. intros _ Hj.
      pose proof (mc_while_jumps _ _ _ _ _ H) as (l & Hl).
      destruct (mc_step_jumps _ _ _ _ Ha) as [[Hj1 Hle1]|(e & Hj1)].
      * apply Heq; [exact Hle1|congruence].
      * exfalso. rewrite Hj1, <- app_assoc in Hl. rewrite Hl in Hj.
        apply (f_equal length) in Hj. rewrite length_app in Hj.
        simpl in Hj. lia.
    + intros [= <-]. split; [auto|]. intros Hle _. apply Qle_antisym; auto.
Qed.

End SearchFacts.

(** ** What a trajectory writes into its output array *)

Section OutputFacts.
Context {E : Externals}.

Lemma mc_output_states c k s s' a :
  (e_num c =? 0)%nat = true -> steady_state_average (options c) = false ->
  mc_alg_out s = BufStates a ->
  mc_output c k s = Ret s' ->
  (k < length a)%nat /\
  let out_psi := vdiv (ode_y (ODE s)) (dznrm2 (ode_y (ODE s))) in
  mc_alg_out s' =
    BufStates (<[k := if average_states (options c)
                      then QobjDm (outer out_psi) else QobjKet out_psi]> a).
Proof.
  intros He Hs Ha. unfold mc_output. cbv zeta. rewrite He, Hs, Ha.
  destruct (average_states (options c)); cbn [andb negb]; intros H;
    inv_bind H; injection H as <-; apply setitem_Ret in Ha0;
    destruct Ha0 as [Hk ->]; split; [exact Hk|reflexivity|exact Hk|reflexivity].
Qed.

Lemma mc_for_states fuel c tl ks s s' a :
  (e_num c =? 0)%nat = true -> steady_state_average (options c) = false ->
  mc_alg_out s = BufStates a ->
  mc_for fuel c tl ks s = Ret s' ->
  exists a', mc_alg_out s' = BufStates a' /\ length a' = length a /\
    forall k,
      (k ∈ ks -> exists y,
         a' !! k = Some (if average_states (options c)
                         then QobjDm (outer (vdiv y (dznrm2 y)))
                         else QobjKet (vdiv y (dznrm2 y)))) /\
      (k ∉ ks -> a' !! k = a !! k).
Proof.
  intros He Hs. revert s a. induction ks as [|k0 ks IH]; intros s a Ha; simpl.
  - intros [= <-]. exists a. split; [exact Ha|]. split; [reflexivity|].
    intros k. split; [|reflexivity]. intros Hk. apply elem_of_nil in Hk.
    contradiction.
  - intros H. do 3 inv_bind H.
    apply mc_while_out in Ha1. rewrite Ha in Ha1.
    destruct (mc_output_states _ _ _ _ _ He Hs Ha1 Ha2) as (Hk0 & Hout).
    cbv zeta in Hout.
    destruct (IH _ _ Hout H) as (a' & Ha' & Hlen & Hent).
    exists a'. split; [exact Ha'|]. split.
    { rewrite Hlen. apply length_insert. }
    intros k. destruct (Hent k) as (Hin & Hnotin). split.
    + intros Hk. destruct (decide (k ∈ ks)) as [Hks|Hks]; [auto|].
      apply elem_of_cons in Hk. destruct Hk as [->|Hk]; [|contradiction].
      exists (ode_y (ODE a1)). rewrite (Hnotin Hks).
      apply list_lookup_insert_eq. exact Hk0.
    + intros Hk. apply not_elem_of_cons in Hk. destruct Hk as (Hne & Hks).
      rewrite (Hnotin Hks). apply list_lookup_insert_ne. congruence.
Qed.

(** X8: a trajectory that records states (no steady-state averaging)
    returns the array it was given, with as many entries as before; the
    entry at index 0 is left as it was, and every entry at an index from 1
    up to [num_times - 1] is a state divided by its norm: a ket, or its
    projector when states are to be averaged. *)
Theorem trajectory_fills_state_array (fuel nt : nat) (args : mc_args)
    (c : odeconfig) (r : traj_result) (a : list out_item) :
  e_num c = 0%nat -> steady_state_average (options c) = false ->
  a_out args = BufStates a ->
  mc_alg_evolve_body fuel nt args c = Ret r ->
  r_out r = SameObject /\
  exists a', r_shared r = BufStates a' /\ length a' = length a /\
    a' !! 0%nat = a !! 0%nat /\
    (forall k, (1 <= k < a_num_times args)%nat -> exists y,
       a' !! k = Some (if average_states (options c)
                       then QobjDm (outer (vdiv y (dznrm2 y)))
                       else QobjKet (vdiv y (dznrm2 y)))) /\
    (forall k, (a_num_times args <= k)%nat -> a' !! k = a !! k).
Proof.
  intros He Hs Hbuf. unfold mc_alg_evolve_body. cbv zeta. intros H.
  inv_bind H. destruct (rand2 _) as [rv g]. do 3 inv_bind H.
  injection H as <-. cbn [r_out r_shared]. rewrite Hs in Ha2.
  injection Ha2 as <-. split; [reflexivity|].
  assert (He' : (e_num c =? 0)%nat = true) by (rewrite He; reflexivity).
  eapply (mc_for_states _ _ _ _ _ _ a He' Hs) in Ha1; [|exact Hbuf].
  destruct Ha1 as (a' & Ha' & Hlen & Hent).
  exists a'. split; [exact Ha'|]. split; [exact Hlen|]. split; [|split].
  - apply Hent. rewrite elem_of_seq. lia.
  - intros k Hk. apply Hent. rewrite elem_of_seq. lia.
  - intros k Hk. apply Hent. rewrite elem_of_seq. lia.
Qed.

(** ** The arrays of expectation values *)

Lemma write_expect_rows jjs a k psi a' :
  write_expect jjs a k psi = Ret a' ->
  length a' = length a /\
  forall jj,
    (jj ∈ jjs -> exists row row',
       a !! jj = Some row /\ a' !! jj = Some row' /\
       length row' = length row /\ (k < length row)%nat /\
       row' !! k = Some (e_expect jj psi) /\
       forall t, t <> k -> row' !! t = row !! t) /\
    (jj ∉ jjs -> a' !! jj = a !! jj).
Proof.
  revert a. induction jjs as [|j0 jjs IH]; intros a; simpl.
  - intros [= <-]. split; [reflexivity|]. intros jj.
    split; [|reflexivity]. intros Hjj. apply elem_of_nil in Hjj.
    contradiction.
  - intros H. do 3 inv_bind H.
    apply getitem_Ret in Ha. apply setitem_Ret in Ha0, Ha1.
    destruct Ha0 as (Hk & ->). destruct Ha1 as (Hj0 & ->).
    destruct (IH _ H) as (Hlen & Hent).
    split; [rewrite Hlen; apply length_insert|].
    intros jj. destruct (Hent jj) as (Hin & Hnotin). split.
    + intros Hjj. destruct (decide (jj ∈ jjs)) as [Hjjs|Hjjs].
      * destruct (Hin Hjjs) as (row & row' & Hrow & Hrow' & Hl & Hkl & Hv & Ho).
        destruct (decide (jj = j0)) as [->|Hne].
        -- rewrite list_lookup_insert_eq in Hrow by exact Hj0.
           injection Hrow as <-. rewrite length_insert in Hl, Hkl.
           exists a0, row'. split; [exact Ha|]. split; [exact Hrow'|].
           split; [exact Hl|]. split; [exact Hkl|]. split; [exact Hv|].
           intros t Ht. rewrite (Ho t Ht).
           apply list_lookup_insert_ne. congruence.
        -- rewrite list_lookup_insert_ne in Hrow by congruence.
           exists row, row'. auto 10.
      * apply elem_of_cons in Hjj. destruct Hjj as [->|Hjj]; [|contradiction].
        rewrite (Hnotin Hjjs). exists a0, (<[k := e_expect j0 psi]> a0).
        split; [exact Ha|]. split; [apply list_lookup_insert_eq; exact Hj0|].
        split; [apply length_insert|]. split; [exact Hk|].
        split; [apply list_lookup_insert_eq; exact Hk|].
        intros t Ht. apply list_lookup_insert_ne. congruence.
    + intros Hjj. apply not_elem_of_cons in Hjj. destruct Hjj as (Hne & Hjjs).
      rewrite (Hnotin Hjjs). apply list_lookup_insert_ne. congruence.
Qed.

End OutputFacts.

Section ExpectFacts.
Context {E : Externals}.

Lemma mc_output_expect c k s s' a :
  (e_num c =? 0)%nat = false ->
  mc_alg_out s = BufExpect a ->
  mc_output c k s = Ret s' ->
  exists a', mc_alg_out s' = BufExpect a' /\
    write_expect (arange (e_num c)) a k
      (vdiv (ode_y (ODE s)) (dznrm2 (ode_y (ODE s)))) = Ret a'.
Proof.
  intros He Hbuf. unfold mc_output. cbv zeta. rewrite He, Hbuf.
  intros H. inv_bind H. injection H as <-. exists a0.
  split; [reflexivity|exact Ha].
Qed.

Lemma mc_for_expect fuel c tl ks s s' a :
  (e_num c =? 0)%nat = false ->
  mc_alg_out s = BufExpect a ->
  mc_for fuel c tl ks s = Ret s' ->
  exists a', mc_alg_out s' = BufExpect a' /\ length a' = length a /\
    (forall jj row, a !! jj = Some row -> exists row',
       a' !! jj = Some row' /\ length row' = length row /\
       forall t, t ∉ ks -> row' !! t = row !! t) /\
    (forall k, k ∈ ks -> exists y, forall jj, (jj < e_num c)%nat ->
       exists row', a' !! jj = Some row' /\
         row' !! k = Some (e_expect jj (vdiv y (dznrm2 y)))).
Proof.
  intros He. revert s a. induction ks as [|k0 ks IH]; intros s a Hbuf; simpl.
  - intros [= <-]. exists a. split; [exact Hbuf|]. split; [reflexivity|].
    split.
    + intros jj row Hrow. exists row. auto.
    + intros k Hk. apply elem_of_nil in Hk. contradiction.
  - intros H. do 3 inv_bind H.
    apply mc_while_out in Ha0. rewrite Hbuf in Ha0.
    destruct (mc_output_expect _ _ _ _ _ He Ha0 Ha1) as (a3 & Hout & Hw).
    apply write_expect_rows in Hw. destruct Hw as (Hlen3 & Hw).
    destruct (IH _ _ Hout H) as (a' & Ha' & Hlen & Hkeep & Hval).
    exists a'. split; [exact Ha'|]. split; [congruence|]. split.
    + intros jj row Hrow.
      assert (H3 : exists row3, a3 !! jj = Some row3 /\
                length row3 = length row /\
                forall t, t <> k0 -> row3 !! t = row !! t).
      { destruct (decide (jj ∈ arange (e_num c))) as [Hin|Hin].
        - destruct (Hw jj) as (Hin' & _).
          destruct (Hin' Hin) as (r0 & r3 & Hr0 & Hr3 & Hl & _ & _ & Ho).
          rewrite Hrow in Hr0. injection Hr0 as <-. exists r3. auto.
        - destruct (Hw jj) as (_ & Hnotin). exists row.
          rewrite (Hnotin Hin). auto. }
      destruct H3 as (row3 & Hrow3 & Hl3 & Ho3).
      destruct (Hkeep _ _ Hrow3) as (row' & Hrow' & Hl' & Ho').
      exists row'. split; [exact Hrow'|]. split; [congruence|].
      intros t Ht. apply not_elem_of_cons in Ht. destruct Ht as (Hne & Ht).
      rewrite (Ho' t Ht). apply Ho3. exact Hne.
    + intros k Hk. destruct (decide (k ∈ ks)) as [Hks|Hks]; [auto|].
      apply elem_of_cons in Hk. destruct Hk as [->|Hk]; [|contradiction].
      exists (ode_y (ODE a1)). intros jj Hjj.
      destruct (Hw jj) as (Hin & _).
      destruct Hin as (r0 & r3 & Hr0 & Hr3 & Hl & Hkl & Hv & Ho).
      { unfold arange. rewrite elem_of_seq. lia. }
      destruct (Hkeep _ _ Hr3) as (row' & Hrow' & Hl' & Ho').
      exists row'. split; [exact Hrow'|]. rewrite (Ho' _ Hks). exact Hv.
Qed.

(** X9: a trajectory that records expectation values returns the list it
    was given, with the same rows of the same lengths; column 0 of every row
    is left as it was, and for every output index [k] from 1 up to
    [num_times - 1] the entries of all operators in column [k] are
    expectation values in one and the same state divided by its norm. *)
Theorem trajectory_fills_expect_arrays (fuel nt : nat) (args : mc_args)
    (c : odeconfig) (r : traj_result) (a : list (list expv)) :
  e_num c <> 0%nat -> steady_state_average (options c) = false ->
  a_out args = BufExpect a ->
  mc_alg_evolve_body fuel nt args c = Ret r ->
  r_out r = SameObject /\
  exists a', r_shared r = BufExpect a' /\ length a' = length a /\
    (forall jj row, a !! jj = Some row -> exists row',
       a' !! jj = Some row' /\ length row' = length row /\
       row' !! 0%nat = row !! 0%nat /\
       forall t, (a_num_times args <= t)%nat -> row' !! t = row !! t) /\
    (forall k, (1 <= k < a_num_times args)%nat -> exists y,
       forall jj, (jj < e_num c)%nat -> exists row',
         a' !! jj = Some row' /\
         row' !! k = Some (e_expect jj (vdiv y (dznrm2 y)))).
Proof.
  intros He Hs Hbuf. unfold mc_alg_evolve_body. cbv zeta. intros H.
  inv_bind H. destruct (rand2 _) as [rv g]. do 3 inv_bind H.
  injection H as <-. cbn [r_out r_shared]. rewrite Hs in Ha2.
  injection Ha2 as <-. split; [reflexivity|].
  assert (He' : (e_num c =? 0)%nat = false) by (apply Nat.eqb_neq; exact He).
  eapply (mc_for_expect _ _ _ _ _ _ a He') in Ha1; [|exact Hbuf].
  destruct Ha1 as (a' & Ha' & Hlen & Hkeep & Hval).
  exists a'. split; [exact Ha'|]. split; [exact Hlen|]. split.
  - intros jj row Hrow. destruct (Hkeep _ _ Hrow) as (row' & Hrow' & Hl & Ho).
    exists row'. split; [exact Hrow'|]. split; [exact Hl|]. split.
    + apply Ho. rewrite elem_of_seq. lia.
    + intros t Ht. apply Ho. rewrite elem_of_seq. lia.
  - intros k Hk. apply Hval. rewrite elem_of_seq. lia.
Qed.

(** ** The evolution without collapse operators *)

Lemma no_collapse_psi_loop_filled c ks od a a' :
  no_collapse_psi_loop c ks od a = Ret a' ->
  length a' = length a /\
  forall k,
    (k ∈ ks -> exists y, a' !! k = Some (QobjKet (vdiv y (dznrm2 y)))) /\
    (k ∉ ks -> a' !! k = a !! k).
Proof.
  revert od a. induction ks as [|k0 ks IH]; intros od a; simpl.
  - intros [= <-]. split; [reflexivity|]. intros k. split; [|reflexivity].
    intros Hk. apply elem_of_nil in Hk. contradiction.
  - intros H. inv_bind H.
    destruct (successful (integrate od a0 false)); [|discriminate].
    inv_bind H. apply setitem_Ret in Ha0. destruct Ha0 as (Hk0 & ->).
    destruct (IH _ _ H) as (Hlen & Hent).
    split; [rewrite Hlen; apply length_insert|].
    intros k. destruct (Hent k) as (Hin & Hnotin). split.
    + intros Hk. destruct (decide (k ∈ ks)) as [Hks|Hks]; [auto|].
      apply elem_of_cons in Hk. destruct Hk as [->|Hk]; [|contradiction].
      exists (ode_y (integrate od a0 false)). rewrite (Hnotin Hks).
      apply list_lookup_insert_eq. exact Hk0.
    + intros Hk. apply not_elem_of_cons in Hk. destruct Hk as (Hne & Hks).
      rewrite (Hnotin Hks). apply list_lookup_insert_ne. congruence.
Qed.

(** X10: without collapse operators the returned array of states has the
    length of the array passed in; entry 0 is the initial state as given
    (not divided by its norm), every entry from 1 up to [num_times - 1] is
    a state divided by its norm, and the entries behind are untouched. *)
Theorem no_collapse_states_filled (num_times : nat) (a : list out_item)
    (c : odeconfig) (a' : list out_item) :
  _no_collapse_psi_out num_times a c = Ret a' ->
  length a' = length a /\
  a' !! 0%nat = Some (QobjKet (psi0 c)) /\
  (forall k, (1 <= k < num_times)%nat -> exists y,
     a' !! k = Some (QobjKet (vdiv y (dznrm2 y)))) /\
  (forall k, (1 <= k)%nat -> (num_times <= k)%nat -> a' !! k = a !! k).
Proof.
  unfold _no_collapse_psi_out. cbv zeta. intros H. do 2 inv_bind H.
  apply setitem_Ret in Ha0. destruct Ha0 as (H0 & ->).
  apply no_collapse_psi_loop_filled in H. destruct H as (Hlen & Hent).
  split; [rewrite Hlen; apply length_insert|]. split; [|split].
  - destruct (Hent 0%nat) as (_ & Hn). rewrite Hn.
    + apply list_lookup_insert_eq. exact H0.
    + rewrite elem_of_seq. lia.
  - intros k Hk. apply Hent. rewrite elem_of_seq. lia.
  - intros k Hk1 Hk. destruct (Hent k) as (_ & Hn). rewrite Hn.
    + apply list_lookup_insert_ne. lia.
    + rewrite elem_of_seq. lia.
Qed.

Lemma no_collapse_psi_loop_errors c ks od a :
  (forall k, k ∈ ks -> (k < length (tlist c))%nat /\ (k < length a)%nat) ->
  (exists a', no_collapse_psi_loop c ks od a = Ret a')
  \/ no_collapse_psi_loop c ks od a = Raise ValueError.
Proof.
  revert od a. induction ks as [|k0 ks IH]; intros od a Hr; simpl.
  - left. eauto.
  - destruct (Hr k0) as (Ht & Ha); [apply list_elem_of_here|].
    unfold getitem. destruct (lookup_lt_is_Some_2 _ _ Ht) as (tk & ->).
    simpl. destruct (successful (integrate od tk false)); [|right; reflexivity].
    unfold setitem. apply Nat.ltb_lt in Ha. rewrite Ha. simpl.
    apply IH. intros k Hk. rewrite length_insert. apply Hr.
    apply list_elem_of_further, Hk.
Qed.

(** X11: called as [run] calls it (an array with one entry per time of a
    non-empty time list), the evolution without collapse operators either
    returns the array or raises the ValueError of a failed integration;
    nothing else can go wrong. *)
Theorem no_collapse_states_only_ode_error (a : list out_item)
    (c : odeconfig) :
  tlist c <> [] -> length a = length (tlist c) ->
  (exists a', _no_collapse_psi_out (length (tlist c)) a c = Ret a')
  \/ _no_collapse_psi_out (length (tlist c)) a c = Raise ValueError.
Proof.
  intros Hne Hlen. unfold _no_collapse_psi_out. cbv zeta.
  assert (Hpos : (0 < length (tlist c))%nat).
  { destruct (tlist c); [contradiction|simpl; lia]. }
  unfold getitem, setitem.
  destruct (lookup_lt_is_Some_2 _ _ Hpos) as (t0 & ->).
  rewrite Hlen. apply Nat.ltb_lt in Hpos as Hb. rewrite Hb.
  cbn [mbind res_bind].
  apply no_collapse_psi_loop_errors. intros k Hk. rewrite length_insert.
  apply elem_of_seq in Hk. lia.
Qed.

End ExpectFacts.

(** ** The process pool: results are collected by trajectory index *)

Section PoolFacts.
Context {E : Externals}.

Lemma io_bind_Ret {A B} (m : io A) (f : A -> io B) out (b : B) :
  m ≫= f = (out, Ret b) <->
  exists o1 a o2, m = (o1, Ret a) /\ f a = (o2, Ret b) /\ out = o1 ++ o2.
Proof.
  unfold mbind, io_mbind, io_bind. destruct m as [o1 [a|e|]].
  - destruct (f a) as [o2 r] eqn:Hf. split.
    + intros [= <- ->]. exists o1, a, o2. auto.
    + intros (o1' & a' & o2' & [= <- <-] & Hfa & ->).
      rewrite Hf in Hfa. injection Hfa as <- <-. reflexivity.
  - split; [discriminate|]. intros (? & ? & ? & [=] & _).
  - split; [discriminate|]. intros (? & ? & ? & [=] & _).
Qed.

(** One task of the pool followed by its callback. *)
Lemma pool_loop_cons fuel nt sched ra b0 mc h out res :
  pool_loop fuel (nt :: sched) ra b0 mc h = (out, Ret res) <->
  exists r mc',
    mc_alg_evolve_body fuel nt (args_with ra b0) (mc_config mc) = Ret r /\
    callback (Some {| p_nt := r_nt r; p_out := next h;
                      p_collapse_times := r_collapse_times r;
                      p_which_oper := r_which_oper r |}) mc
             (alloc h (result_buffer r)).2 = Ret mc' /\
    pool_loop fuel sched ra b0 mc' (alloc h (result_buffer r)).2
      = (out, Ret res).
Proof.
  cbn [pool_loop]. rewrite io_bind_Ret. unfold _mc_alg_evolve. split.
  - intros (o1 & [r|] & o2 & Hev & Hrest & ->).
    + destruct (mc_alg_evolve_body fuel nt (args_with ra b0) (mc_config mc))
        as [r'| |]; try discriminate.
      injection Hev as <- <-. exists r'.
      unfold alloc in Hrest. fold (result_buffer r') in Hrest.
      apply io_bind_Ret in Hrest.
      destruct Hrest as (o3 & mc' & o4 & Hcb & Hloop & ->).
      unfold lift in Hcb. injection Hcb as <- Hcb.
      exists mc'. split; [reflexivity|]. split; [exact Hcb|exact Hloop].
    + apply io_bind_Ret in Hrest.
      destruct Hrest as (o3 & mc' & o4 & Hcb & _). discriminate.
  - intros (r & mc' & Hev & Hcb & Hloop). rewrite Hev.
    exists [], (Some r), out. split; [reflexivity|]. split; [|reflexivity].
    unfold alloc. fold (result_buffer r). apply io_bind_Ret.
    exists [], mc', out. split; [|split; [exact Hloop|reflexivity]].
    unfold lift. f_equal. exact Hcb.
Qed.

(** The callback of a task in a run that records states. *)
Lemma callback_pool_states mc h row nt ct wo a cts wos :
  e_num (mc_config mc) = 0%nat ->
  psi_out mc = Some (Psi2D a) ->
  collapse_times_out mc = Some cts -> which_op_out mc = Some wos ->
  callback (Some {| p_nt := nt; p_out := next h; p_collapse_times := ct;
                    p_which_oper := wo |}) mc (alloc h (BufStates row)).2 =
  if ((nt <? length a) && (nt <? length cts) && (nt <? length wos))%nat
  then Ret {| mc_config := mc_config mc; count := count mc + 1;
              num_times := num_times mc; mc_seeds := mc_seeds mc;
              cpus := cpus mc;
              psi_out := Some (Psi2D (<[nt := row]> a));
              expect_out := expect_out mc;
              collapse_times_out := Some (<[nt := Some ct]> cts);
              which_op_out := Some (<[nt := Some wo]> wos) |}
  else Raise IndexError.
Proof.
  intros He Hpsi Hcts Hwos. unfold callback.
  cbn [p_nt p_out p_collapse_times p_which_oper].
  rewrite He, Hpsi, Hcts, Hwos. cbn [Nat.eqb].
  unfold alloc. cbn [snd]. rewrite load_insert. cbn [mbind res_bind].
  unfold setitem.
  destruct (nt <? length a)%nat; cbn [mbind res_bind andb]; [|reflexivity].
  destruct (nt <? length cts)%nat; cbn [mbind res_bind andb]; [|reflexivity].
  destruct (nt <? length wos)%nat; cbn [mbind res_bind andb]; reflexivity.
Qed.


Lemma callback_states_inv mc h p mc' :
  e_num (mc_config mc) = 0%nat ->
  callback (Some p) mc h = Ret mc' ->
  exists a cts wos row,
    psi_out mc = Some (Psi2D a) /\ collapse_times_out mc = Some cts /\
    which_op_out mc = Some wos /\ load h (p_out p) = Ret (BufStates row).
Proof.
  intros He. unfold callback. rewrite He. cbn [Nat.eqb]. intros H.
  inv_bind H. destruct a as [psi ex].
  destruct (psi_out mc) as [[a|a]|]; try discriminate.
  inv_bind Ha. destruct a0 as [row|]; [|discriminate].
  inv_bind H. inv_bind H.
  destruct (collapse_times_out mc) as [cts|]; [|discriminate].
  destruct (which_op_out mc) as [wos|]; [|discriminate].
  exists a, cts, wos, row. auto.
Qed.

(** What a pool run that records states leaves in the orchestrator. *)
Lemma pool_loop_states_entries fuel ra b0 sched :
  forall mc h out mc1 h1 a cts wos,
  e_num (mc_config mc) = 0%nat ->
  psi_out mc = Some (Psi2D a) ->
  collapse_times_out mc = Some cts -> which_op_out mc = Some wos ->
  pool_loop fuel sched ra b0 mc h = (out, Ret (mc1, h1)) ->
  out = [] /\ mc_config mc1 = mc_config mc /\
  count mc1 = (count mc + length sched)%nat /\
  num_times mc1 = num_times mc /\ mc_seeds mc1 = mc_seeds mc /\
  cpus mc1 = cpus mc /\ expect_out mc1 = expect_out mc /\
  exists a1 cts1 wos1,
    psi_out mc1 = Some (Psi2D a1) /\ collapse_times_out mc1 = Some cts1 /\
    which_op_out mc1 = Some wos1 /\
    length a1 = length a /\ length cts1 = length cts /\
    length wos1 = length wos /\
    forall nt,
      (nt ∈ sched -> exists r row,
         mc_alg_evolve_body fuel nt (args_with ra b0) (mc_config mc) = Ret r /\
         result_buffer r = BufStates row /\
         a1 !! nt = Some row /\
         cts1 !! nt = Some (Some (r_collapse_times r)) /\
         wos1 !! nt = Some (Some (r_which_oper r))) /\
      (nt ∉ sched ->
         a1 !! nt = a !! nt /\ cts1 !! nt = cts !! nt /\
         wos1 !! nt = wos !! nt).
Proof.
  induction sched as [|nt0 sched IH]; intros mc h out mc1 h1 a cts wos
    He Hpsi Hcts Hwos.
  - cbn [pool_loop]. intros [= <- <- <-].
    repeat (split; [first [reflexivity | apply Nat.add_0_r | symmetry; apply Nat.add_0_r]|]).
    exists a, cts, wos. repeat (split; [first [assumption|reflexivity]|]).
    intros nt. split; [|auto]. intros Hnt. apply elem_of_nil in Hnt.
    contradiction.
  - rewrite pool_loop_cons. intros (r & mc' & Hev & Hcb & Hloop).
    pose proof (mc_alg_evolve_body_nt _ _ _ _ _ Hev) as Hnt0.
    rewrite Hnt0 in Hcb.
    destruct (callback_states_inv _ _ _ _ He Hcb)
      as (_ & _ & _ & row & _ & _ & _ & Hload).
    unfold alloc in Hload. cbn [snd p_out] in Hload.
    rewrite load_insert in Hload. injection Hload as Hrow.
    rewrite Hrow in Hcb, Hloop.
    rewrite (callback_pool_states _ _ _ _ _ _ _ _ _ He Hpsi Hcts Hwos) in Hcb.
    destruct (nt0 <? length a)%nat eqn:Hla; [|discriminate].
    destruct (nt0 <? length cts)%nat eqn:Hlc; [|discriminate].
    destruct (nt0 <? length wos)%nat eqn:Hlw; [|discriminate].
    apply Nat.ltb_lt in Hla, Hlc, Hlw. cbn [andb] in Hcb.
    injection Hcb as <-.
    eapply IH in Hloop; [|exact He|reflexivity..].
    cbn [mc_config count num_times mc_seeds cpus expect_out] in Hloop.
    destruct Hloop as (-> & Hc & Hn & Hnt & Hsd & Hcp & Hex & a1 & cts1 & wos1
                       & Hp1 & Hc1 & Hw1 & Hl1 & Hl2 & Hl3 & Hent).
    rewrite length_insert in Hl1. rewrite length_insert in Hl2.
    rewrite length_insert in Hl3.
    split; [reflexivity|]. split; [exact Hc|].
    split; [rewrite Hn; cbn [length]; lia|].
    do 4 (split; [assumption|]).
    exists a1, cts1, wos1.
    do 6 (split; [assumption|]).
    intros nt. destruct (Hent nt) as (Hin & Hnotin). split.
    + intros Hnt'. destruct (decide (nt ∈ sched)) as [Hs|Hs]; [auto|].
      apply elem_of_cons in Hnt'. destruct Hnt' as [->|Hnt']; [|contradiction].
      destruct (Hnotin Hs) as (E1 & E2 & E3).
      exists r, row. split; [exact Hev|]. split; [exact Hrow|].
      rewrite E1, E2, E3.
      rewrite !list_lookup_insert_eq by assumption. auto.
    + intros Hnt'. apply not_elem_of_cons in Hnt'.
      destruct Hnt' as (Hne & Hs). destruct (Hnotin Hs) as (E1 & E2 & E3).
      rewrite E1, E2, E3.
      rewrite !list_lookup_insert_ne by congruence. auto.
Qed.

(** A pool run that records states succeeds as soon as every scheduled
    trajectory does and its index is within the arrays. *)
Lemma pool_loop_states_succeeds fuel ra b0 sched :
  forall mc h a cts wos,
  e_num (mc_config mc) = 0%nat ->
  psi_out mc = Some (Psi2D a) ->
  collapse_times_out mc = Some cts -> which_op_out mc = Some wos ->
  (forall nt, nt ∈ sched ->
     (nt < length a)%nat /\ (nt < length cts)%nat /\ (nt < length wos)%nat /\
     exists r row,
       mc_alg_evolve_body fuel nt (args_with ra b0) (mc_config mc) = Ret r /\
       result_buffer r = BufStates row) ->
  exists mc1 h1, pool_loop fuel sched ra b0 mc h = ([], Ret (mc1, h1)).
Proof.
  induction sched as [|nt0 sched IH]; intros mc h a cts wos He Hpsi Hcts Hwos
    Hall.
  - exists mc, h. reflexivity.
  - destruct (Hall nt0) as (Hla & Hlc & Hlw & r & row & Hev & Hrow);
      [apply list_elem_of_here|].
    pose proof (mc_alg_evolve_body_nt _ _ _ _ _ Hev) as Hnt0.
    apply Nat.ltb_lt in Hla, Hlc, Hlw.
    set (mc' := {| mc_config := mc_config mc; count := count mc + 1;
                   num_times := num_times mc; mc_seeds := mc_seeds mc;
                   cpus := cpus mc;
                   psi_out := Some (Psi2D (<[nt0 := row]> a));
                   expect_out := expect_out mc;
                   collapse_times_out :=
                     Some (<[nt0 := Some (r_collapse_times r)]> cts);
                   which_op_out :=
                     Some (<[nt0 := Some (r_which_oper r)]> wos) |}).
    destruct (IH mc' (alloc h (result_buffer r)).2
                 (<[nt0 := row]> a)
                 (<[nt0 := Some (r_collapse_times r)]> cts)
                 (<[nt0 := Some (r_which_oper r)]> wos))
      as (mc1 & h1 & Hloop); [exact He|reflexivity..| |].
    { intros nt Hnt. rewrite !length_insert. apply Hall.
      apply list_elem_of_further, Hnt. }
    exists mc1, h1. apply pool_loop_cons. exists r, mc'.
    split; [exact Hev|]. split; [|exact Hloop].
    rewrite Hnt0, Hrow.
    rewrite (callback_pool_states _ _ _ _ _ _ _ _ _ He Hpsi Hcts Hwos).
    rewrite Hla, Hlc, Hlw. reflexivity.
Qed.


(** X12: in a pool run that records states, each row of [psi_out] written
    by the run holds the array returned by the trajectory of that index, and
    the two logs hold what that trajectory returned; rows of indices that
    were not run are untouched, the [print] statements of the module print
    nothing (no failure message of a trajectory), and [count] grows by the
    number of completed tasks. *)
Theorem pool_collects_states_by_index (fuel : nat) (sched : list nat)
    (ra : run_args) (b0 : buffer) (mc : MC) (h : heap) (out : list string)
    (mc1 : MC) (h1 : heap) (a : list (list out_item))
    (cts : list (option (list Q))) (wos : list (option (list nat))) :
  e_num (mc_config mc) = 0%nat ->
  psi_out mc = Some (Psi2D a) ->
  collapse_times_out mc = Some cts -> which_op_out mc = Some wos ->
  pool_loop fuel sched ra b0 mc h = (out, Ret (mc1, h1)) ->
  out = [] /\ count mc1 = (count mc + length sched)%nat /\
  exists a1 cts1 wos1,
    psi_out mc1 = Some (Psi2D a1) /\ collapse_times_out mc1 = Some cts1 /\
    which_op_out mc1 = Some wos1 /\ length a1 = length a /\
    (forall nt, nt ∈ sched -> exists r,
       mc_alg_evolve_body fuel nt (args_with ra b0) (mc_config mc) = Ret r /\
       a1 !! nt = Some (states_of (result_buffer r)) /\
       cts1 !! nt = Some (Some (r_collapse_times r)) /\
       wos1 !! nt = Some (Some (r_which_oper r))) /\
    (forall nt, nt ∉ sched ->
       a1 !! nt = a !! nt /\ cts1 !! nt = cts !! nt /\
       wos1 !! nt = wos !! nt).
Proof.
  intros He Hpsi Hcts Hwos Hrun.
  destruct (pool_loop_states_entries _ _ _ _ _ _ _ _ _ _ _ _
              He Hpsi Hcts Hwos Hrun)
    as (Hout & _ & Hn & _ & _ & _ & _ & a1 & cts1 & wos1
        & Hp1 & Hc1 & Hw1 & Hl1 & _ & _ & Hent).
  split; [exact Hout|]. split; [exact Hn|].
  exists a1, cts1, wos1. do 4 (split; [assumption|]). split.
  - intros nt Hnt. destruct (Hent nt) as (Hin & _).
    destruct (Hin Hnt) as (r & row & Hev & Hrow & E1 & E2 & E3).
    exists r. rewrite Hrow. cbn [states_of]. auto.
  - intros nt Hnt. apply Hent. exact Hnt.
Qed.

(** Swapping the completion order of a pool run that records states. *)
Lemma pool_loop_states_perm (fuel : nat)
    (sched sched' : list nat) (ra : run_args) (b0 : buffer) (mc : MC)
    (h : heap) (out : list string) (mc1 : MC) (h1 : heap) :
  e_num (mc_config mc) = 0%nat ->
  sched ≡ₚ sched' ->
  pool_loop fuel sched ra b0 mc h = (out, Ret (mc1, h1)) ->
  exists h2, pool_loop fuel sched' ra b0 mc h = (out, Ret (mc1, h2)).
Proof.
  intros He Hperm Hrun.
  destruct sched as [|nt0 sched0] eqn:Hsched.
  { apply Permutation_nil_l in Hperm. subst sched'. exists h1. exact Hrun. }
  rewrite <- Hsched in *.
  assert (Hshape : exists a cts wos, psi_out mc = Some (Psi2D a) /\
            collapse_times_out mc = Some cts /\ which_op_out mc = Some wos).
  { rewrite Hsched in Hrun. apply pool_loop_cons in Hrun.
    destruct Hrun as (r & mc' & _ & Hcb & _).
    destruct (callback_states_inv _ _ _ _ He Hcb)
      as (a & cts & wos & _ & Hp & Hc & Hw & _).
    exists a, cts, wos. auto. }
  destruct Hshape as (a & cts & wos & Hpsi & Hcts & Hwos).
  destruct (pool_loop_states_entries _ _ _ _ _ _ _ _ _ _ _ _
              He Hpsi Hcts Hwos Hrun)
    as (-> & Hc & Hn & Hnt & Hsd & Hcp & Hex & a1 & cts1 & wos1
        & Hp1 & Hc1 & Hw1 & Hl1 & Hl2 & Hl3 & Hent).
  destruct (pool_loop_states_succeeds fuel ra b0 sched' mc h a cts wos
              He Hpsi Hcts Hwos) as (mc2 & h2 & Hrun2).
  { intros nt Hin0. rewrite <- Hperm in Hin0.
    destruct (Hent nt) as (Hin & _).
    destruct (Hin Hin0) as (r & row & Hev & Hrow & E1 & E2 & E3).
    apply lookup_lt_Some in E1, E2, E3.
    split; [lia|]. split; [lia|]. split; [lia|]. exists r, row. auto. }
  exists h2. rewrite Hrun2. do 2 f_equal.
  destruct (pool_loop_states_entries _ _ _ _ _ _ _ _ _ _ _ _
              He Hpsi Hcts Hwos Hrun2)
    as (_ & Hc' & Hn' & Hnt' & Hsd' & Hcp' & Hex' & a2 & cts2 & wos2
        & Hp2 & Hc2 & Hw2 & Hm1 & Hm2 & Hm3 & Hent').
  assert (Hsame : a2 = a1 /\ cts2 = cts1 /\ wos2 = wos1).
  { split; [|split]; apply list_eq; intros i;
      destruct (Hent i) as (Hin & Hnotin);
      destruct (Hent' i) as (Hin' & Hnotin');
      (destruct (decide (i ∈ sched)) as [Hi|Hi];
       [ destruct (Hin Hi) as (r & row & Hev & Hrow & E1 & E2 & E3);
         rewrite Hperm in Hi;
         destruct (Hin' Hi) as (r' & row' & Hev' & Hrow' & F1 & F2 & F3);
         rewrite Hev in Hev'; injection Hev' as <-;
         rewrite Hrow in Hrow'; injection Hrow' as <-; congruence
       | destruct (Hnotin Hi) as (E1 & E2 & E3);
         rewrite Hperm in Hi;
         destruct (Hnotin' Hi) as (F1 & F2 & F3); congruence ]). }
  destruct Hsame as (-> & -> & ->).
  rewrite <- (Permutation_length Hperm) in Hn'.
  destruct mc1, mc2. cbn [mc_config count num_times mc_seeds cpus psi_out
    expect_out collapse_times_out which_op_out] in *.
  congruence.
Qed.

(** X13: in a pool run that records states, the order in which the tasks
    complete does not matter: if the run succeeds for one completion order,
    it succeeds for every other order of the same tasks, prints the same and
    leaves the orchestrator in the same state. *)
Theorem pool_states_independent_of_completion_order (fuel : nat)
    (sched sched' : list nat) (ra : run_args) (b0 : buffer) (mc : MC)
    (h : heap) (out : list string) (mc1 : MC) (h1 : heap) :
  e_num (mc_config mc) = 0%nat ->
  sched ≡ₚ sched' ->
  pool_loop fuel sched ra b0 mc h = (out, Ret (mc1, h1)) ->
  exists h2, pool_loop fuel sched' ra b0 mc h = (out, Ret (mc1, h2)).
Proof.
  intros He Hperm Hrun.
  exact (pool_loop_states_perm fuel sched sched' ra b0 mc h out mc1 h1
           He Hperm Hrun).
Qed.

End PoolFacts.

(** ** Expectation values under the keys of a dict *)

Section DictFacts.
Context {E : Externals}.

Lemma rekey_entries_from (a : list expect_entry) (keys : list string)
    (m : nat) :
  mapM (fun '(n, e) => x ← expect_nth (ExpectPerTraj a) n; Ret (e, x))
       (imap (fun n e => ((m + n)%nat, e)) keys) =
  if (length keys <=? length (drop m a))%nat
  then Ret (zip keys (ElEntry <$> drop m a))
  else Raise IndexError.
Proof.
  revert m. induction keys as [|e keys IH]; intros m; [reflexivity|].
  cbn [imap mapM length]. rewrite Nat.add_0_r.
  cbn [expect_nth]. unfold getitem.
  rewrite (imap_ext _ (fun n e0 => ((S m + n)%nat, e0)))
    by (intros; simpl; f_equal; lia).
  rewrite IH. destruct (a !! m) as [x|] eqn:Hx.
  - rewrite (drop_S _ _ _ Hx). cbn [length fmap list_fmap zip zip_with].
    change (S (length keys) <=? S (length (drop (S m) a)))%nat
      with (length keys <=? length (drop (S m) a))%nat.
    destruct (length keys <=? length (drop (S m) a))%nat; reflexivity.
  - apply lookup_ge_None in Hx. rewrite !drop_ge by lia. reflexivity.
Qed.

(** Re-keying a per-trajectory result: key number [n] receives the entry of
    trajectory [n]. *)
Lemma rekey_per_trajectory (keys : list string) (a : list expect_entry) :
  keys <> [] ->
  rekey (Some keys) (ExpectPerTraj a) =
  if (length keys <=? length a)%nat
  then Ret (ExpectDict (zip keys (ElEntry <$> a)))
  else Raise IndexError.
Proof.
  intros Hne. unfold rekey. destruct keys as [|e keys]; [contradiction|].
  pose proof (rekey_entries_from a (e :: keys) 0) as Hm.
  rewrite drop_0 in Hm.
  change (fun (n : nat) (e0 : string) => ((0 + n)%nat, e0))
    with (fun (n : nat) (e0 : string) => (n, e0)) in Hm.
  rewrite Hm.
  destruct (length (e :: keys) <=? length a)%nat; reflexivity.
Qed.

(** The same for a call of [mcsolve]: the run itself does not look at the
    keys. *)
Lemma mcsolve_rekey_per_trajectory (fuel : nat) (sched : list nat)
    (c0 : odeconfig) (ntraj_in : option ntraj_arg) (opts : Odeoptions)
    (keys : list string) (out : list string) (o : Odedata)
    (a : list expect_entry) :
  keys <> [] ->
  mcsolve fuel sched c0 ntraj_in opts None = (out, Ret o) ->
  expect o = ExpectPerTraj a ->
  mcsolve fuel sched c0 ntraj_in opts (Some keys) =
    if (length keys <=? length a)%nat
    then (out, Ret {| states := states o;
                      expect := ExpectDict (zip keys (ElEntry <$> a));
                      times := times o; num_expect := num_expect o;
                      num_collapse := num_collapse o;
                      out_ntraj := out_ntraj o;
                      col_times := col_times o; col_which := col_which o |})
    else (out, Raise IndexError).
Proof.
  intros Hne Hrun Hex. unfold mcsolve in *. cbv zeta in *.
  apply io_bind_Ret in Hrun. destruct Hrun as (o1 & n & o2 & Hn & Hrun & ->).
  apply io_bind_Ret in Hrun. destruct Hrun as (o3 & mc & o4 & Hmc & Hrun & ->).
  apply io_bind_Ret in Hrun.
  destruct Hrun as (o5 & [mc1 h1] & o6 & Hr & Hrun & ->).
  apply io_bind_Ret in Hrun.
  destruct Hrun as (o7 & [st ex] & o8 & Hcol & Hrun & ->).
  apply io_bind_Ret in Hrun. destruct Hrun as (o9 & ex' & o10 & Hk & Hrun & ->).
  cbn [rekey] in Hk. unfold lift in Hk. injection Hk as <- <-.
  unfold mret, io_mret, io_ret in Hrun. injection Hrun as <- <-.
  cbn [expect make_output] in Hex. subst ex.
  rewrite Hn, io_bind_out. cbn [fst snd].
  rewrite Hmc, io_bind_out. cbn [fst snd].
  rewrite Hr, io_bind_out. cbn [fst snd].
  rewrite Hcol, io_bind_out. cbn [fst snd].
  rewrite (rekey_per_trajectory keys a Hne).
  destruct (length keys <=? length a)%nat.
  - rewrite io_bind_lift_Ret. reflexivity.
  - rewrite io_bind_lift_Raise. cbn [fst snd lift]. reflexivity.
Qed.

(** X14: when [e_ops] is a dict and the expectation values are returned per
    trajectory (collapse operators, no averaging), the keys are paired with
    the trajectories, not with the operators: the [n]-th key receives the
    entry of trajectory [n], and the call raises IndexError when there are
    more keys than trajectories. *)
Theorem dict_keys_index_trajectories (fuel : nat) (sched : list nat)
    (c0 : odeconfig) (ntraj_in : option ntraj_arg) (opts : Odeoptions)
    (keys : list string) (out : list string) (o : Odedata)
    (a : list expect_entry) :
  keys <> [] ->
  mcsolve fuel sched c0 ntraj_in opts None = (out, Ret o) ->
  expect o = ExpectPerTraj a ->
  mcsolve fuel sched c0 ntraj_in opts (Some keys) =
    if (length keys <=? length a)%nat
    then (out, Ret {| states := states o;
                      expect := ExpectDict (zip keys (ElEntry <$> a));
                      times := times o; num_expect := num_expect o;
                      num_collapse := num_collapse o;
                      out_ntraj := out_ntraj o;
                      col_times := col_times o; col_which := col_which o |})
    else (out, Raise IndexError).
Proof.
  exact (mcsolve_rekey_per_trajectory fuel sched c0 ntraj_in opts keys out o a).
Qed.

(** C9: with ntraj = 1 and no averaging, [mcsolve] hands on what the engine
    produced only when [e_ops] is a list: [output.expect] is then the list
    whose single entry is the list of arrays that [_mc_alg_evolve] returned
    for trajectory 0.  When [e_ops] is a dict of two or more operators (and
    there are collapse operators) the call does not return at all: lines
    302-304 read [output.expect[n]] for the [n]-th key, [output.expect] has
    one entry per trajectory, and the second key raises IndexError. *)
Theorem single_trajectory_dict_raises fuel sched c0 opts keys b0 r :
  c_num c0 <> 0%nat -> e_num c0 <> 0%nat -> average_expect opts = false ->
  length keys = e_num c0 -> (2 <= length keys)%nat ->
  let T := length (tlist c0) in
  let c := configure c0 opts 1 in
  let sds := match seeds opts with
             | Some s => s
             | None => random_integers 1
             end in
  initial_buffer c T = Ret b0 ->
  mc_alg_evolve_body fuel 0
    {| a_out := b0; a_tlist := tlist c0; a_num_times := T;
       a_seeds := sds |} c = Ret r ->
  mcsolve fuel sched c0 (Some (NInt 1)) opts None =
    ([], Ret {| states := None;
                expect := ExpectPerTraj [EntBuf (result_buffer r)];
                times := tlist c0;
                num_expect := e_num c0;
                num_collapse := c_num c0;
                out_ntraj := 1;
                col_times := Some [Some (r_collapse_times r)];
                col_which := Some [Some (r_which_oper r)] |}) /\
  mcsolve fuel sched c0 (Some (NInt 1)) opts (Some keys) =
    ([], Raise IndexError).
Proof.
  intros Hc He Hav Hlen Hk T c sds Hb Hr.
  apply Nat.eqb_neq in Hc. apply Nat.eqb_neq in He.
  pose proof (single_collapse fuel sched c0 opts b0 r Hc Hav Hb Hr) as Hrun.
  rewrite He in Hrun. split; [exact Hrun|].
  assert (Hne : keys <> []) by (destruct keys; [simpl in Hk; lia|discriminate]).
  rewrite (mcsolve_rekey_per_trajectory fuel sched c0 (Some (NInt 1)) opts
             keys [] _ [EntBuf (result_buffer r)] Hne Hrun eq_refl).
  cbn [length].
  destruct (length keys <=? 1)%nat eqn:Hle; [|reflexivity].
  apply Nat.leb_le in Hle. lia.
Qed.

End DictFacts.

(** ** Instances of the further properties on the test double *)

Lemma Toy_ode_laws p : OdeLaws (Toy.ext p).
Proof. split. intros od t _. cbn. reflexivity. Qed.

(** Two channels with weights 1 and 3 and [r2 = 1/2]: the cumulative
    probabilities are 1/4 and 1, so position 1 is selected. *)
Lemma select_channel_lowest_witness :
  let c := problem decay 0 2 [] 0 times4 in
  select_channel c [1; 3] (1 # 2) = Ret 1%nat.
Proof.
  intros c.
  apply (select_channel_lowest (E := Toy.ext decay) c [1; 3] (1 # 2) 1);
    [reflexivity|].
  split; [apply Qeq_bool_neq; reflexivity|]. split.
  - eexists. split; [reflexivity|]. apply Qle_bool_iff. reflexivity.
  - intros [|i] p Hi Hp; [|lia]. injection Hp as <-. reflexivity.
Defined.

(** Weights [1; 3]: [kk = [1/4; 1]].  The number [1/2] selects a channel;
    a number above [kk[-1]] selects none. *)
Lemma select_channel_decided_by_last_witness :
  let c := problem decay 0 2 [] 0 times4 in
  (exists j, select_channel c [1; 3] (1 # 2) = Ret j /\ (j < 2)%nat) /\
  select_channel c [1; 3] 2 = Raise IndexError.
Proof.
  intros c.
  assert (HF : Forall (fun w => 0 <= w) [1; 3]).
  { repeat (constructor; [apply Qle_bool_iff; reflexivity|]). constructor. }
  split.
  - apply (proj1 (select_channel_decided_by_last (E := Toy.ext decay) c
                    [1; 3] (1 # 2) (16 # 16) eq_refl HF eq_refl eq_refl)).
    apply Qle_bool_iff. reflexivity.
  - apply (proj2 (select_channel_decided_by_last (E := Toy.ext decay) c
                    [1; 3] 2 (16 # 16) eq_refl HF eq_refl eq_refl)).
    reflexivity.
Defined.

(** Three operators of which the one at position 1 has a coefficient. *)
Lemma c_partition_covers_witness :
  c_partition 3 [1%nat] = ([0; 2]%nat, [1%nat]) /\
  [0; 2]%nat ++ [1%nat] ≡ₚ arange 3.
Proof.
  split; [reflexivity|].
  apply (c_partition_covers 3 [1%nat]).
  - apply NoDup_singleton.
  - constructor; [lia|constructor].
Defined.

(** A constant decay (operator 0) listed before a pump with a coefficient
    (operator 1): position 1 of the weights holds the weight of the pump. *)
Lemma weights_in_channel_order_witness :
  let c := configure (E := Toy.ext decay) (problem decay 2 2 [1%nat] 0 times4)
                     (opts 1 false false false (1 # 10) 5) 1 in
  let y := state decay 0 (1 # 2) in
  weights c 1 y !! 1%nat =
    Some (@cabs (Toy.ext decay) (@c_funcs (Toy.ext decay) 1 1) ^ 2
          * @n_expect (Toy.ext decay) 1 y).
Proof.
  intros c y.
  apply (weights_in_channel_order (E := Toy.ext decay) c 1 y 1 1).
  - reflexivity.
  - apply Nat.leb_le. reflexivity.
  - reflexivity.
  - apply Nat.ltb_lt. reflexivity.
Defined.

(** A search with cap 1 stops after its only guess, which has not
    converged. *)
Lemma jump_search_stops_converged_or_capped_witness :
  let c := configure (E := Toy.ext decay) (problem decay 0 1 [] 1 times4)
                     (opts 1 false false false (1 # 1000) 1) 2 in
  let od' : @ode (Toy.ext decay) :=
    {| Toy.ot := 10 # 18; Toy.oy := (0, 9 # 14); Toy.ok := true |} in
  (0 < 1 <= norm_steps c)%nat /\ @successful (Toy.ext decay) od' = true /\
  (Qabs ((1 # 2) - norm2 (E := Toy.ext decay) (@ode_y (Toy.ext decay) od'))
     < norm_tol c * (1 # 2) \/ 1%nat = norm_steps c).
Proof.
  intros c od'.
  apply (jump_search_stops_converged_or_capped (E := Toy.ext decay) 1 c
           (1 # 2) 0 after_one_step
           {| t_prev := 0; y_prev := state decay 0 1; norm2_prev := 1;
              t_final := 1; norm2_psi := 1 # 4 |}
           1 od'
           {| t_prev := 0; y_prev := state decay 0 1; norm2_prev := 1;
              t_final := 10 # 18; norm2_psi := 81 # 196 |}).
  - apply Nat.ltb_lt. reflexivity.
  - reflexivity.
Defined.

(** The bracket [1/4 <= 1/2 <= 1] of that search becomes
    [81/196 <= 1/2 <= 1]. *)
Lemma jump_search_keeps_bracket_witness :
  let b' := {| t_prev := 0; y_prev := state decay 0 1; norm2_prev := 1;
               t_final := 10 # 18; norm2_psi := 81 # 196 |} in
  norm2_psi b' <= 1 # 2 /\ 1 # 2 <= norm2_prev b' /\
  norm2 (E := Toy.ext decay) (y_prev b') = norm2_prev b'.
Proof.
  intros b'.
  apply (jump_search_keeps_bracket (E := Toy.ext decay) 1
           (configure (E := Toy.ext decay) (problem decay 0 1 [] 1 times4)
                      (opts 1 false false false (1 # 1000) 1) 2)
           (1 # 2) 0 after_one_step
           {| t_prev := 0; y_prev := state decay 0 1; norm2_prev := 1;
              t_final := 1; norm2_psi := 1 # 4 |}
           1 {| Toy.ot := 10 # 18; Toy.oy := (0, 9 # 14); Toy.ok := true |}
           b').
  - reflexivity.
  - apply Qle_bool_iff. reflexivity.
  - apply Qle_bool_iff. reflexivity.
  - reflexivity.
Defined.

(** From t = 0 towards the output time 1/2 with steps of 1: the step passes
    the output time and is redone exactly; no jump takes place
    ([r1 = 1/5]), and the integrator stands at 1/2. *)
Lemma mc_while_reaches_output_time_witness :
  let c := configure (E := Toy.ext decay) (problem decay 0 1 [] 0 times4)
                     (opts 2 false false false (1 # 10) 5) 2 in
  let s := @Build_traj (Toy.ext decay)
             {| Toy.ot := 0; Toy.oy := (0, 1); Toy.ok := true |}
             (1 # 5, 1 # 2) (3%nat, 1%nat) [] []
             (@BufStates (Toy.ext decay) []) [] in
  let s' := @set_ODE (Toy.ext decay)
              {| Toy.ot := 1 # 2; Toy.oy := (0, 2 # 3); Toy.ok := true |} s in
  mc_while 10 c (1 # 2) s = Ret s' /\
  @ode_t (Toy.ext decay) (ODE s') == 1 # 2.
Proof.
  intros c s s'. split; [reflexivity|].
  apply (mc_while_reaches_output_time (E := Toy.ext decay)
           (OdeLaws0 := Toy_ode_laws decay) 10 c (1 # 2) s s' eq_refl).
  - apply Qle_bool_iff. reflexivity.
  - reflexivity.
Defined.

(** Trajectory 0 of the decaying system (it decays before t = 1), recording
    states. *)
Lemma trajectory_fills_state_array_witness :
  let c := configure (E := Toy.ext decay) (problem decay 0 1 [] 0 times4)
                     (opts 2 false false false (1 # 10) 5) 2 in
  let a := [ket decay 0 1; Zero; Zero; Zero] in
  let r := {| r_nt := 0; r_out := SameObject;
              r_collapse_times := []; r_which_oper := [];
              r_shared := BufStates [ket decay 0 1; ket decay 1 0;
                                     ket decay 1 0; ket decay 1 0];
              r_jumps := [(448740 # 1006020, 0%nat)] |} in
  r_out r = SameObject /\
  exists a', r_shared r = BufStates a' /\ length a' = length a /\
    a' !! 0%nat = a !! 0%nat /\
    (forall k, (1 <= k < 4)%nat -> exists y,
       a' !! k = Some (if average_states (options c)
                       then QobjDm (outer (vdiv y (dznrm2 y)))
                       else QobjKet (vdiv y (dznrm2 y)))) /\
    (forall k, (4 <= k)%nat -> a' !! k = a !! k).
Proof.
  intros c a r.
  apply (trajectory_fills_state_array (E := Toy.ext decay) 10 0
           {| a_out := BufStates a; a_tlist := times4; a_num_times := 4;
              a_seeds := [0; 3]%nat |} c r a);
    reflexivity.
Defined.

(** The same trajectory, recording the population of the excited level. *)
Lemma trajectory_fills_expect_arrays_witness :
  let c := configure (E := Toy.ext decay) (problem decay 0 1 [] 1 times4)
                     (opts 1 false false false (1 # 10) 5) 1 in
  let a := [[1; 0; 0; 0]] in
  let r := {| r_nt := 0; r_out := SameObject;
              r_collapse_times := []; r_which_oper := [];
              r_shared := rows decay [[1; 0; 0; 0]];
              r_jumps := [(448740 # 1006020, 0%nat)] |} in
  r_out r = SameObject /\
  exists a', r_shared r = BufExpect a' /\ length a' = length a /\
    (forall jj row, a !! jj = Some row -> exists row',
       a' !! jj = Some row' /\ length row' = length row /\
       row' !! 0%nat = row !! 0%nat /\
       forall t, (4 <= t)%nat -> row' !! t = row !! t) /\
    (forall k, (1 <= k < 4)%nat -> exists y,
       forall jj, (jj < e_num c)%nat -> exists row',
         a' !! jj = Some row' /\
         row' !! k = Some (@e_expect (Toy.ext decay) jj (vdiv y (dznrm2 y)))).
Proof.
  intros c a r.
  apply (trajectory_fills_expect_arrays (E := Toy.ext decay) 10 0
           {| a_out := rows decay a; a_tlist := times4;
              a_num_times := 4; a_seeds := [0; 3]%nat |} c r a);
    [discriminate | reflexivity..].
Defined.

(** Three output times without collapse operators: the excited level stays
    the excited level. *)
Lemma no_collapse_states_filled_witness :
  let c := configure (E := Toy.ext decay) (problem decay 0 0 [] 0 [0; 1; 2])
                     (opts 1 false false false (1 # 10) 5) 1 in
  let a' := [ket decay 0 1; ket decay 0 1; ket decay 0 1] in
  _no_collapse_psi_out 3 (replicate 3 QobjEmpty) c = Ret a' /\
  length a' = 3%nat /\ a' !! 0%nat = Some (QobjKet (psi0 c)).
Proof.
  intros c a'. split; [reflexivity|].
  destruct (no_collapse_states_filled (E := Toy.ext decay) 3
              (replicate 3 QobjEmpty) c a' eq_refl) as (Hl & H0 & _).
  split; [exact Hl|exact H0].
Defined.

(** With an integrator that fails beyond t = 1 the same call raises
    ValueError. *)
Lemma no_collapse_states_only_ode_error_witness :
  let c := configure (E := Toy.ext stiff) (problem stiff 0 0 [] 0 [0; 1; 2])
                     (opts 1 false false false (1 # 10) 5) 1 in
  _no_collapse_psi_out 3 (replicate 3 QobjEmpty) c = Raise ValueError /\
  ((exists a', _no_collapse_psi_out (length (tlist c))
                 (replicate 3 QobjEmpty) c = Ret a')
   \/ _no_collapse_psi_out (length (tlist c)) (replicate 3 QobjEmpty) c
      = Raise ValueError).
Proof.
  intros c. split; [reflexivity|].
  apply (no_collapse_states_only_ode_error (E := Toy.ext stiff)
           (replicate 3 QobjEmpty) c).
  - discriminate.
  - reflexivity.
Defined.

(** Two trajectories of the decaying system through the pool, recording
    states: trajectory 0 decays before t = 1, trajectory 1 before t = 2. *)
Lemma pool_collects_states_by_index_witness :
  let c := configure (E := Toy.ext decay) (problem decay 0 1 [] 0 times4)
                     (opts 2 false false false (1 # 10) 5) 2 in
  let b0 := BufStates [ket decay 0 1; Zero; Zero; Zero] in
  let mc := {| mc_config := c; count := 0; num_times := 4;
               mc_seeds := Some [0; 3]%nat; cpus := 2;
               psi_out := Some (Psi2D [replicate 4 Zero; replicate 4 Zero]);
               expect_out := ExpArrays [];
               collapse_times_out := Some [None; None];
               which_op_out := Some [None; None] |} in
  let ra := {| ra_out := 0%nat; ra_tlist := times4; ra_num_times := 4;
               ra_seeds := [0; 3]%nat |} in
  let h := (alloc heap_empty b0).2 in
  let row0 := [ket decay 0 1; ket decay 1 0; ket decay 1 0; ket decay 1 0] in
  let row1 := [ket decay 0 1; ket decay 0 1; ket decay 1 0; ket decay 1 0] in
  let mc1 := {| mc_config := c; count := 2; num_times := 4;
                mc_seeds := Some [0; 3]%nat; cpus := 2;
                psi_out := Some (Psi2D [row0; row1]);
                expect_out := ExpArrays [];
                collapse_times_out := Some [Some []; Some []];
                which_op_out := Some [Some []; Some []] |} in
  let h1 := (alloc (alloc h (BufStates row0)).2 (BufStates row1)).2 in
  pool_loop 10 [0; 1]%nat ra b0 mc h = ([], Ret (mc1, h1)) /\
  exists a1 cts1 wos1,
    psi_out mc1 = Some (Psi2D a1) /\ collapse_times_out mc1 = Some cts1 /\
    which_op_out mc1 = Some wos1 /\ length a1 = 2%nat /\
    (forall nt, nt ∈ [0; 1]%nat -> exists r,
       mc_alg_evolve_body 10 nt (args_with ra b0) c = Ret r /\
       a1 !! nt = Some (states_of (result_buffer r)) /\
       cts1 !! nt = Some (Some (r_collapse_times r)) /\
       wos1 !! nt = Some (Some (r_which_oper r))) /\
    (forall nt, nt ∉ [0; 1]%nat ->
       a1 !! nt = [replicate 4 Zero; replicate 4 Zero] !! nt /\
       cts1 !! nt = [None; None] !! nt /\ wos1 !! nt = [None; None] !! nt).
Proof.
  intros c b0 mc ra h row0 row1 mc1 h1.
  assert (Hrun : pool_loop 10 [0; 1]%nat ra b0 mc h = ([], Ret (mc1, h1)))
    by reflexivity.
  split; [exact Hrun|].
  apply (pool_collects_states_by_index (E := Toy.ext decay) 10 [0; 1]%nat
           ra b0 mc h [] mc1 h1 [replicate 4 Zero; replicate 4 Zero]
           [None; None] [None; None] eq_refl eq_refl eq_refl eq_refl Hrun).
Defined.

(** The same run with the second task completing first. *)
Lemma pool_states_independent_of_completion_order_witness :
  let c := configure (E := Toy.ext decay) (problem decay 0 1 [] 0 times4)
                     (opts 2 false false false (1 # 10) 5) 2 in
  let b0 := BufStates [ket decay 0 1; Zero; Zero; Zero] in
  let mc := {| mc_config := c; count := 0; num_times := 4;
               mc_seeds := Some [0; 3]%nat; cpus := 2;
               psi_out := Some (Psi2D [replicate 4 Zero; replicate 4 Zero]);
               expect_out := ExpArrays [];
               collapse_times_out := Some [None; None];
               which_op_out := Some [None; None] |} in
  let ra := {| ra_out := 0%nat; ra_tlist := times4; ra_num_times := 4;
               ra_seeds := [0; 3]%nat |} in
  let h := (alloc heap_empty b0).2 in
  let row0 := [ket decay 0 1; ket decay 1 0; ket decay 1 0; ket decay 1 0] in
  let row1 := [ket decay 0 1; ket decay 0 1; ket decay 1 0; ket decay 1 0] in
  let mc1 := {| mc_config := c; count := 2; num_times := 4;
                mc_seeds := Some [0; 3]%nat; cpus := 2;
                psi_out := Some (Psi2D [row0; row1]);
                expect_out := ExpArrays [];
                collapse_times_out := Some [Some []; Some []];
                which_op_out := Some [Some []; Some []] |} in
  exists h2, pool_loop 10 [1; 0]%nat ra b0 mc h = ([], Ret (mc1, h2)).
Proof.
  intros c b0 mc ra h row0 row1 mc1.
  apply (pool_states_independent_of_completion_order (E := Toy.ext decay) 10
           [0; 1]%nat [1; 0]%nat ra b0 mc h [] mc1
           (alloc (alloc h (BufStates row0)).2 (BufStates row1)).2).
  - reflexivity.
  - apply perm_swap.
  - reflexivity.
Defined.

(** One trajectory, two operators given under the keys of a dict: the second
    key asks for a second trajectory. *)
Lemma dict_keys_index_trajectories_witness :
  mcsolve (E := Toy.ext decay) 10 [0%nat] (problem decay 0 1 [] 2 times4)
          (Some (NInt 1)) (opts 1 false false false (1 # 10) 5)
          (Some ["excited"; "ground"]%string) =
    ([], Raise IndexError).
Proof.
  exact (dict_keys_index_trajectories (E := Toy.ext decay) 10 [0%nat]
           (problem decay 0 1 [] 2 times4) (Some (NInt 1))
           (opts 1 false false false (1 # 10) 5)
           ["excited"; "ground"]%string []
           {| states := None;
              expect := ExpectPerTraj
                          [EntBuf (rows decay [[1; 0; 0; 0]; [0; 1; 1; 1]])];
              times := times4; num_expect := 2; num_collapse := 1;
              out_ntraj := 1;
              col_times := Some [Some []];
              col_which := Some [Some []] |}
           [EntBuf (rows decay [[1; 0; 0; 0]; [0; 1; 1; 1]])]
           ltac:(discriminate) eq_refl eq_refl).
Defined.

(** One trajectory of the decaying system with two operators, the
    populations of the excited and of the ground level.  Given as a list,
    the engine's two arrays come back as the entry of trajectory 0; given
    under the keys of a dict, the call raises. *)
Lemma single_trajectory_dict_raises_witness :
  let c0 := problem decay 0 1 [] 2 times4 in
  let o := opts 1 false false false (1 # 10) 5 in
  mcsolve (E := Toy.ext decay) 10 [0%nat] c0 (Some (NInt 1)) o None =
    ([], Ret {| states := None;
                expect := ExpectPerTraj
                            [EntBuf (rows decay [[1; 0; 0; 0];
                                                 [0; 1; 1; 1]])];
                times := times4; num_expect := 2; num_collapse := 1;
                out_ntraj := 1;
                col_times := Some [Some []];
                col_which := Some [Some []] |}) /\
  mcsolve (E := Toy.ext decay) 10 [0%nat] c0 (Some (NInt 1)) o
          (Some ["excited"; "ground"]%string) =
    ([], Raise IndexError).
Proof.
  intros c0 o.
  exact (single_trajectory_dict_raises (E := Toy.ext decay) 10 [0%nat] c0 o
           ["excited"; "ground"]%string
           (rows decay [[1; 0; 0; 0]; [0; 0; 0; 0]])
           {| r_nt := 0; r_out := SameObject;
              r_collapse_times := []; r_which_oper := [];
              r_shared := rows decay [[1; 0; 0; 0]; [0; 1; 1; 1]];
              r_jumps := [(448740 # 1006020, 0%nat)] |}
           ltac:(discriminate) ltac:(discriminate) eq_refl eq_refl
           ltac:(simpl; lia) eq_refl eq_refl).
Defined.

(** ** The dynamics do not depend on what is recorded *)

Section BufferFacts.
Context {E : Externals}.

(** A step passes the output buffer on without looking at it. *)
Lemma mc_step_buffer c tk s b :
  mc_step c tk (set_mc_alg_out b s) =
  s' ← mc_step c tk s; Ret (set_mc_alg_out b s').
Proof.
  unfold mc_step. cbv zeta.
  cbn [ODE rand_vals set_mc_alg_out].
  destruct (successful (integrate (ODE s) tk true)); cbn [negb];
    [|reflexivity].
  match goal with
  | |- context [@mbind res _ ode traj _ ?m] => destruct m as [od| |]
  end; cbn [mbind res_bind]; try reflexivity.
  destruct (Qle_bool (norm2 (ode_y od)) (fst (rand_vals s)));
    [|reflexivity].
  destruct (find_jump c (fst (rand_vals s)) od (ode_t (ODE s))
              (ode_y (ODE s)) (norm2 (ode_y (ODE s))) (norm2 (ode_y od)))
    as [[od' b']| |]; cbn [mbind res_bind]; try reflexivity.
  unfold do_collapse. cbv zeta.
  cbn [ODE rand_vals rng collapse_times which_oper mc_alg_out jumps
       set_mc_alg_out].
  destruct (select_channel c _ _) as [j| |]; cbn [mbind res_bind];
    try reflexivity.
  destruct (rand2 (rng s)) as [rv g]. reflexivity.
Qed.

Lemma mc_while_buffer fuel c tk s b :
  mc_while fuel c tk (set_mc_alg_out b s) =
  s' ← mc_while fuel c tk s; Ret (set_mc_alg_out b s').
Proof.
  revert s. induction fuel as [|fuel IH]; intros s; cbn [mc_while];
    cbn [ODE set_mc_alg_out];
    destruct (Qlt_bool (ode_t (ODE s)) tk); try reflexivity.
  rewrite mc_step_buffer.
  destruct (mc_step c tk s) as [s1| |]; cbn [mbind res_bind];
    try reflexivity.
  apply IH.
Qed.


(** The output step of a run that records states. *)
Lemma mc_output_states_eq c k s a :
  (e_num c =? 0)%nat = true -> steady_state_average (options c) = false ->
  mc_output c k (set_mc_alg_out (BufStates a) s) =
  a' ← setitem a k
         (let out_psi := vdiv (ode_y (ODE s)) (dznrm2 (ode_y (ODE s))) in
          if average_states (options c)
          then QobjDm (outer out_psi) else QobjKet out_psi);
  Ret (set_mc_alg_out (BufStates a') s).
Proof.
  intros He Hs. unfold mc_output. cbv zeta.
  cbn [ODE mc_alg_out set_mc_alg_out]. rewrite He, Hs.
  destruct (average_states (options c)); cbn [andb negb];
    destruct (setitem a k _); reflexivity.
Qed.

(** Entries that are going to be overwritten do not matter. *)
Lemma mc_for_overwrites fuel c tl ks :
  (e_num c =? 0)%nat = true -> steady_state_average (options c) = false ->
  forall s a a2,
  length a2 = length a ->
  (forall k, k ∉ ks -> a2 !! k = a !! k) ->
  mc_for fuel c tl ks (set_mc_alg_out (BufStates a2) s) =
  mc_for fuel c tl ks (set_mc_alg_out (BufStates a) s).
Proof.
  intros He Hs. induction ks as [|k0 ks IH]; intros s a a2 Hlen Hagree.
  - assert (a2 = a) as ->; [|reflexivity].
    apply list_eq. intros k. apply Hagree, not_elem_of_nil.
  - cbn [mc_for]. destruct (getitem tl k0) as [tk| |]; try reflexivity.
    cbn [mbind res_bind]. rewrite !mc_while_buffer.
    destruct (mc_while fuel c tk s) as [s1| |]; try reflexivity.
    cbn [mbind res_bind]. rewrite !mc_output_states_eq by assumption.
    unfold setitem. rewrite Hlen.
    destruct (Nat.ltb_spec k0 (length a)) as [Hk0|Hk0]; [|reflexivity].
    cbn [mbind res_bind]. apply IH.
    + rewrite !length_insert. exact Hlen.
    + intros k Hk. destruct (decide (k = k0)) as [->|Hne].
      * rewrite !list_lookup_insert_eq by lia. reflexivity.
      * rewrite !list_lookup_insert_ne by congruence. apply Hagree.
        apply not_elem_of_cons. auto.
Qed.

(** The body of the engine does not look at the entries that it is going
    to overwrite. *)
Lemma mc_alg_evolve_body_overwrites (fuel nt : nat)
    (c : odeconfig) (tl : list Q) (T : nat) (sds : list nat)
    (a a2 : list out_item) :
  e_num c = 0%nat -> steady_state_average (options c) = false ->
  length a2 = length a -> a2 !! 0%nat = a !! 0%nat ->
  (forall k, (T <= k)%nat -> a2 !! k = a !! k) ->
  mc_alg_evolve_body fuel nt
    {| a_out := BufStates a2; a_tlist := tl; a_num_times := T;
       a_seeds := sds |} c =
  mc_alg_evolve_body fuel nt
    {| a_out := BufStates a; a_tlist := tl; a_num_times := T;
       a_seeds := sds |} c.
Proof.
  intros He Hs Hlen H0 Hhigh. unfold mc_alg_evolve_body. cbv zeta.
  cbn [a_seeds a_tlist a_num_times a_out].
  destruct (getitem sds nt) as [seed| |]; try reflexivity.
  cbn [mbind res_bind]. destruct (rand2 (RandomState seed)) as [rv g].
  destruct (getitem tl 0) as [t0| |]; try reflexivity.
  cbn [mbind res_bind].
  assert (He' : (e_num c =? 0)%nat = true) by (rewrite He; reflexivity).
  pose proof (mc_for_overwrites fuel c tl (seq 1 (T - 1)) He' Hs
    {| ODE := set_initial_value (ode_create (tflag c)) (psi0 c) t0;
       rand_vals := rv; rng := g; collapse_times := []; which_oper := [];
       mc_alg_out := BufStates a; jumps := [] |} a a2 Hlen) as Hfor.
  unfold set_mc_alg_out in Hfor.
  cbn [ODE rand_vals rng collapse_times which_oper jumps] in Hfor.
  rewrite Hfor; [reflexivity|].
  intros k Hk. rewrite elem_of_seq in Hk.
  destruct (decide (k = 0%nat)) as [->|Hne]; [exact H0|].
  apply Hhigh. lia.
Qed.


(** X15: a trajectory that records states (no steady-state averaging) does
    not look at the entries 1 .. num_times - 1 of the array it is given: on
    two arrays of the same length that agree at index 0 and from [num_times]
    on, [_mc_alg_evolve] returns the same tuple and prints the same. *)
Theorem trajectory_ignores_entries_it_overwrites (fuel nt : nat)
    (c : odeconfig) (tl : list Q) (T : nat) (sds : list nat)
    (a a2 : list out_item) :
  e_num c = 0%nat -> steady_state_average (options c) = false ->
  length a2 = length a -> a2 !! 0%nat = a !! 0%nat ->
  (forall k, (T <= k)%nat -> a2 !! k = a !! k) ->
  _mc_alg_evolve fuel nt
    {| a_out := BufStates a2; a_tlist := tl; a_num_times := T;
       a_seeds := sds |} c =
  _mc_alg_evolve fuel nt
    {| a_out := BufStates a; a_tlist := tl; a_num_times := T;
       a_seeds := sds |} c.
Proof.
  intros He Hs Hlen H0 Hhigh. unfold _mc_alg_evolve.
  rewrite (mc_alg_evolve_body_overwrites fuel nt c tl T sds a a2
             He Hs Hlen H0 Hhigh).
  reflexivity.
Qed.

(** What a trajectory that records states returns. *)
Lemma mc_alg_evolve_body_states_shape fuel nt args c r a :
  e_num c = 0%nat -> steady_state_average (options c) = false ->
  a_out args = BufStates a ->
  mc_alg_evolve_body fuel nt args c = Ret r ->
  r_out r = SameObject /\
  exists a', r_shared r = BufStates a' /\ length a' = length a /\
    a' !! 0%nat = a !! 0%nat /\
    (forall k, (a_num_times args <= k)%nat -> a' !! k = a !! k).
Proof.
  intros He Hs Hbuf. unfold mc_alg_evolve_body. cbv zeta. intros H.
  inv_bind H. destruct (rand2 _) as [rv g]. do 3 inv_bind H.
  injection H as <-. cbn [r_out r_shared]. rewrite Hs in Ha2.
  injection Ha2 as <-. split; [reflexivity|].
  assert (He' : (e_num c =? 0)%nat = true) by (rewrite He; reflexivity).
  eapply (mc_for_states _ _ _ _ _ _ a He' Hs) in Ha1; [|exact Hbuf].
  destruct Ha1 as (a' & Ha' & Hlen & Hent).
  exists a'. split; [exact Ha'|]. split; [exact Hlen|]. split.
  - apply Hent. rewrite elem_of_seq. lia.
  - intros k Hk. apply Hent. rewrite elem_of_seq. lia.
Qed.

Lemma io_bind_assoc_Ret {A B} (m : res A) (f : A -> io B) out (b : B) :
  lift m ≫= f = (out, Ret b) <-> exists a, m = Ret a /\ f a = (out, Ret b).
Proof.
  rewrite io_bind_Ret. unfold lift. split.
  - intros (o1 & a & o2 & [= <- ->] & Hf & ->). eauto.
  - intros (a & -> & Hf). exists [], a, out. auto.
Qed.

(** One call of the serial loop followed by its callback, for a trajectory
    that returns the object it was given. *)
Lemma serial_loop_cons fuel nt nts ra mc h out res :
  (forall b r,
     load h (ra_out ra) = Ret b ->
     mc_alg_evolve_body fuel nt (args_with ra b) (mc_config mc) = Ret r ->
     r_out r = SameObject) ->
  serial_loop fuel (nt :: nts) ra mc h = (out, Ret res) <->
  exists b r mc',
    load h (ra_out ra) = Ret b /\
    mc_alg_evolve_body fuel nt (args_with ra b) (mc_config mc) = Ret r /\
    callback (Some {| p_nt := r_nt r; p_out := ra_out ra;
                      p_collapse_times := r_collapse_times r;
                      p_which_oper := r_which_oper r |}) mc
             (store h (ra_out ra) (r_shared r)) = Ret mc' /\
    serial_loop fuel nts ra mc' (store h (ra_out ra) (r_shared r))
      = (out, Ret res).
Proof.
  intros Hsame. cbn [serial_loop]. rewrite io_bind_assoc_Ret. split.
  - intros (b & Hb & H). apply io_bind_Ret in H.
    destruct H as (o1 & [r|] & o2 & Hev & Hrest & ->).
    + unfold _mc_alg_evolve in Hev.
      destruct (mc_alg_evolve_body fuel nt (args_with ra b) (mc_config mc))
        as [r'| |] eqn:Hbody; try discriminate.
      injection Hev as <- <-.
      rewrite (Hsame b r' Hb Hbody) in Hrest.
      apply io_bind_assoc_Ret in Hrest. destruct Hrest as (mc' & Hcb & Hloop).
      exists b, r', mc'. auto.
    + apply io_bind_assoc_Ret in Hrest. destruct Hrest as (mc' & Hcb & _).
      discriminate.
  - intros (b & r & mc' & Hb & Hbody & Hcb & Hloop).
    exists b. split; [exact Hb|]. apply io_bind_Ret.
    exists [], (Some r), out. unfold _mc_alg_evolve. rewrite Hbody.
    split; [reflexivity|]. split; [|reflexivity].
    rewrite (Hsame b r Hb Hbody). apply io_bind_assoc_Ret.
    exists mc'. auto.
Qed.

(** The callback of a serial call that records states. *)
Lemma callback_serial_states mc h l row nt ct wo a cts wos :
  e_num (mc_config mc) = 0%nat ->
  psi_out mc = Some (Psi2D a) ->
  collapse_times_out mc = Some cts -> which_op_out mc = Some wos ->
  callback (Some {| p_nt := nt; p_out := l; p_collapse_times := ct;
                    p_which_oper := wo |}) mc (store h l (BufStates row)) =
  if ((nt <? length a) && (nt <? length cts) && (nt <? length wos))%nat
  then Ret {| mc_config := mc_config mc; count := count mc + 1;
              num_times := num_times mc; mc_seeds := mc_seeds mc;
              cpus := cpus mc;
              psi_out := Some (Psi2D (<[nt := row]> a));
              expect_out := expect_out mc;
              collapse_times_out := Some (<[nt := Some ct]> cts);
              which_op_out := Some (<[nt := Some wo]> wos) |}
  else Raise IndexError.
Proof.
  intros He Hpsi Hcts Hwos. unfold callback.
  cbn [p_nt p_out p_collapse_times p_which_oper].
  rewrite He, Hpsi, Hcts, Hwos. cbn [Nat.eqb].
  unfold store. rewrite load_insert. cbn [mbind res_bind].
  unfold setitem.
  destruct (nt <? length a)%nat; cbn [mbind res_bind andb]; [|reflexivity].
  destruct (nt <? length cts)%nat; cbn [mbind res_bind andb]; [|reflexivity].
  destruct (nt <? length wos)%nat; cbn [mbind res_bind andb]; reflexivity.
Qed.


Lemma serial_pool_states fuel ra a0 nts :
  forall mc hs hp a,
  e_num (mc_config mc) = 0%nat ->
  steady_state_average (options (mc_config mc)) = false ->
  load hs (ra_out ra) = Ret (BufStates a) ->
  length a = length a0 -> a !! 0%nat = a0 !! 0%nat ->
  (forall k, (ra_num_times ra <= k)%nat -> a !! k = a0 !! k) ->
  forall out mc1,
  (exists h1, serial_loop fuel nts ra mc hs = (out, Ret (mc1, h1))) <->
  (exists h2, pool_loop fuel nts ra (BufStates a0) mc hp
              = (out, Ret (mc1, h2))).
Proof.
  induction nts as [|nt nts IH];
    intros mc hs hp a He Hs Hload Hlen H0 Hhigh out mc1.
  - cbn [serial_loop pool_loop]. unfold mret, io_mret, io_ret. split.
    + intros (h1 & [= <- <- _]). exists hp. reflexivity.
    + intros (h2 & [= <- <- _]). exists hs. reflexivity.
  - assert (Hbody : mc_alg_evolve_body fuel nt (args_with ra (BufStates a))
                      (mc_config mc)
                    = mc_alg_evolve_body fuel nt
                        (args_with ra (BufStates a0)) (mc_config mc)).
    { unfold args_with.
      apply mc_alg_evolve_body_overwrites; assumption. }
    assert (Hsame : forall b r,
      load hs (ra_out ra) = Ret b ->
      mc_alg_evolve_body fuel nt (args_with ra b) (mc_config mc) = Ret r ->
      r_out r = SameObject).
    { intros b r Hb Hr. rewrite Hload in Hb. injection Hb as <-.
      eapply mc_alg_evolve_body_states_shape in Hr; [|exact He|exact Hs|].
      - apply Hr.
      - reflexivity. }
    assert (Hstep : forall r mc',
      mc_alg_evolve_body fuel nt (args_with ra (BufStates a0)) (mc_config mc)
        = Ret r ->
      exists a1,
        r_shared r = BufStates a1 /\ result_buffer r = BufStates a1 /\
        length a1 = length a0 /\ a1 !! 0%nat = a0 !! 0%nat /\
        (forall k, (ra_num_times ra <= k)%nat -> a1 !! k = a0 !! k) /\
        (callback (Some {| p_nt := r_nt r; p_out := ra_out ra;
                           p_collapse_times := r_collapse_times r;
                           p_which_oper := r_which_oper r |}) mc
                  (store hs (ra_out ra) (r_shared r)) = Ret mc' <->
         callback (Some {| p_nt := r_nt r; p_out := next hp;
                           p_collapse_times := r_collapse_times r;
                           p_which_oper := r_which_oper r |}) mc
                  (alloc hp (result_buffer r)).2 = Ret mc') /\
        (callback (Some {| p_nt := r_nt r; p_out := next hp;
                           p_collapse_times := r_collapse_times r;
                           p_which_oper := r_which_oper r |}) mc
                  (alloc hp (result_buffer r)).2 = Ret mc' ->
         mc_config mc' = mc_config mc)).
    { intros r mc' Hr.
      eapply mc_alg_evolve_body_states_shape in Hr; [|exact He|exact Hs|].
      2:{ reflexivity. }
      destruct Hr as (Hobj & a1 & Hsh & Hl1 & H10 & H1h).
      exists a1. unfold result_buffer. rewrite Hobj, Hsh.
      split; [reflexivity|]. split; [reflexivity|].
      split; [exact Hl1|]. split; [exact H10|].
      split; [exact H1h|].
      assert (Hpool : forall mcx,
        callback (Some {| p_nt := r_nt r; p_out := next hp;
                          p_collapse_times := r_collapse_times r;
                          p_which_oper := r_which_oper r |}) mc
                 (alloc hp (BufStates a1)).2 = Ret mcx ->
        callback (Some {| p_nt := r_nt r; p_out := ra_out ra;
                          p_collapse_times := r_collapse_times r;
                          p_which_oper := r_which_oper r |}) mc
                 (store hs (ra_out ra) (BufStates a1)) = Ret mcx /\
        mc_config mcx = mc_config mc).
      { intros mcx Hcb.
        destruct (callback_states_inv _ _ _ _ He Hcb)
          as (pa & cts & wos & _ & Hp & Hc & Hw & _).
        rewrite (callback_serial_states _ _ _ _ _ _ _ _ _ _ He Hp Hc Hw).
        rewrite (callback_pool_states _ _ _ _ _ _ _ _ _ He Hp Hc Hw) in Hcb.
        split; [exact Hcb|].
        destruct (_ && _ && _); [|discriminate].
        injection Hcb as <-. reflexivity. }
      split; [split|].
      - intros Hcb.
        destruct (callback_states_inv _ _ _ _ He Hcb)
          as (pa & cts & wos & _ & Hp & Hc & Hw & _).
        rewrite (callback_pool_states _ _ _ _ _ _ _ _ _ He Hp Hc Hw).
        rewrite (callback_serial_states _ _ _ _ _ _ _ _ _ _ He Hp Hc Hw)
          in Hcb.
        exact Hcb.
      - intros Hcb. apply Hpool, Hcb.
      - intros Hcb. apply Hpool, Hcb. }
    split.
    + intros (h1 & H). apply (serial_loop_cons _ _ _ _ _ _ _ _ Hsame) in H.
      destruct H as (b & r & mc' & Hb & Hr & Hcb & Hloop).
      rewrite Hload in Hb. injection Hb as <-. rewrite Hbody in Hr.
      destruct (Hstep r mc' Hr)
        as (a1 & Hsh & Hrb & Hl1 & H10 & H1h & Hcbs & Hcfg).
      apply Hcbs in Hcb. pose proof (Hcfg Hcb) as Hc'.
      destruct (IH mc' (store hs (ra_out ra) (r_shared r))
                   (alloc hp (result_buffer r)).2 a1) with (out := out)
        (mc1 := mc1) as (Hto & _);
        try (rewrite Hc'; assumption); try assumption.
      { rewrite Hsh. unfold store. apply load_insert. }
      destruct Hto as (h2 & Hpool); [exists h1; exact Hloop|].
      exists h2. apply pool_loop_cons. exists r, mc'. auto.
    + intros (h2 & H). apply pool_loop_cons in H.
      destruct H as (r & mc' & Hr & Hcb & Hloop).
      destruct (Hstep r mc' Hr)
        as (a1 & Hsh & Hrb & Hl1 & H10 & H1h & Hcbs & Hcfg).
      pose proof (Hcfg Hcb) as Hc'. apply Hcbs in Hcb.
      destruct (IH mc' (store hs (ra_out ra) (r_shared r))
                   (alloc hp (result_buffer r)).2 a1) with (out := out)
        (mc1 := mc1) as (_ & Hfrom);
        try (rewrite Hc'; assumption); try assumption.
      { rewrite Hsh. unfold store. apply load_insert. }
      destruct Hfrom as (h1 & Hser); [exists h2; exact Hloop|].
      exists h1. apply (serial_loop_cons _ _ _ _ _ _ _ _ Hsame).
      exists (BufStates a), r, mc'. rewrite Hbody. auto.
Qed.

(** X16: for a run that records states (no steady-state averaging) the
    serial path and the process pool agree: the loop over the trajectories
    in one process succeeds exactly when the pool does for the same order of
    completion, with the same printed lines and the same final state of the
    orchestrator, although every serial call reuses the array the previous
    one has written into. *)
Theorem serial_agrees_with_pool_for_states (fuel : nat) (nts : list nat)
    (ra : run_args) (mc : MC) (h : heap) (a0 : list out_item)
    (out : list string) (mc1 : MC) :
  e_num (mc_config mc) = 0%nat ->
  steady_state_average (options (mc_config mc)) = false ->
  load h (ra_out ra) = Ret (BufStates a0) ->
  (exists h1, serial_loop fuel nts ra mc h = (out, Ret (mc1, h1))) <->
  (exists h2, pool_loop fuel nts ra (BufStates a0) mc h
              = (out, Ret (mc1, h2))).
Proof.
  intros He Hs Hload.
  apply (serial_pool_states fuel ra a0 nts mc h h a0 He Hs Hload);
    reflexivity || auto.
Qed.

End BufferFacts.

(** ** Steady-state averaging *)

Section SameDynamics.
Context {E : Externals}.
Variables c c' : odeconfig.
Hypothesis Htflag : tflag c' = tflag c.
Hypothesis Hc_num : c_num c' = c_num c.
Hypothesis Hconst : c_const_inds c' = c_const_inds c.
Hypothesis Htd : c_td_inds c' = c_td_inds c.
Hypothesis Htol : norm_tol c' = norm_tol c.
Hypothesis Hsteps : norm_steps c' = norm_steps c.

Lemma jump_search_cfg fuel r1 ii od b :
  jump_search fuel c' r1 ii od b = jump_search fuel c r1 ii od b.
Proof.
  revert ii od b. induction fuel as [|fuel IH]; intros ii od b;
    cbn [jump_search]; rewrite Hsteps, ?Htol; [reflexivity|].
  rewrite !IH. reflexivity.
Qed.

Lemma do_collapse_cfg od s : do_collapse c' od s = do_collapse c od s.
Proof.
  unfold do_collapse, weights, select_channel, collapse_state.
  rewrite Htflag, Hc_num, Hconst, Htd. reflexivity.
Qed.

Lemma mc_step_cfg tk s : mc_step c' tk s = mc_step c tk s.
Proof.
  unfold mc_step, find_jump. cbv zeta. rewrite Hsteps.
  destruct (negb _); [reflexivity|].
  match goal with
  | |- context [@mbind res _ ode traj _ ?m] => destruct m as [od| |]
  end; cbn [mbind res_bind]; try reflexivity.
  destruct (Qle_bool _ _); [|reflexivity].
  rewrite jump_search_cfg.
  destruct (jump_search _ _ _ _ _ _) as [[[ii od'] b']| |];
    cbn [mbind res_bind]; try reflexivity.
  destruct (_ <? _)%nat; cbn [mbind res_bind]; [reflexivity|].
  apply do_collapse_cfg.
Qed.

Lemma mc_while_cfg fuel tk s : mc_while fuel c' tk s = mc_while fuel c tk s.
Proof.
  revert s. induction fuel as [|fuel IH]; intros s; cbn [mc_while];
    [reflexivity|].
  rewrite mc_step_cfg. destruct (Qlt_bool _ _); [|reflexivity].
  destruct (mc_step c tk s) as [s1| |]; cbn [mbind res_bind];
    try reflexivity.
  apply IH.
Qed.

End SameDynamics.

Section SteadyFacts.
Context {E : Externals}.
Variables c c' : odeconfig.
Hypothesis Htflag : tflag c' = tflag c.
Hypothesis Hc_num : c_num c' = c_num c.
Hypothesis Hconst : c_const_inds c' = c_const_inds c.
Hypothesis Htd : c_td_inds c' = c_td_inds c.
Hypothesis Htol : norm_tol c' = norm_tol c.
Hypothesis Hsteps : norm_steps c' = norm_steps c.
Hypothesis Hpsi0 : psi0 c' = psi0 c.
Hypothesis He : e_num c = 0%nat.
Hypothesis He' : e_num c' = 0%nat.
Hypothesis Hsteady : steady_state_average (options c) = true.
Hypothesis Hplain : steady_state_average (options c') = false.
Hypothesis Hkets : average_states (options c') = false.

(** The output step in steady-state mode adds the projector of the
    normalised state to the accumulator. *)
Lemma mc_output_steady k s m :
  mc_output c k (set_mc_alg_out (BufStates [Csr m]) s) =
  Ret (set_mc_alg_out
         (BufStates [Csr (mat_add m (outer (vdiv (ode_y (ODE s))
                                                (dznrm2 (ode_y (ODE s))))))])
         s).
Proof.
  unfold mc_output. cbv zeta. cbn [ODE mc_alg_out set_mc_alg_out].
  rewrite He, Hsteady. cbn [Nat.eqb negb]. rewrite andb_false_r.
  reflexivity.
Qed.

(** The accumulator of a steady-state run, against the kets that the same
    trajectory writes when it records states. *)
Lemma mc_for_steady fuel tl ks :
  NoDup ks ->
  forall s a m s1',
  mc_for fuel c' tl ks (set_mc_alg_out (BufStates a) s) = Ret s1' ->
  exists a1 vs,
    mc_alg_out s1' = BufStates a1 /\ length vs = length ks /\
    (forall i k, ks !! i = Some k -> a1 !! k = QobjKet <$> vs !! i) /\
    mc_for fuel c tl ks (set_mc_alg_out (BufStates [Csr m]) s) =
    Ret (set_mc_alg_out
           (BufStates [Csr (fold_left mat_add (map outer vs) m)]) s1').
Proof.
  assert (Heq' : (e_num c' =? 0)%nat = true) by (rewrite He'; reflexivity).
  induction ks as [|k0 ks IH]; intros Hnd s a m s1'.
  - cbn [mc_for]. intros [= <-]. exists a, []. split; [reflexivity|].
    split; [reflexivity|]. split; [|reflexivity].
    intros i k Hik. discriminate.
  - apply NoDup_cons in Hnd. destruct Hnd as (Hk0 & Hnd).
    cbn [mc_for]. destruct (getitem tl k0) as [tk| |]; try discriminate.
    cbn [mbind res_bind]. rewrite !mc_while_buffer.
    rewrite (mc_while_cfg c c' Htflag Hc_num Hconst Htd Htol Hsteps).
    destruct (mc_while fuel c tk s) as [s'| |]; try discriminate.
    cbn [mbind res_bind].
    rewrite (mc_output_states_eq _ _ _ _ Heq' Hplain), mc_output_steady.
    cbv zeta. rewrite Hkets.
    destruct (setitem a k0 _) as [a'| |] eqn:Hset; try discriminate.
    cbn [mbind res_bind]. intros Hrun.
    apply setitem_Ret in Hset. destruct Hset as (Hlt & ->).
    set (v0 := vdiv (ode_y (ODE s')) (dznrm2 (ode_y (ODE s')))) in *.
    destruct (IH Hnd _ _ (mat_add m (outer v0)) _ Hrun)
      as (a1 & vs & Ha1 & Hlen & Hent & Hsteady_run).
    pose proof Hrun as Hrun'.
    eapply mc_for_states in Hrun'; [|exact Heq'|exact Hplain|reflexivity].
    destruct Hrun' as (a1' & Ha1' & _ & Hother).
    rewrite Ha1 in Ha1'. injection Ha1' as <-.
    exists a1, (v0 :: vs). split; [exact Ha1|].
    split; [cbn [length]; rewrite Hlen; reflexivity|]. split.
    + intros [|i] k Hik.
      * injection Hik as <-. destruct (Hother k0) as (_ & Hn).
        rewrite (Hn Hk0). apply list_lookup_insert_eq. exact Hlt.
      * apply Hent. exact Hik.
    + exact Hsteady_run.
Qed.

Lemma steady_body fuel nt tl T sds a m0 r' a1 :
  mc_alg_evolve_body fuel nt
    {| a_out := BufStates a; a_tlist := tl; a_num_times := T;
       a_seeds := sds |} c' = Ret r' ->
  r_shared r' = BufStates a1 ->
  exists vs,
    length vs = (T - 1)%nat /\
    (forall i, (i < T - 1)%nat -> a1 !! S i = QobjKet <$> vs !! i) /\
    let total := fold_left mat_add (map outer vs) m0 in
    mc_alg_evolve_body fuel nt
      {| a_out := BufStates [Csr m0]; a_tlist := tl; a_num_times := T;
         a_seeds := sds |} c =
    Ret {| r_nt := nt;
           r_out := Fresh (BufStates
                     [QobjDm (mat_div total
                                (inject_Z (Z.of_nat (length tl))))]);
           r_collapse_times := r_collapse_times r';
           r_which_oper := r_which_oper r';
           r_shared := BufStates [Csr total];
           r_jumps := r_jumps r' |}.
Proof.
  unfold mc_alg_evolve_body. cbv zeta.
  cbn [a_seeds a_tlist a_num_times a_out].
  rewrite Htflag, Hpsi0, Hsteady, Hplain.
  destruct (getitem sds nt) as [seed| |]; try discriminate.
  cbn [mbind res_bind]. destruct (rand2 (RandomState seed)) as [rv g].
  destruct (getitem tl 0) as [t0| |]; try discriminate.
  cbn [mbind res_bind].
  set (s0 := {| ODE := set_initial_value (ode_create (tflag c)) (psi0 c) t0;
                rand_vals := rv; rng := g; collapse_times := [];
                which_oper := []; mc_alg_out := BufStates a; jumps := [] |}).
  intros Hrun Hshared.
  destruct (mc_for fuel c' tl (seq 1 (T - 1)) s0) as [s1'| |] eqn:Hfor;
    try discriminate.
  cbn [mbind res_bind] in Hrun. injection Hrun as <-.
  cbn [r_shared r_collapse_times r_which_oper r_jumps] in *.
  destruct (mc_for_steady fuel tl (seq 1 (T - 1)) (NoDup_seq _ _)
              s0 a m0 s1' Hfor) as (a1' & vs & Ha1 & Hlen & Hent & Hst).
  rewrite Hshared in Ha1. injection Ha1 as <-.
  exists vs. split; [rewrite Hlen; apply length_seq|]. split.
  - intros i Hi. apply Hent. apply lookup_seq. split; [reflexivity|exact Hi].
  - cbv zeta. unfold set_mc_alg_out in Hst.
    cbn [ODE rand_vals rng collapse_times which_oper jumps s0] in Hst.
    rewrite Hst. cbn [mbind res_bind mc_alg_out steady_result getitem
                      lookup list_lookup collapse_times which_oper jumps].
    reflexivity.
Qed.

End SteadyFacts.

(** X17: with [steady_state_average] a trajectory returns a one-element
    array holding the time average of its states: started on the array
    [[|psi0><psi0|]] it ends with the sum of that entry and of the projectors
    of the kets that the same trajectory (same problem, seeds and tolerances,
    averaging switched off) records at the indices 1 .. num_times - 1,
    divided by [len(tlist)]; the jumps are the same in both runs. *)
Theorem steady_state_average_is_time_average {E : Externals}
    (fuel nt : nat) (c0 : odeconfig) (o : Odeoptions) (n : nat)
    (tl : list Q) (T : nat) (sds : list nat) (a : list out_item) (m0 : mat)
    (r' : traj_result) (a1 : list out_item) :
  let with_flags avg steady :=
    {| average_states := avg; average_expect := average_expect o;
       steady_state_average := steady; num_cpus := num_cpus o;
       seeds := seeds o; opt_ntraj := opt_ntraj o;
       opt_norm_tol := opt_norm_tol o; opt_norm_steps := opt_norm_steps o |} in
  e_num c0 = 0%nat ->
  mc_alg_evolve_body fuel nt
    {| a_out := BufStates a; a_tlist := tl; a_num_times := T;
       a_seeds := sds |} (configure c0 (with_flags false false) n) = Ret r' ->
  r_shared r' = BufStates a1 ->
  exists vs,
    length vs = (T - 1)%nat /\
    (forall i, (i < T - 1)%nat -> a1 !! S i = QobjKet <$> vs !! i) /\
    let total := fold_left mat_add (map outer vs) m0 in
    mc_alg_evolve_body fuel nt
      {| a_out := BufStates [Csr m0]; a_tlist := tl; a_num_times := T;
         a_seeds := sds |}
      (configure c0 (with_flags (average_states o) true) n) =
    Ret {| r_nt := nt;
           r_out := Fresh (BufStates
                     [QobjDm (mat_div total
                                (inject_Z (Z.of_nat (length tl))))]);
           r_collapse_times := r_collapse_times r';
           r_which_oper := r_which_oper r';
           r_shared := BufStates [Csr total];
           r_jumps := r_jumps r' |}.
Proof.
  intros with_flags He Hrun Hshared.
  eapply (steady_body (configure c0 (with_flags (average_states o) true) n)
            (configure c0 (with_flags false false) n));
    try eassumption;
    unfold configure, effective_options, with_flags;
    cbn [tflag c_num c_const_inds c_td_inds norm_tol norm_steps psi0 e_num
         options num_cpus steady_state_average];
    destruct (num_cpus o =? 0)%nat; try assumption; reflexivity.
Qed.

(** ** Averaging the states over the trajectories *)

Section AverageFacts.
Context {E : Externals}.

(** One column of a rectangular array of density matrices. *)
Lemma column_of_density_matrices (rows : list (list mat)) (T t : nat) :
  Forall (fun row => length row = T) rows -> (t < T)%nat ->
  exists col,
    omap (fun row : list mat => row !! t) rows = col /\
    length col = length rows /\
    mapM (fun row => getitem row t) (map (map QobjDm) rows)
      = Ret (map QobjDm col).
Proof.
  intros Hrows Ht. induction Hrows as [|row rows Hrow Hrows IH].
  - exists []. auto.
  - destruct IH as (col & Hcol & Hlen & Hm).
    destruct (lookup_lt_is_Some_2 row t) as (m & Hm0); [lia|].
    exists (m :: col). cbn [omap list_omap]. rewrite Hm0, Hcol.
    split; [reflexivity|]. split; [cbn [length]; lia|].
    assert (Hg : getitem (map QobjDm row) t = Ret (QobjDm m)).
    { unfold getitem. rewrite list_lookup_fmap, Hm0. reflexivity. }
    cbn [map mapM]. rewrite Hg. cbn [mbind res_bind].
    rewrite Hm. reflexivity.
Qed.

Lemma item_data_density_matrices (col : list mat) :
  mapM item_data (map QobjDm col) = Ret col.
Proof.
  induction col as [|m col IH]; [reflexivity|].
  cbn [map mapM item_data mbind res_bind]. rewrite IH. reflexivity.
Qed.

(** X18: the averaged states that [mcsolve] returns are the means over the
    trajectories: for an array [psi_out] with one row of [T] density
    matrices per trajectory (at least one trajectory), the averaging returns
    [T] entries, and entry [t] is the numpy mean (sum over number) of the
    [t]-th entries of all rows. *)
Theorem averaged_states_are_means (rows : list (list mat)) (T : nat) :
  rows <> [] -> Forall (fun row => length row = T) rows ->
  exists l,
    dm_avg_all (Psi2D (map (map QobjDm) rows)) = Ret l /\ length l = T /\
    forall t, (t < T)%nat -> exists m,
      mat_mean (omap (fun row : list mat => row !! t) rows) = Ret m /\
      l !! t = Some (QobjDm m).
Proof.
  intros Hne Hrows.
  assert (Hcol : forall t, (t < T)%nat -> exists m,
    mat_mean (omap (fun row : list mat => row !! t) rows) = Ret m /\
    (col ← mapM (fun row => getitem row t) (map (map QobjDm) rows);
     _mc_dm_avg col) = Ret (QobjDm m)).
  { intros t Ht.
    destruct (column_of_density_matrices rows T t Hrows Ht)
      as (col & Hcol & Hlen & Hm).
    rewrite Hcol, Hm. cbn [mbind res_bind]. unfold _mc_dm_avg.
    rewrite item_data_density_matrices. cbn [mbind res_bind].
    destruct col as [|m0 col].
    { destruct rows; [contradiction|discriminate]. }
    eexists. split; reflexivity. }
  assert (HT : length (hd [] (map (map QobjDm) rows)) = T).
  { destruct Hrows as [|row rows Hrow _]; [contradiction|].
    cbn [map hd]. rewrite length_map. exact Hrow. }
  unfold dm_avg_all. rewrite HT. unfold arange.
  assert (Hall : forall n, (n <= T)%nat -> exists l,
    mapM (fun t => col ← mapM (fun row => getitem row t)
                          (map (map QobjDm) rows); _mc_dm_avg col)
         (seq (T - n) n) = Ret l /\ length l = n /\
    forall i, (i < n)%nat -> exists m,
      mat_mean (omap (fun row : list mat => row !! (T - n + i)%nat) rows)
        = Ret m /\ l !! i = Some (QobjDm m)).
  { induction n as [|n IH]; intros Hn.
    - exists []. split; [reflexivity|]. split; [reflexivity|]. intros i Hi. lia.
    - destruct IH as (l & Hl & Hlen & Hent); [lia|].
      destruct (Hcol (T - S n)%nat) as (m & Hmean & Havg); [lia|].
      exists (QobjDm m :: l). cbn [seq mapM]. rewrite Havg.
      cbn [mbind res_bind].
      replace (S (T - S n)) with (T - n)%nat by lia. rewrite Hl.
      split; [reflexivity|]. split; [cbn [length]; lia|].
      intros [|i] Hi.
      + rewrite Nat.add_0_r. exists m. auto.
      + destruct (Hent i) as (m' & Hm' & Hl'); [lia|].
        exists m'. replace (T - S n + S i)%nat with (T - n + i)%nat by lia.
        auto. }
  destruct (Hall T (le_n T)) as (l & Hl & Hlen & Hent).
  rewrite Nat.sub_diag in Hl. exists l. split; [exact Hl|].
  split; [exact Hlen|]. intros t Ht. destruct (Hent t Ht) as (m & Hm & Hlt).
  rewrite Nat.sub_diag in Hm. exists m. auto.
Qed.

End AverageFacts.

(** Trajectory 1 of the decaying system on the array as trajectory 0 left
    it, and on a fresh one. *)
Lemma trajectory_ignores_entries_it_overwrites_witness :
  let c := configure (E := Toy.ext decay) (problem decay 0 1 [] 0 times4)
                     (opts 2 false false false (1 # 10) 5) 2 in
  let fresh := [ket decay 0 1; Zero; Zero; Zero] in
  let used := [ket decay 0 1; ket decay 1 0; ket decay 1 0; ket decay 1 0] in
  _mc_alg_evolve 10 1
    {| a_out := BufStates used; a_tlist := times4; a_num_times := 4;
       a_seeds := [0; 3]%nat |} c =
  _mc_alg_evolve 10 1
    {| a_out := BufStates fresh; a_tlist := times4; a_num_times := 4;
       a_seeds := [0; 3]%nat |} c.
Proof.
  intros c fresh used.
  apply (trajectory_ignores_entries_it_overwrites (E := Toy.ext decay) 10 1 c
           times4 4 [0; 3]%nat fresh used);
    try reflexivity.
  intros k Hk. rewrite !lookup_ge_None_2 by exact Hk. reflexivity.
Defined.

(** The two trajectories of the decaying system in one process: the same
    final state as through the pool. *)
Lemma serial_agrees_with_pool_for_states_witness :
  let c := configure (E := Toy.ext decay) (problem decay 0 1 [] 0 times4)
                     (opts 2 false false false (1 # 10) 5) 2 in
  let a0 := [ket decay 0 1; Zero; Zero; Zero] in
  let mc := {| mc_config := c; count := 0; num_times := 4;
               mc_seeds := Some [0; 3]%nat; cpus := 2;
               psi_out := Some (Psi2D [replicate 4 Zero; replicate 4 Zero]);
               expect_out := ExpArrays [];
               collapse_times_out := Some [None; None];
               which_op_out := Some [None; None] |} in
  let ra := {| ra_out := 0%nat; ra_tlist := times4; ra_num_times := 4;
               ra_seeds := [0; 3]%nat |} in
  let h := (alloc heap_empty (BufStates a0)).2 in
  let row0 := [ket decay 0 1; ket decay 1 0; ket decay 1 0; ket decay 1 0] in
  let row1 := [ket decay 0 1; ket decay 0 1; ket decay 1 0; ket decay 1 0] in
  let mc1 := {| mc_config := c; count := 2; num_times := 4;
                mc_seeds := Some [0; 3]%nat; cpus := 2;
                psi_out := Some (Psi2D [row0; row1]);
                expect_out := ExpArrays [];
                collapse_times_out := Some [Some []; Some []];
                which_op_out := Some [Some []; Some []] |} in
  exists h1, serial_loop 10 [0; 1]%nat ra mc h = ([], Ret (mc1, h1)).
Proof.
  intros c a0 mc ra h row0 row1 mc1.
  apply (serial_agrees_with_pool_for_states (E := Toy.ext decay) 10
           [0; 1]%nat ra mc h a0 [] mc1 eq_refl eq_refl eq_refl).
  exists (alloc (alloc h (BufStates row0)).2 (BufStates row1)).2.
  reflexivity.
Defined.

(** Trajectory 0 of the decaying system: it records the excited level at
    index 0 and the ground level afterwards, so its steady-state result is
    3/4 ground level and 1/4 excited level. *)
Lemma steady_state_average_is_time_average_witness :
  let c0 := problem decay 0 1 [] 0 times4 in
  let kets := [ket decay 0 1; ket decay 1 0; ket decay 1 0; ket decay 1 0] in
  let m0 : @mat (Toy.ext decay) := [0; 0; 0; 1] in
  exists vs : list (@vec (Toy.ext decay)),
    length vs = 3%nat /\
    (forall i, (i < 3)%nat -> kets !! S i = QobjKet <$> vs !! i) /\
    let total := fold_left mat_add (map outer vs) m0 in
    mc_alg_evolve_body (E := Toy.ext decay) 10 0
      {| a_out := BufStates [Csr m0]; a_tlist := times4; a_num_times := 4;
         a_seeds := [0; 3]%nat |}
      (configure c0 (opts 2 false false true (1 # 10) 5) 2) =
    Ret {| r_nt := 0;
           r_out := Fresh (BufStates
                     [QobjDm (mat_div total (inject_Z (Z.of_nat 4)))]);
           r_collapse_times := []; r_which_oper := [];
           r_shared := BufStates [Csr total];
           r_jumps := [(448740 # 1006020, 0%nat)] |}.
Proof.
  intros c0 kets m0.
  exact (steady_state_average_is_time_average (E := Toy.ext decay) 10 0 c0
           (opts 2 false false false (1 # 10) 5) 2 times4 4 [0; 3]%nat
           [ket decay 0 1; Zero; Zero; Zero] m0
           {| r_nt := 0; r_out := SameObject;
              r_collapse_times := []; r_which_oper := [];
              r_shared := BufStates kets;
              r_jumps := [(448740 # 1006020, 0%nat)] |}
           kets eq_refl eq_refl eq_refl).
Defined.

(** Two trajectories and two output times: at the second time one
    trajectory is in the ground level and one in the excited level. *)
Lemma averaged_states_are_means_witness :
  let rows : list (list (@mat (Toy.ext decay))) :=
    [[[0; 0; 0; 1]; [1; 0; 0; 0]]; [[0; 0; 0; 1]; [0; 0; 0; 1]]] in
  exists l,
    dm_avg_all (Psi2D (map (map QobjDm) rows)) = Ret l /\ length l = 2%nat /\
    forall t, (t < 2)%nat -> exists m,
      mat_mean (omap (fun row : list (@mat (Toy.ext decay)) => row !! t) rows)
        = Ret m /\
      l !! t = Some (QobjDm m).
Proof.
  intros rows.
  apply (averaged_states_are_means (E := Toy.ext decay) rows 2).
  - discriminate.
  - repeat constructor.
Defined.

(** ** Expectation values without collapse operators *)

Section NoCollapseExpectFacts.
Context {E : Externals}.

Lemma no_collapse_expect_loop_rows c ks od a a' :
  no_collapse_expect_loop c ks od a = Ret a' ->
  length a' = length a /\
  (forall jj row, a !! jj = Some row -> exists row',
     a' !! jj = Some row' /\ length row' = length row /\
     forall t, t ∉ ks -> row' !! t = row !! t) /\
  (forall k, k ∈ ks -> exists y, forall jj, (jj < e_num c)%nat ->
     exists row', a' !! jj = Some row' /\
       row' !! k = Some (e_expect jj (vdiv y (dznrm2 y)))).
Proof.
  revert od a. induction ks as [|k0 ks IH]; intros od a; simpl.
  - intros [= <-]. split; [reflexivity|]. split.
    + intros jj row Hrow. exists row. auto.
    + intros k Hk. apply elem_of_nil in Hk. contradiction.
  - intros H. inv_bind H.
    destruct (successful (integrate od a0 false)); [|discriminate].
    inv_bind H. apply write_expect_rows in Ha0.
    destruct Ha0 as (Hlen3 & Hw).
    destruct (IH _ _ H) as (Hlen & Hkeep & Hval).
    split; [congruence|]. split.
    + intros jj row Hrow.
      assert (H3 : exists row3, a1 !! jj = Some row3 /\
                length row3 = length row /\
                forall t, t <> k0 -> row3 !! t = row !! t).
      { destruct (decide (jj ∈ arange (e_num c))) as [Hin|Hin].
        - destruct (Hw jj) as (Hin' & _).
          destruct (Hin' Hin) as (r0 & r3 & Hr0 & Hr3 & Hl & _ & _ & Ho).
          rewrite Hrow in Hr0. injection Hr0 as <-. exists r3. auto.
        - destruct (Hw jj) as (_ & Hnotin). exists row.
          rewrite (Hnotin Hin). auto. }
      destruct H3 as (row3 & Hrow3 & Hl3 & Ho3).
      destruct (Hkeep _ _ Hrow3) as (row' & Hrow' & Hl' & Ho').
      exists row'. split; [exact Hrow'|]. split; [congruence|].
      intros t Ht. apply not_elem_of_cons in Ht. destruct Ht as (Hne & Ht).
      rewrite (Ho' t Ht). apply Ho3. exact Hne.
    + intros k Hk. destruct (decide (k ∈ ks)) as [Hks|Hks]; [auto|].
      apply elem_of_cons in Hk. destruct Hk as [->|Hk]; [|contradiction].
      exists (ode_y (integrate od a0 false)). intros jj Hjj.
      destruct (Hw jj) as (Hin & _).
      destruct Hin as (r0 & r3 & Hr0 & Hr3 & Hl & Hkl & Hv & Ho).
      { unfold arange. rewrite elem_of_seq. lia. }
      destruct (Hkeep _ _ Hr3) as (row' & Hrow' & Hl' & Ho').
      exists row'. split; [exact Hrow'|]. rewrite (Ho' _ Hks). exact Hv.
Qed.

(** X19: without collapse operators the returned list of expectation
    values has the rows it was given, with their lengths; column 0 of every
    operator's row is its expectation value in the initial state as given
    (not divided by its norm), and for every [k] from 1 up to
    [num_times - 1] the entries of all operators in column [k] are
    expectation values in one and the same state divided by its norm. *)
Theorem no_collapse_expect_filled (num_times : nat)
    (a : list (list expv)) (c : odeconfig) (a' : list (list expv)) :
  _no_collapse_expect_out num_times a c = Ret a' ->
  length a' = length a /\
  (forall jj row, a !! jj = Some row -> exists row',
     a' !! jj = Some row' /\ length row' = length row) /\
  (forall jj, (jj < e_num c)%nat -> exists row',
     a' !! jj = Some row' /\ row' !! 0%nat = Some (e_expect jj (psi0 c))) /\
  (forall k, (1 <= k < num_times)%nat -> exists y,
     forall jj, (jj < e_num c)%nat -> exists row',
       a' !! jj = Some row' /\
       row' !! k = Some (e_expect jj (vdiv y (dznrm2 y)))).
Proof.
  unfold _no_collapse_expect_out. cbv zeta. intros H. do 2 inv_bind H.
  apply write_expect_rows in Ha0. destruct Ha0 as (Hlen0 & Hw).
  apply no_collapse_expect_loop_rows in H.
  destruct H as (Hlen & Hkeep & Hval).
  split; [congruence|]. split; [|split].
  - intros jj row Hrow.
    assert (H1 : exists row1, a1 !! jj = Some row1 /\
              length row1 = length row).
    { destruct (decide (jj ∈ arange (e_num c))) as [Hin|Hin].
      - destruct (Hw jj) as (Hin' & _).
        destruct (Hin' Hin) as (r0 & r1 & Hr0 & Hr1 & Hl & _).
        rewrite Hrow in Hr0. injection Hr0 as <-. exists r1. auto.
      - destruct (Hw jj) as (_ & Hnotin). exists row.
        rewrite (Hnotin Hin). auto. }
    destruct H1 as (row1 & Hrow1 & Hl1).
    destruct (Hkeep _ _ Hrow1) as (row' & Hrow' & Hl' & _).
    exists row'. split; [exact Hrow'|congruence].
  - intros jj Hjj. destruct (Hw jj) as (Hin & _).
    destruct Hin as (r0 & r1 & Hr0 & Hr1 & Hl & Hkl & Hv & Ho).
    { unfold arange. rewrite elem_of_seq. lia. }
    destruct (Hkeep _ _ Hr1) as (row' & Hrow' & Hl' & Ho').
    exists row'. split; [exact Hrow'|]. rewrite Ho'; [exact Hv|].
    rewrite elem_of_seq. lia.
  - intros k Hk. apply Hval. rewrite elem_of_seq. lia.
Qed.

End NoCollapseExpectFacts.

(** ** The constructor of the orchestrator *)

Section InitFacts.
Context {E : Externals}.

(** The preallocated arrays of expectation values. *)
Lemma expect_arrays_spec ops n psi :
  expect_arrays ops n psi =
  if (0 <? n)%nat
  then Ret (map (fun i => <[0%nat := e_expect i psi]> (replicate n expv_zero))
                ops)
  else match ops with [] => Ret [] | _ :: _ => Raise IndexError end.
Proof.
  induction ops as [|i ops IH]; cbn [expect_arrays].
  - destruct (0 <? n)%nat; reflexivity.
  - unfold setitem. rewrite length_replicate, IH.
    destruct (0 <? n)%nat; reflexivity.
Qed.

(** X20: building the orchestrator fails in exactly one situation: no
    collapse operators, at least one expectation operator, and an empty
    time list; the exception is then the IndexError of writing the initial
    expectation value into an array of length 0. *)
Theorem MC_init_raises_only_for_empty_tlist (c : odeconfig) :
  (MC_init c = Raise IndexError <->
   c_num c = 0%nat /\ e_num c <> 0%nat /\ tlist c = []) /\
  ((exists mc, MC_init c = Ret mc) \/ MC_init c = Raise IndexError).
Proof.
  unfold MC_init. cbv zeta. rewrite expect_arrays_spec. unfold arange.
  destruct (Nat.eqb_spec (c_num c) 0) as [Hc|Hc];
    destruct (Nat.eqb_spec (e_num c) 0) as [He|He].
  - split; [|left; eauto]. split; [discriminate|]. intros (_ & H & _).
    contradiction.
  - destruct (tlist c) as [|t0 tl] eqn:Htl; cbn [length Nat.ltb Nat.leb].
    + destruct (e_num c) as [|e] eqn:Hen; [contradiction|].
      cbn [seq mbind res_bind]. split; [|right; reflexivity].
      split; auto.
    + cbn [mbind res_bind]. split; [|left; eauto].
      split; [discriminate|]. intros (_ & _ & H). discriminate.
  - split; [|destruct (steady_state_average (options c)); left; eauto].
    split; [destruct (steady_state_average (options c)); discriminate|].
    intros (H & _). contradiction.
  - split; [|left; eauto]. split; [discriminate|]. intros (H & _).
    contradiction.
Qed.

End InitFacts.

(** ** The process pool with expectation operators *)

Section PoolExpectFacts.
Context {E : Externals}.

Lemma callback_pool_expect mc h b nt ct wo a cts wos :
  e_num (mc_config mc) <> 0%nat ->
  expect_out mc = ExpPerTraj a ->
  collapse_times_out mc = Some cts -> which_op_out mc = Some wos ->
  callback (Some {| p_nt := nt; p_out := next h; p_collapse_times := ct;
                    p_which_oper := wo |}) mc (alloc h b).2 =
  if ((nt <? length a) && (nt <? length cts) && (nt <? length wos))%nat
  then Ret {| mc_config := mc_config mc; count := count mc + 1;
              num_times := num_times mc; mc_seeds := mc_seeds mc;
              cpus := cpus mc;
              psi_out := psi_out mc;
              expect_out := ExpPerTraj (<[nt := Ref (next h)]> a);
              collapse_times_out := Some (<[nt := Some ct]> cts);
              which_op_out := Some (<[nt := Some wo]> wos) |}
  else Raise IndexError.
Proof.
  intros He Hex Hcts Hwos. unfold callback.
  cbn [p_nt p_out p_collapse_times p_which_oper].
  apply Nat.eqb_neq in He. rewrite He, Hex, Hcts, Hwos.
  unfold setitem.
  destruct (nt <? length a)%nat; cbn [mbind res_bind andb]; [|reflexivity].
  destruct (nt <? length cts)%nat; cbn [mbind res_bind andb]; [|reflexivity].
  destruct (nt <? length wos)%nat; cbn [mbind res_bind andb]; reflexivity.
Qed.

Lemma callback_expect_inv mc h p mc' :
  e_num (mc_config mc) <> 0%nat ->
  callback (Some p) mc h = Ret mc' ->
  exists a cts wos,
    expect_out mc = ExpPerTraj a /\ collapse_times_out mc = Some cts /\
    which_op_out mc = Some wos.
Proof.
  intros He. unfold callback. apply Nat.eqb_neq in He. rewrite He.
  intros H. inv_bind H. destruct a as [psi ex].
  destruct (expect_out mc) as [a|a]; try discriminate.
  inv_bind H. inv_bind H.
  destruct (collapse_times_out mc) as [cts|]; [|discriminate].
  destruct (which_op_out mc) as [wos|]; [|discriminate].
  exists a, cts, wos. auto.
Qed.

(** What a pool run with expectation operators leaves in the orchestrator
    and in the heap. *)
Lemma pool_loop_expect_entries fuel ra b0 sched :
  forall mc h out mc1 h1 a cts wos,
  e_num (mc_config mc) <> 0%nat ->
  expect_out mc = ExpPerTraj a ->
  collapse_times_out mc = Some cts -> which_op_out mc = Some wos ->
  (forall i l, a !! i = Some (Ref l) -> (l < next h)%nat) ->
  pool_loop fuel sched ra b0 mc h = (out, Ret (mc1, h1)) ->
  out = [] /\ mc_config mc1 = mc_config mc /\
  count mc1 = (count mc + length sched)%nat /\
  num_times mc1 = num_times mc /\ mc_seeds mc1 = mc_seeds mc /\
  cpus mc1 = cpus mc /\ psi_out mc1 = psi_out mc /\
  exists a1 cts1 wos1,
    expect_out mc1 = ExpPerTraj a1 /\ collapse_times_out mc1 = Some cts1 /\
    which_op_out mc1 = Some wos1 /\
    length a1 = length a /\ length cts1 = length cts /\
    length wos1 = length wos /\
    (next h <= next h1)%nat /\
    (forall l, (l < next h)%nat -> cells h1 !! l = cells h !! l) /\
    (forall i l, a1 !! i = Some (Ref l) -> (l < next h1)%nat) /\
    forall nt,
      (nt ∈ sched -> exists r l,
         mc_alg_evolve_body fuel nt (args_with ra b0) (mc_config mc) = Ret r /\
         a1 !! nt = Some (Ref l) /\
         cells h1 !! l = Some (result_buffer r) /\
         cts1 !! nt = Some (Some (r_collapse_times r)) /\
         wos1 !! nt = Some (Some (r_which_oper r))) /\
      (nt ∉ sched ->
         a1 !! nt = a !! nt /\ cts1 !! nt = cts !! nt /\
         wos1 !! nt = wos !! nt).
Proof.
  induction sched as [|nt0 sched IH]; intros mc h out mc1 h1 a cts wos
    He Hex Hcts Hwos Hrefs.
  - cbn [pool_loop]. intros [= <- <- <-].
    repeat (split; [first [reflexivity | symmetry; apply Nat.add_0_r]|]).
    exists a, cts, wos.
    split; [exact Hex|]. split; [exact Hcts|]. split; [exact Hwos|].
    do 3 (split; [reflexivity|]).
    split; [lia|]. split; [reflexivity|]. split; [exact Hrefs|].
    intros nt. split; [|auto]. intros Hnt. apply elem_of_nil in Hnt.
    contradiction.
  - rewrite pool_loop_cons. intros (r & mc' & Hev & Hcb & Hloop).
    pose proof (mc_alg_evolve_body_nt _ _ _ _ _ Hev) as Hnt0.
    rewrite Hnt0 in Hcb.
    rewrite (callback_pool_expect _ _ _ _ _ _ _ _ _ He Hex Hcts Hwos) in Hcb.
    destruct (nt0 <? length a)%nat eqn:Hla; [|discriminate].
    destruct (nt0 <? length cts)%nat eqn:Hlc; [|discriminate].
    destruct (nt0 <? length wos)%nat eqn:Hlw; [|discriminate].
    apply Nat.ltb_lt in Hla, Hlc, Hlw. cbn [andb] in Hcb.
    injection Hcb as <-.
    eapply IH in Hloop; [|exact He|reflexivity..|].
    2:{ unfold alloc. cbn [snd next]. intros i l Hil.
        destruct (decide (i = nt0)) as [->|Hne].
        - rewrite list_lookup_insert_eq in Hil by exact Hla.
          injection Hil as <-. lia.
        - rewrite list_lookup_insert_ne in Hil by congruence.
          apply Hrefs in Hil. lia. }
    cbn [mc_config count num_times mc_seeds cpus psi_out] in Hloop.
    unfold alloc in Hloop. cbn [snd next cells] in Hloop.
    destruct Hloop as (-> & Hc & Hn & Hnt & Hsd & Hcp & Hps & a1 & cts1 & wos1
                       & Hp1 & Hc1 & Hw1 & Hl1 & Hl2 & Hl3 & Hnext & Hcells
                       & Hrefs1 & Hent).
    rewrite length_insert in Hl1. rewrite length_insert in Hl2.
    rewrite length_insert in Hl3.
    split; [reflexivity|]. split; [exact Hc|].
    split; [rewrite Hn; cbn [length]; lia|].
    do 4 (split; [assumption|]).
    exists a1, cts1, wos1.
    do 6 (split; [assumption|]).
    split; [lia|]. split.
    { intros l Hl. rewrite Hcells by lia. apply lookup_insert_ne. lia. }
    split; [exact Hrefs1|].
    intros nt. destruct (Hent nt) as (Hin & Hnotin). split.
    + intros Hnt'. destruct (decide (nt ∈ sched)) as [Hs|Hs]; [auto|].
      apply elem_of_cons in Hnt'. destruct Hnt' as [->|Hnt']; [|contradiction].
      destruct (Hnotin Hs) as (E1 & E2 & E3).
      exists r, (next h). split; [exact Hev|].
      rewrite E1, E2, E3.
      rewrite !list_lookup_insert_eq by assumption.
      split; [reflexivity|]. split; [|auto].
      rewrite Hcells by lia. apply lookup_insert_eq.
    + intros Hnt'. apply not_elem_of_cons in Hnt'.
      destruct Hnt' as (Hne & Hs). destruct (Hnotin Hs) as (E1 & E2 & E3).
      rewrite E1, E2, E3.
      rewrite !list_lookup_insert_ne by congruence. auto.
Qed.

Lemma pool_loop_expect_succeeds fuel ra b0 sched :
  forall mc h a cts wos,
  e_num (mc_config mc) <> 0%nat ->
  expect_out mc = ExpPerTraj a ->
  collapse_times_out mc = Some cts -> which_op_out mc = Some wos ->
  (forall nt, nt ∈ sched ->
     (nt < length a)%nat /\ (nt < length cts)%nat /\ (nt < length wos)%nat /\
     exists r,
       mc_alg_evolve_body fuel nt (args_with ra b0) (mc_config mc) = Ret r) ->
  exists mc1 h1, pool_loop fuel sched ra b0 mc h = ([], Ret (mc1, h1)).
Proof.
  induction sched as [|nt0 sched IH]; intros mc h a cts wos He Hex Hcts Hwos
    Hall.
  - exists mc, h. reflexivity.
  - destruct (Hall nt0) as (Hla & Hlc & Hlw & r & Hev);
      [apply list_elem_of_here|].
    pose proof (mc_alg_evolve_body_nt _ _ _ _ _ Hev) as Hnt0.
    apply Nat.ltb_lt in Hla, Hlc, Hlw.
    set (mc' := {| mc_config := mc_config mc; count := count mc + 1;
                   num_times := num_times mc; mc_seeds := mc_seeds mc;
                   cpus := cpus mc;
                   psi_out := psi_out mc;
                   expect_out := ExpPerTraj (<[nt0 := Ref (next h)]> a);
                   collapse_times_out :=
                     Some (<[nt0 := Some (r_collapse_times r)]> cts);
                   which_op_out :=
                     Some (<[nt0 := Some (r_which_oper r)]> wos) |}).
    destruct (IH mc' (alloc h (result_buffer r)).2
                 (<[nt0 := Ref (next h)]> a)
                 (<[nt0 := Some (r_collapse_times r)]> cts)
                 (<[nt0 := Some (r_which_oper r)]> wos))
      as (mc1 & h1 & Hloop); [exact He|reflexivity..| |].
    { intros nt Hnt. rewrite !length_insert. apply Hall.
      apply list_elem_of_further, Hnt. }
    exists mc1, h1. apply pool_loop_cons. exists r, mc'.
    split; [exact Hev|]. split; [|exact Hloop].
    rewrite Hnt0.
    rewrite (callback_pool_expect _ _ _ _ _ _ _ _ _ He Hex Hcts Hwos).
    rewrite Hla, Hlc, Hlw. reflexivity.
Qed.


(** X21: in a successful pool run with expectation operators, entry [nt]
    of [expect_out] as the caller reads it is the list of arrays that
    trajectory [nt] returned when run on a copy of the initial [mc_alg_out],
    for every completed task [nt], and the two logs hold what that
    trajectory returned; the entries of the other trajectories are still the
    empty list, the [print] statements of the module print nothing (no
    failure message of a trajectory), and [count] grows by the number of
    tasks. *)
Theorem pool_collects_expect_by_index (fuel : nat) (sched : list nat)
    (ra : run_args) (b0 : buffer) (mc : MC) (h : heap) (out : list string)
    (mc1 : MC) (h1 : heap) (n : nat)
    (cts : list (option (list Q))) (wos : list (option (list nat))) :
  e_num (mc_config mc) <> 0%nat ->
  expect_out mc = ExpPerTraj (replicate n EmptyList) ->
  collapse_times_out mc = Some cts -> which_op_out mc = Some wos ->
  pool_loop fuel sched ra b0 mc h = (out, Ret (mc1, h1)) ->
  out = [] /\ count mc1 = (count mc + length sched)%nat /\
  exists ents cts1 wos1,
    read_expect h1 (expect_out mc1) = ExpectPerTraj ents /\
    collapse_times_out mc1 = Some cts1 /\ which_op_out mc1 = Some wos1 /\
    length ents = n /\
    (forall nt, nt ∈ sched -> exists r,
       mc_alg_evolve_body fuel nt (args_with ra b0) (mc_config mc) = Ret r /\
       ents !! nt = Some (EntBuf (result_buffer r)) /\
       cts1 !! nt = Some (Some (r_collapse_times r)) /\
       wos1 !! nt = Some (Some (r_which_oper r))) /\
    (forall nt, nt ∉ sched -> (nt < n)%nat -> ents !! nt = Some EntEmpty).
Proof.
  intros He Hex Hcts Hwos Hrun.
  assert (Hrefs : forall i l,
    replicate n EmptyList !! i = Some (Ref l) -> (l < next h)%nat).
  { intros i l Hil. apply lookup_replicate in Hil. destruct Hil as ([=] & _). }
  destruct (pool_loop_expect_entries _ _ _ _ _ _ _ _ _ _ _ _
              He Hex Hcts Hwos Hrefs Hrun)
    as (Hout & _ & Hn & _ & _ & _ & _ & a1 & cts1 & wos1
        & Hp1 & Hc1 & Hw1 & Hl1 & _ & _ & _ & _ & _ & Hent).
  split; [exact Hout|]. split; [exact Hn|].
  exists (map (read_slot h1) a1), cts1, wos1.
  split; [rewrite Hp1; reflexivity|]. do 2 (split; [assumption|]).
  split; [rewrite length_map, Hl1; apply length_replicate|]. split.
  - intros nt Hnt. destruct (Hent nt) as (Hin & _).
    destruct (Hin Hnt) as (r & l & Hev & E1 & Hcell & E2 & E3).
    exists r. split; [exact Hev|]. rewrite list_lookup_fmap, E1.
    cbn [fmap option_fmap option_map read_slot]. rewrite Hcell. auto.
  - intros nt Hnt Hlt. destruct (Hent nt) as (_ & Hnotin).
    destruct (Hnotin Hnt) as (E1 & _). rewrite list_lookup_fmap, E1.
    rewrite lookup_replicate_2 by exact Hlt. reflexivity.
Qed.

(** X22: in a pool run with expectation operators, the order in which the
    tasks complete does not matter: if the run succeeds for one completion
    order, it succeeds for every other order of the same tasks and prints
    the same, and the caller reads the same [expect_out], logs and [count]
    afterwards. *)
Theorem pool_expect_independent_of_completion_order (fuel : nat)
    (sched sched' : list nat) (ra : run_args) (b0 : buffer) (mc : MC)
    (h : heap) (out : list string) (mc1 : MC) (h1 : heap) (n : nat) :
  e_num (mc_config mc) <> 0%nat ->
  expect_out mc = ExpPerTraj (replicate n EmptyList) ->
  sched ≡ₚ sched' ->
  pool_loop fuel sched ra b0 mc h = (out, Ret (mc1, h1)) ->
  exists mc2 h2,
    pool_loop fuel sched' ra b0 mc h = (out, Ret (mc2, h2)) /\
    read_expect h2 (expect_out mc2) = read_expect h1 (expect_out mc1) /\
    collapse_times_out mc2 = collapse_times_out mc1 /\
    which_op_out mc2 = which_op_out mc1 /\
    count mc2 = count mc1 /\ psi_out mc2 = psi_out mc1 /\
    mc_config mc2 = mc_config mc1.
Proof.
  intros He Hex Hperm Hrun.
  destruct sched as [|nt0 sched0] eqn:Hsched.
  { apply Permutation_nil_l in Hperm. subst sched'. exists mc1, h1. auto 10. }
  rewrite <- Hsched in *.
  assert (Hshape : exists cts wos,
            collapse_times_out mc = Some cts /\ which_op_out mc = Some wos).
  { rewrite Hsched in Hrun. apply pool_loop_cons in Hrun.
    destruct Hrun as (r & mc' & _ & Hcb & _).
    destruct (callback_expect_inv _ _ _ _ He Hcb)
      as (a & cts & wos & _ & Hc & Hw).
    exists cts, wos. auto. }
  destruct Hshape as (cts & wos & Hcts & Hwos).
  assert (Hrefs : forall h0 i l,
    replicate n EmptyList !! i = Some (Ref l) -> (l < next h0)%nat).
  { intros h0 i l Hil. apply lookup_replicate in Hil.
    destruct Hil as ([=] & _). }
  destruct (pool_loop_expect_entries _ _ _ _ _ _ _ _ _ _ _ _
              He Hex Hcts Hwos (Hrefs h) Hrun)
    as (-> & Hc & Hn & Hnt & Hsd & Hcp & Hps & a1 & cts1 & wos1
        & Hp1 & Hc1 & Hw1 & Hl1 & Hl2 & Hl3 & _ & _ & _ & Hent).
  destruct (pool_loop_expect_succeeds fuel ra b0 sched' mc h _ cts wos
              He Hex Hcts Hwos) as (mc2 & h2 & Hrun2).
  { intros nt Hin0. rewrite <- Hperm in Hin0.
    destruct (Hent nt) as (Hin & _).
    destruct (Hin Hin0) as (r & l & Hev & E1 & _ & E2 & E3).
    apply lookup_lt_Some in E1, E2, E3.
    split; [lia|]. split; [lia|]. split; [lia|]. exists r. exact Hev. }
  exists mc2, h2. split; [exact Hrun2|].
  destruct (pool_loop_expect_entries _ _ _ _ _ _ _ _ _ _ _ _
              He Hex Hcts Hwos (Hrefs h) Hrun2)
    as (_ & Hc' & Hn' & Hnt' & Hsd' & Hcp' & Hps' & a2 & cts2 & wos2
        & Hp2 & Hc2 & Hw2 & Hm1 & Hm2 & Hm3 & _ & _ & _ & Hent').
  rewrite <- (Permutation_length Hperm) in Hn'.
  assert (Hsame : map (read_slot h2) a2 = map (read_slot h1) a1 /\
                  cts2 = cts1 /\ wos2 = wos1).
  { split; [|split]; apply list_eq; intros i;
      destruct (Hent i) as (Hin & Hnotin);
      destruct (Hent' i) as (Hin' & Hnotin');
      (destruct (decide (i ∈ sched)) as [Hi|Hi];
       [ destruct (Hin Hi) as (r & l & Hev & E1 & Hcell & E2 & E3);
         rewrite Hperm in Hi;
         destruct (Hin' Hi) as (r' & l' & Hev' & F1 & Hcell' & F2 & F3);
         rewrite Hev in Hev'; injection Hev' as <-
       | destruct (Hnotin Hi) as (E1 & E2 & E3);
         rewrite Hperm in Hi;
         destruct (Hnotin' Hi) as (F1 & F2 & F3) ]).
    - rewrite !list_lookup_fmap, E1, F1.
      cbn [fmap option_fmap option_map read_slot].
      rewrite Hcell, Hcell'. reflexivity.
    - rewrite !list_lookup_fmap, E1, F1.
      destruct (replicate n EmptyList !! i) as [sl|] eqn:Hsl; [|reflexivity].
      apply lookup_replicate in Hsl. destruct Hsl as (-> & _). reflexivity.
    - congruence.
    - congruence.
    - congruence.
    - congruence. }
  destruct Hsame as (Hview & -> & ->).
  split; [rewrite Hp1, Hp2; cbn [read_expect]; rewrite Hview; reflexivity|].
  repeat split; congruence.
Qed.

End PoolExpectFacts.

(** Three output times without collapse operators, recording the population
    of the excited level, which stays 1. *)
Lemma no_collapse_expect_filled_witness :
  let c := configure (E := Toy.ext decay) (problem decay 0 0 [] 1 [0; 1; 2])
                     (opts 1 false false false (1 # 10) 5) 1 in
  let a : list (list (@expv (Toy.ext decay))) := [[1; 0; 0]] in
  let a' : list (list (@expv (Toy.ext decay))) := [[1; 1; 1]] in
  _no_collapse_expect_out 3 a c = Ret a' /\
  length a' = length a /\
  (forall jj row, a !! jj = Some row -> exists row',
     a' !! jj = Some row' /\ length row' = length row) /\
  (forall jj, (jj < e_num c)%nat -> exists row',
     a' !! jj = Some row' /\
     row' !! 0%nat = Some (@e_expect (Toy.ext decay) jj (psi0 c))) /\
  (forall k, (1 <= k < 3)%nat -> exists y,
     forall jj, (jj < e_num c)%nat -> exists row',
       a' !! jj = Some row' /\
       row' !! k = Some (@e_expect (Toy.ext decay) jj (vdiv y (dznrm2 y)))).
Proof.
  intros c a a'. split; [reflexivity|].
  apply (no_collapse_expect_filled (E := Toy.ext decay) 3 a c a').
  reflexivity.
Defined.

(** Two trajectories of the decaying system through the pool, recording the
    population of the excited level. *)
Lemma pool_collects_expect_by_index_witness :
  let c := configure (E := Toy.ext decay) (problem decay 0 1 [] 1 times4)
                     (opts 2 false false false (1 # 10) 5) 2 in
  let b0 := rows decay [[1; 0; 0; 0]] in
  let mc := {| mc_config := c; count := 0; num_times := 4;
               mc_seeds := Some [0; 3]%nat; cpus := 2; psi_out := None;
               expect_out := ExpPerTraj [EmptyList; EmptyList];
               collapse_times_out := Some [None; None];
               which_op_out := Some [None; None] |} in
  let ra := {| ra_out := 0%nat; ra_tlist := times4; ra_num_times := 4;
               ra_seeds := [0; 3]%nat |} in
  let h := (alloc heap_empty b0).2 in
  let mc1 := {| mc_config := c; count := 2; num_times := 4;
                mc_seeds := Some [0; 3]%nat; cpus := 2; psi_out := None;
                expect_out := ExpPerTraj [Ref 1%nat; Ref 2%nat];
                collapse_times_out := Some [Some []; Some []];
                which_op_out := Some [Some []; Some []] |} in
  let h1 := (alloc (alloc h (rows decay [[1; 0; 0; 0]])).2
                   (rows decay [[1; 1; 0; 0]])).2 in
  pool_loop 10 [0; 1]%nat ra b0 mc h = ([], Ret (mc1, h1)) /\
  exists ents cts1 wos1,
    read_expect h1 (expect_out mc1) = ExpectPerTraj ents /\
    collapse_times_out mc1 = Some cts1 /\ which_op_out mc1 = Some wos1 /\
    length ents = 2%nat /\
    (forall nt, nt ∈ [0; 1]%nat -> exists r,
       mc_alg_evolve_body 10 nt (args_with ra b0) c = Ret r /\
       ents !! nt = Some (EntBuf (result_buffer r)) /\
       cts1 !! nt = Some (Some (r_collapse_times r)) /\
       wos1 !! nt = Some (Some (r_which_oper r))) /\
    (forall nt, nt ∉ [0; 1]%nat -> (nt < 2)%nat -> ents !! nt = Some EntEmpty).
Proof.
  intros c b0 mc ra h mc1 h1.
  assert (Hrun : pool_loop 10 [0; 1]%nat ra b0 mc h = ([], Ret (mc1, h1)))
    by reflexivity.
  split; [exact Hrun|].
  apply (pool_collects_expect_by_index (E := Toy.ext decay) 10 [0; 1]%nat
           ra b0 mc h [] mc1 h1 2 [None; None] [None; None]
           ltac:(discriminate) eq_refl eq_refl eq_refl Hrun).
Defined.

(** The same run with the second task completing first: the references
    differ, what the caller reads does not. *)
Lemma pool_expect_independent_of_completion_order_witness :
  let c := configure (E := Toy.ext decay) (problem decay 0 1 [] 1 times4)
                     (opts 2 false false false (1 # 10) 5) 2 in
  let b0 := rows decay [[1; 0; 0; 0]] in
  let mc := {| mc_config := c; count := 0; num_times := 4;
               mc_seeds := Some [0; 3]%nat; cpus := 2; psi_out := None;
               expect_out := ExpPerTraj [EmptyList; EmptyList];
               collapse_times_out := Some [None; None];
               which_op_out := Some [None; None] |} in
  let ra := {| ra_out := 0%nat; ra_tlist := times4; ra_num_times := 4;
               ra_seeds := [0; 3]%nat |} in
  let h := (alloc heap_empty b0).2 in
  let mc1 := {| mc_config := c; count := 2; num_times := 4;
                mc_seeds := Some [0; 3]%nat; cpus := 2; psi_out := None;
                expect_out := ExpPerTraj [Ref 1%nat; Ref 2%nat];
                collapse_times_out := Some [Some []; Some []];
                which_op_out := Some [Some []; Some []] |} in
  let h1 := (alloc (alloc h (rows decay [[1; 0; 0; 0]])).2
                   (rows decay [[1; 1; 0; 0]])).2 in
  exists mc2 h2,
    pool_loop 10 [1; 0]%nat ra b0 mc h = ([], Ret (mc2, h2)) /\
    read_expect h2 (expect_out mc2) = read_expect h1 (expect_out mc1) /\
    collapse_times_out mc2 = collapse_times_out mc1 /\
    which_op_out mc2 = which_op_out mc1 /\
    count mc2 = count mc1 /\ psi_out mc2 = psi_out mc1 /\
    mc_config mc2 = mc_config mc1.
Proof.
  intros c b0 mc ra h mc1 h1.
  apply (pool_expect_independent_of_completion_order (E := Toy.ext decay) 10
           [0; 1]%nat [1; 0]%nat ra b0 mc h [] mc1 h1 2).
  - discriminate.
  - reflexivity.
  - apply perm_swap.
  - reflexivity.
Defined.

(** ** mcsolve and the order of completion *)

Section ApiFacts.
Context {E : Externals}.

Lemma callback_states_some mc h r mc' :
  e_num (mc_config mc) = 0%nat ->
  callback r mc h = Ret mc' ->
  mc_config mc' = mc_config mc /\ exists p, psi_out mc' = Some p.
Proof.
  intros He. destruct r as [p|]; [|discriminate].
  unfold callback. rewrite He. cbn [Nat.eqb]. intros H.
  inv_bind H. destruct a as [psi ex].
  destruct (psi_out mc) as [[a|a]|]; try discriminate.
  inv_bind Ha. destruct a0 as [row|]; [|discriminate].
  inv_bind Ha. injection Ha as <- <-.
  do 2 inv_bind H. injection H as <-. cbn [mc_config psi_out]. eauto.
Qed.

Lemma serial_loop_states_some fuel ra nts :
  forall mc h out mc1 h1,
  e_num (mc_config mc) = 0%nat -> (exists p, psi_out mc = Some p) ->
  serial_loop fuel nts ra mc h = (out, Ret (mc1, h1)) ->
  exists p, psi_out mc1 = Some p.
Proof.
  induction nts as [|nt nts IH]; intros mc h out mc1 h1 He Hp;
    cbn [serial_loop].
  - intros [= <- <- <-]. exact Hp.
  - intros H. apply io_bind_assoc_Ret in H. destruct H as (b & Hb & H).
    apply io_bind_Ret in H. destruct H as (o1 & [r|] & o2 & _ & H & ->).
    + destruct (match r_out r with
                | SameObject => _
                | Fresh b' => _
                end) as [l h'].
      apply io_bind_assoc_Ret in H. destruct H as (mc' & Hcb & Hloop).
      apply callback_states_some in Hcb; [|exact He].
      destruct Hcb as (Hc & Hp').
      eapply IH; [|exact Hp'|exact Hloop]. rewrite Hc. exact He.
    + apply io_bind_assoc_Ret in H. destruct H as (mc' & Hcb & _).
      discriminate.
Qed.

Lemma pool_loop_states_some fuel ra b0 sched :
  forall mc h out mc1 h1,
  e_num (mc_config mc) = 0%nat -> (exists p, psi_out mc = Some p) ->
  pool_loop fuel sched ra b0 mc h = (out, Ret (mc1, h1)) ->
  exists p, psi_out mc1 = Some p.
Proof.
  induction sched as [|nt sched IH]; intros mc h out mc1 h1 He Hp.
  - cbn [pool_loop]. intros [= <- <- <-]. exact Hp.
  - rewrite pool_loop_cons. intros (r & mc' & _ & Hcb & Hloop).
    apply callback_states_some in Hcb; [|exact He].
    destruct Hcb as (Hc & Hp').
    eapply IH; [|exact Hp'|exact Hloop]. rewrite Hc. exact He.
Qed.

Lemma MC_init_states_some c mc :
  e_num c = 0%nat -> MC_init c = Ret mc ->
  mc_config mc = c /\ exists p, psi_out mc = Some p.
Proof.
  intros He. unfold MC_init. cbv zeta. rewrite He. cbn [Nat.eqb].
  destruct (c_num c =? 0)%nat; [|destruct (steady_state_average (options c))];
    intros [= <-]; cbn [mc_config psi_out]; eauto.
Qed.

(** [run] for a problem without expectation operators. *)
Lemma run_states_perm fuel sched sched' mc h out mc1 h1 :
  e_num (mc_config mc) = 0%nat -> (exists p, psi_out mc = Some p) ->
  sched ≡ₚ sched' ->
  run fuel sched mc h = (out, Ret (mc1, h1)) ->
  (exists h2, run fuel sched' mc h = (out, Ret (mc1, h2))) /\
  exists p, psi_out mc1 = Some p.
Proof.
  intros He Hp Hperm. unfold run.
  destruct (c_num (mc_config mc) =? 0)%nat.
  - intros H. split; [exists h1; exact H|].
    apply io_bind_Ret in H. destruct H as (o1 & mc' & o2 & Hmc' & H & ->).
    assert (Hsame : e_num (mc_config mc') = 0%nat /\
                    psi_out mc' = psi_out mc).
    { destruct (negb _); injection Hmc' as _ <-; auto. }
    destruct Hsame as (He' & Hpsi). rewrite He' in H. cbn [Nat.eqb] in H.
    destruct (psi_out mc') as [[a|a]|]; try discriminate.
    apply io_bind_assoc_Ret in H. destruct H as (a' & _ & H).
    injection H as _ <- _. cbn [psi_out set_results]. eauto.
  - cbv zeta. intros H. apply io_bind_assoc_Ret in H.
    destruct H as (b & Hb & H). rewrite Hb, io_bind_lift_Ret.
    unfold alloc in *. cbn [fst snd] in *. unfold parallel in *.
    cbn [mc_config set_seeds cpus ra_out] in *.
    destruct (_ || _).
    + split; [exists h1; exact H|].
      eapply serial_loop_states_some; [| |exact H]; [exact He|exact Hp].
    + apply io_bind_assoc_Ret in H. destruct H as (b0 & Hb0 & H).
      rewrite Hb0, io_bind_lift_Ret. split.
      * eapply pool_loop_states_perm; [exact He|exact Hperm|exact H].
      * eapply pool_loop_states_some; [| |exact H]; [exact He|exact Hp].
Qed.


Lemma collect_states ntraj_in mc h h' p :
  psi_out mc = Some p -> collect ntraj_in mc h = collect ntraj_in mc h'.
Proof. intros Hp. unfold collect. rewrite Hp. reflexivity. Qed.

(** X23: for a problem without expectation operators, what [mcsolve]
    returns and prints does not depend on the order in which the tasks of
    the pool complete: if the call returns for one completion order, it
    returns the same Odedata for every other order of the same tasks. *)
Theorem mcsolve_states_independent_of_completion_order (fuel : nat)
    (sched sched' : list nat) (c0 : odeconfig)
    (ntraj_in : option ntraj_arg) (opts : Odeoptions)
    (dict : option (list string)) (out : list string) (o : Odedata) :
  e_num c0 = 0%nat -> sched ≡ₚ sched' ->
  mcsolve fuel sched c0 ntraj_in opts dict = (out, Ret o) ->
  mcsolve fuel sched' c0 ntraj_in opts dict = (out, Ret o).
Proof.
  intros He Hperm Hrun. unfold mcsolve in *. cbv zeta in *.
  apply io_bind_Ret in Hrun. destruct Hrun as (o1 & n & o2 & Hn & Hrun & ->).
  apply io_bind_Ret in Hrun. destruct Hrun as (o3 & mc & o4 & Hmc & Hrun & ->).
  apply io_bind_Ret in Hrun.
  destruct Hrun as (o5 & [mc1 h1] & o6 & Hr & Hrun & ->).
  rewrite Hn, io_bind_out. cbn [fst snd].
  rewrite Hmc, io_bind_out. cbn [fst snd].
  unfold lift in Hmc. injection Hmc as _ Hmc.
  destruct (MC_init_states_some (configure c0 opts n) mc He Hmc)
    as (Hcfg & Hp).
  assert (He' : e_num (mc_config mc) = 0%nat) by (rewrite Hcfg; exact He).
  destruct (run_states_perm fuel sched sched' mc heap_empty o5 mc1 h1
              He' Hp Hperm Hr) as ((h2 & Hr2) & (p1 & Hp1)).
  rewrite Hr2, io_bind_out. cbn [fst snd].
  rewrite (collect_states _ mc1 h2 h1 p1 Hp1), Hrun. reflexivity.
Qed.

End ApiFacts.

(** Two trajectories of the decaying system through the pool, with the
    second task completing first. *)
Lemma mcsolve_states_independent_of_completion_order_witness :
  mcsolve (E := Toy.ext decay) 10 [1; 0]%nat (problem decay 0 1 [] 0 times4)
          (Some (NInt 2)) (opts 2 false false false (1 # 10) 5) None =
    ([], Ret {| states :=
                  Some (StatesRaw (Psi2D
                    [[ket decay 0 1; ket decay 1 0; ket decay 1 0;
                      ket decay 1 0];
                     [ket decay 0 1; ket decay 0 1; ket decay 1 0;
                      ket decay 1 0]]));
                expect := ExpectUnset; times := times4;
                num_expect := 0; num_collapse := 1; out_ntraj := 2;
                col_times := Some [Some []; Some []];
                col_which := Some [Some []; Some []] |}).
Proof.
  apply (mcsolve_states_independent_of_completion_order (E := Toy.ext decay)
           10 [0; 1]%nat [1; 0]%nat).
  - reflexivity.
  - apply perm_swap.
  - reflexivity.
Defined.

(** ** A jump on a channel of weight zero *)

Lemma Qsquare_zero (x : Q) : x ^ 2 == 0 -> x == 0.
Proof.
  change (x ^ 2) with (x * x). intros H.
  destruct (Qmult_integral _ _ H); assumption.
Qed.

Section ZeroWeightFacts.
Context {E : Externals}.

(** With [r2 <= 0] the first position is selected even when its weight is
    zero: [kk[0] = 0 >= r2]. *)
Lemma select_first_zero_weight (c : odeconfig) (w : Q) (rest : list Q)
    (r2 : Q) :
  (0 < c_num c)%nat -> w == 0 -> ~ Qsum (w :: rest) == 0 -> r2 <= 0 ->
  select_channel c (w :: rest) r2 = Ret 0%nat.
Proof.
  intros Hc Hw Hnz Hr. unfold select_channel.
  destruct (Qeq_bool (Qsum (w :: rest)) 0) eqn:Hz.
  { apply Qeq_bool_iff in Hz. contradiction. }
  unfold cum_probs, cumsum, arange.
  destruct (c_num c) as [|n]; [lia|].
  cbn [seq map cumsum_from first_masked].
  assert (Hk : 0 + w / Qsum (w :: rest) == 0).
  { generalize (Qsum (w :: rest)). intros S. rewrite Hw. unfold Qdiv. ring. }
  assert (Hb : Qle_bool r2 (0 + w / Qsum (w :: rest)) = true).
  { apply Qle_bool_iff. rewrite Hk. exact Hr. }
  rewrite Hb. reflexivity.
Qed.

(** C6: the state handed to the integrator after a jump need not have unit
    norm, because nothing guards the division by the norm.  When
    [rand_vals[1]] is 0 (the generator draws from [0, 1)) and the first
    collapse operator has weight zero while another one has not, position 0
    is selected, the collapsed vector [C_0 psi] has norm zero (the weight
    of an operator is the squared norm of the vector it produces), and the
    engine hands [C_0 psi / 0] to the integrator at the jump time. *)
Theorem jump_on_zero_weight_channel_divides_by_zero `{!NormLaws E}
    (c : odeconfig) (od : ode) (s : traj) (w : Q) (rest : list Q) :
  (0 < c_num c)%nat ->
  weights c (ode_t od) (ode_y od) = w :: rest ->
  w == 0 -> ~ Qsum (w :: rest) == 0 ->
  snd (rand_vals s) <= 0 ->
  dznrm2 (collapse_state c 0 (ode_t od) (ode_y od)) ^ 2 == w ->
  exists s',
    do_collapse c od s = Ret s' /\
    let Cpsi := collapse_state c 0 (ode_t od) (ode_y od) in
    dznrm2 Cpsi == 0 /\
    ode_y (ODE s') = vdiv Cpsi (dznrm2 Cpsi) /\
    ode_t (ODE s') = ode_t od /\
    jumps s' = jumps s ++ [(ode_t od, 0%nat)].
Proof.
  intros Hc Hw Hw0 Hnz Hr Hnorm. unfold do_collapse. cbv zeta.
  rewrite Hw, (select_first_zero_weight c w rest _ Hc Hw0 Hnz Hr).
  cbn [mbind res_bind]. destruct (rand2 (rng s)) as [rv g].
  eexists. split; [reflexivity|]. cbn [ODE jumps].
  rewrite ode_y_set, ode_t_set. split; [|auto].
  apply Qsquare_zero. rewrite Hnorm. exact Hw0.
Qed.

End ZeroWeightFacts.

(** Two constant channels, the pump first; a jump from the state
    [(0, 1/2)] with [r2 = 0].  The weights are [0; 1/4], position 0 is
    selected, and the pump maps the state to the zero vector. *)
Lemma jump_on_zero_weight_channel_divides_by_zero_witness :
  let c := configure (E := Toy.ext pumped0) (problem pumped0 0 2 [] 0 times4)
                     (opts 1 false false false (1 # 10) 5) 1 in
  let s := at_jump pumped0 (1 # 2) 0 in
  weights c 1 (state pumped0 0 (1 # 2)) = [0; 1 # 4] /\
  select_channel c [0; 1 # 4] 0 = Ret 0%nat /\
  exists s',
    do_collapse c after_one_step s = Ret s' /\
    let Cpsi := collapse_state c 0 1 (state pumped0 0 (1 # 2)) in
    dznrm2 Cpsi == 0 /\
    @ode_y (Toy.ext pumped0) (ODE s') = vdiv Cpsi (dznrm2 Cpsi) /\
    @ode_t (Toy.ext pumped0) (ODE s') = 1 /\
    jumps s' = [(1, 0%nat)].
Proof.
  intros c s. split; [reflexivity|]. split; [reflexivity|].
  apply (jump_on_zero_weight_channel_divides_by_zero (E := Toy.ext pumped0)
           (NormLaws0 := Toy_norm_laws pumped0) c after_one_step s
           0 [1 # 4]).
  - apply Nat.ltb_lt. reflexivity.
  - reflexivity.
  - reflexivity.
  - apply Qeq_bool_neq. reflexivity.
  - apply Qle_bool_iff. reflexivity.
  - reflexivity.
Defined.
